(** * Betting-markets aggregator: normalisers, utilities and fan-out

    A shallow embedding of [scripts/utils.ts], of the two normalisers
    ([BetfairClient.normalizeMarket], [PolymarketClient.normalizeMarketWithEvent])
    and of [BettingMarketsAggregator.searchAll], and further of the two
    clients' [search], of the Betfair session ([login], [ensureAuth]) and
    of [testAuth].  What the network answers is an argument of the model:
    a page, a login reply, a catalogue or a book response.

    Text.  Strings are sequences of code units, and the texts printed and
    parsed here hold one code unit a character.

    Numbers.  A JavaScript [number] is a rational [Q]; [NaN] is [None]
    where the source can produce it ([parseFloat]); infinities are outside
    the model.  Equality of numbers ([===]) is [Qeq].  The arithmetic is
    given in two readings.  In the exact reading ([Utils], [Betfair],
    [Polymarket], [Format]) the operations are those of the rationals; it
    carries the statements about order, ranges, flags and structure, on
    which the rounding of the engine has no bearing.  In the binary64
    reading ([Binary64]) every operation is rounded to the nearest double
    as the engine does; it carries the statements about what the
    conversions return to the last digit.

    Optional fields ([x?: T], [T | undefined]) are [option T]. *)

From Stdlib Require Import ZArith QArith Qround Qabs Qpower.
From Stdlib Require Import List String Ascii Bool.
From Stdlib Require Import Lia Lqa.
From Stdlib Require Import Sorting.Sorted Sorting.Permutation.
From Stdlib Require Import DecimalString DecimalN.
Import ListNotations.

Local Open Scope Q_scope.

(* ================================================================== *)
(** * JavaScript primitives used by the sources *)
(* ================================================================== *)

Module Js.

(** [a < b] on numbers. *)
Definition ltb (a b : Q) : bool := negb (Qle_bool b a).

(** [a >= b] on numbers. *)
Definition geb (a b : Q) : bool := Qle_bool b a.

(** Truthiness of a number: every number but zero. *)
Definition truthy (x : Q) : bool := negb (Qeq_bool x 0).

(** Truthiness of [number | undefined]. *)
Definition truthy_opt (x : option Q) : bool :=
  match x with
  | Some q => truthy q
  | None => false
  end.

(** Truthiness of a string: every string but the empty one. *)
Definition truthy_str (s : string) : bool :=
  match s with
  | EmptyString => false
  | String _ _ => true
  end.

(** [a || b] on [number | undefined] operands, [b] a number. *)
Definition or_num (a : option Q) (b : Q) : Q :=
  match a with
  | Some q => if truthy q then q else b
  | None => b
  end.

(** [a || b] where both operands may be [undefined]. *)
Definition or_opt (a b : option Q) : option Q :=
  if truthy_opt a then a else b.

(** [a || b] on [string | undefined] operands, [b] a string. *)
Definition or_str (a : option string) (b : string) : string :=
  match a with
  | Some s => if truthy_str s then s else b
  | None => b
  end.

(** [Math.round]: the nearest integer, halves rounded towards
    plus infinity. *)
Definition Math_round (x : Q) : Q := inject_Z (Qfloor (x + (1 # 2))).

(** [Math.abs]. *)
Definition Math_abs (x : Q) : Q := Qabs x.

(** [Array.prototype.sort] with a comparator.  ECMAScript requires the
    sort to be stable, and leaves the algorithm to the engine.  For a
    comparator that is a consistent ordering the result does not depend on
    the algorithm: it is the one stable sort of the array, computed here by
    insertion, [x] going before the first element [y] with [cmp x y <= 0]. *)
Section Sort.
Context {A : Type} (cmp : A -> A -> Q).

(** [x] may stand before [y]. *)
Definition before (x y : A) : Prop := cmp x y <= 0.

(** [x] and [y] compare as equal, either way round. *)
Definition tie (x y : A) : bool :=
  Qle_bool (cmp x y) 0 && Qle_bool (cmp y x) 0.

Fixpoint insert (x : A) (l : list A) : list A :=
  match l with
  | [] => [x]
  | y :: l' => if Qle_bool (cmp x y) 0 then x :: y :: l'
               else y :: insert x l'
  end.

Fixpoint Array_sort (l : list A) : list A :=
  match l with
  | [] => []
  | x :: l' => insert x (Array_sort l')
  end.
End Sort.

(** [Array.prototype.slice(0, n)], [n] an integer: a negative [n]
    counts from the end. *)
Definition slice0 {A : Type} (n : Z) (l : list A) : list A :=
  if (n <? 0)%Z then firstn (Z.to_nat (Z.of_nat (List.length l) + n)) l
  else firstn (Z.to_nat n) l.

(** [String.prototype.localeCompare], on ASCII lower-case names: the
    sign of the lexicographic comparison. *)
Definition localeCompare (a b : string) : Q :=
  match String.compare a b with
  | Lt => -1
  | Eq => 0
  | Gt => 1
  end.

End Js.

(* ================================================================== *)
(** * types.ts *)
(* ================================================================== *)

Inductive Platform := polymarket | betfair.

Definition platform_name (p : Platform) : string :=
  match p with
  | polymarket => "polymarket"
  | betfair => "betfair"
  end.

Inductive MarketStatus := open | closed | settled | unknown.

(** A decoded JSON value.  Objects are opaque: no key of theirs is read
    by the code modelled here. *)
#[warnings="-register-all"]
Inductive JsValue :=
| JNull
| JBool (b : bool)
| JNum (q : Q)
| JStr (s : string)
| JArr (l : list JsValue)
| JObj.

(** [name] is a string by declaration; the Polymarket normaliser copies the
    decoded array element into it unchecked, hence a [JsValue]. *)
Record Outcome := mkOutcome {
  name : JsValue;
  odds : Q;
  backOdds : option Q;
  layOdds : option Q;
  spread : option Q;
  backSize : option Q;
  laySize : option Q;
  thinLiquidity : option bool;
  backOnly : option bool
}.

Record UnifiedMarket := mkUnifiedMarket {
  platform : Platform;
  id : string;
  eventId : option string;
  url : string;
  question : string;
  outcomes : option (list Outcome);
  m_odds : Q;
  volume : Q;
  liquidity : option Q;
  status : MarketStatus;
  endDate : option string;
  lastUpdated : string
}.

Inductive SortKey := by_volume | by_odds | by_platform.

Record SearchOptions := mkSearchOptions {
  opt_platform : option Platform;
  minVolume : option Q;
  maxResults : option Z;
  sortBy : option SortKey
}.

(** [options = {}]. *)
Definition no_options : SearchOptions := mkSearchOptions None None None None.

Inductive StatusTag := st_success | st_error | st_disabled.

Record PlatformStatus := mkPlatformStatus {
  ps_status : StatusTag;
  ps_count : option nat;
  ps_error : option string
}.

Record Platforms := mkPlatforms {
  p_polymarket : PlatformStatus;
  p_betfair : PlatformStatus
}.

Record Meta := mkMeta {
  query : string;
  timestamp : string;
  platforms : Platforms;
  totalResults : nat;
  warnings : list string
}.

Record AggregatedResult := mkAggregatedResult {
  markets : list UnifiedMarket;
  meta : Meta
}.

(* ================================================================== *)
(** * utils.ts *)
(* ================================================================== *)

Module Utils.

Definition polymarketOddsToPercent (price : Q) : Q :=
  Js.Math_round (price * 100 * 100) / 100.

Definition betfairOddsToPercent (decimalOdds : Q) : Q :=
  if Qle_bool decimalOdds 1 then 100
  else Js.Math_round ((1 / decimalOdds) * 100 * 100) / 100.

Definition gbpToUsd (gbp rate : Q) : Q :=
  Js.Math_round (gbp * rate * 100) / 100.

Definition usdcToUsd (usdc : Q) : Q := usdc.

(** The comparator of [sortMarkets]. *)
Definition compareMarkets (sortBy : SortKey) (a b : UnifiedMarket) : Q :=
  match sortBy with
  | by_volume => volume b - volume a
  | by_odds => m_odds b - m_odds a
  | by_platform =>
      Js.localeCompare (platform_name (platform a)) (platform_name (platform b))
  end.

Definition sortMarkets (markets : list UnifiedMarket) (sortBy : SortKey)
  : list UnifiedMarket :=
  Js.Array_sort (compareMarkets sortBy) markets.

Definition filterByMinVolume (markets : list UnifiedMarket) (minVolume : Q)
  : list UnifiedMarket :=
  filter (fun m => Js.geb (volume m) minVolume) markets.

End Utils.

(* ================================================================== *)
(** * betfair-client.ts *)
(* ================================================================== *)

Module Betfair.

Record BetfairPriceSize := mkPriceSize {
  price : Q;
  size : Q
}.

Record BetfairEx := mkEx {
  availableToBack : option (list BetfairPriceSize);
  availableToLay : option (list BetfairPriceSize)
}.

Record BetfairRunnerBook := mkRunnerBook {
  rb_selectionId : Z;
  ex : option BetfairEx
}.

Record BetfairRunner := mkRunner {
  selectionId : Z;
  runnerName : string
}.

Record BetfairEvent := mkEvent {
  ev_id : string;
  ev_name : string
}.

Record BetfairMarketCatalogue := mkCatalogue {
  marketId : string;
  marketName : string;
  marketStartTime : option string;
  c_totalMatched : option Q;
  c_runners : option (list BetfairRunner);
  event : option BetfairEvent
}.

Record BetfairMarketBook := mkBook {
  b_marketId : string;
  b_status : string;
  totalMatched : Q;
  totalAvailable : Q;
  runners : list BetfairRunnerBook
}.

(** Minimum GBP available to treat an offer as real. *)
Definition MIN_OFFER_SIZE : Q := 2.
(** Minimum implied probability (%) for a lay price to count as genuine. *)
Definition MIN_LAY_PERCENT : Q := 2.

(** [runner.ex?.availableToBack?.[0]] *)
Definition backEntry (runner : BetfairRunnerBook) : option BetfairPriceSize :=
  match ex runner with
  | Some e => match availableToBack e with
              | Some l => hd_error l
              | None => None
              end
  | None => None
  end.

(** [runner.ex?.availableToLay?.[0]] *)
Definition layEntry (runner : BetfairRunnerBook) : option BetfairPriceSize :=
  match ex runner with
  | Some e => match availableToLay e with
              | Some l => hd_error l
              | None => None
              end
  | None => None
  end.

(** [(entry && entry.size >= MIN_OFFER_SIZE) ? entry.price : undefined] *)
Definition sizedPrice (entry : option BetfairPriceSize) : option Q :=
  match entry with
  | Some e => if Js.geb (size e) MIN_OFFER_SIZE then Some (price e) else None
  | None => None
  end.

Definition backPrice (runner : BetfairRunnerBook) : option Q :=
  sizedPrice (backEntry runner).

Definition rawLayPrice (runner : BetfairRunnerBook) : option Q :=
  sizedPrice (layEntry runner).

(** [(rawLayPrice && betfairOddsToPercent(rawLayPrice) >= MIN_LAY_PERCENT)
     ? rawLayPrice : undefined] *)
Definition layPrice (runner : BetfairRunnerBook) : option Q :=
  match rawLayPrice runner with
  | Some p =>
      if Js.truthy p && Js.geb (Utils.betfairOddsToPercent p) MIN_LAY_PERCENT
      then Some p else None
  | None => None
  end.

(** [if (p) x = betfairOddsToPercent(p)], [x] initially [undefined]. *)
Definition impliedOdds (p : option Q) : option Q :=
  match p with
  | Some q => if Js.truthy q then Some (Utils.betfairOddsToPercent q) else None
  | None => None
  end.

(** [`Selection ${id}`] *)
Definition selectionLabel (sel : Z) : string :=
  ("Selection " ++ NilZero.string_of_int (Z.to_int sel))%string.

(** [runnerInfo?.runnerName || `Selection ${runner.selectionId}`] with
    [runnerInfo = catalogue.runners?.find(r => r.selectionId === runner.selectionId)] *)
Definition outcomeName (catalogue : BetfairMarketCatalogue)
    (runner : BetfairRunnerBook) : string :=
  let runnerInfo :=
    match c_runners catalogue with
    | Some rs => find (fun r => (selectionId r =? rb_selectionId runner)%Z) rs
    | None => None
    end in
  Js.or_str (option_map runnerName runnerInfo)
            (selectionLabel (rb_selectionId runner)).

(** The body of the loop over [book.runners]: one runner, one outcome. *)
Definition normalizeRunner (catalogue : BetfairMarketCatalogue)
    (runner : BetfairRunnerBook) : Outcome :=
  let backSize := option_map size (backEntry runner) in
  let laySize := option_map size (layEntry runner) in
  let thinLiquidity :=
    match backSize with
    | Some bs => Js.ltb bs MIN_OFFER_SIZE && negb (Js.truthy_opt laySize)
    | None => false
    end in
  let backOdds := impliedOdds (backPrice runner) in
  let layOdds := impliedOdds (layPrice runner) in
  let backOnly :=
    match backOdds, layOdds with
    | Some _, None => true
    | _, _ => false
    end in
  let '(odds, spread) :=
    match backOdds, layOdds with
    | Some b, Some l =>
        (Js.Math_round (((b + l) / 2) * 100) / 100,
         Some (Js.Math_round (Js.Math_abs (b - l) * 100) / 100))
    | _, _ => (0, None)
    end in
  mkOutcome (JStr (outcomeName catalogue runner))
            odds backOdds layOdds spread backSize laySize
            (Some thinLiquidity) (Some backOnly).

(** [outcomes.sort((a, b) => b.odds - a.odds)] *)
Definition sortOutcomes (os : list Outcome) : list Outcome :=
  Js.Array_sort (fun a b => odds b - odds a) os.

(** [outcomes[0]?.odds || 0] *)
Definition favouriteOdds (os : list Outcome) : Q :=
  Js.or_num (option_map odds (hd_error os)) 0.

Definition normalizeStatus (book : option BetfairMarketBook) : MarketStatus :=
  match book with
  | Some b =>
      if (b_status b =? "OPEN")%string then open
      else if (b_status b =? "CLOSED")%string then closed
      else if (b_status b =? "SUSPENDED")%string then closed
      else unknown
  | None => unknown
  end.

(** [normalizeMarket]; [gbpToUsdRate] is the client's configured rate and
    [now] the value of [nowISO()]. *)
Definition normalizeMarket (gbpToUsdRate : Q) (now : string)
    (catalogue : BetfairMarketCatalogue) (book : option BetfairMarketBook)
  : UnifiedMarket :=
  let eventName := Js.or_str (option_map ev_name (event catalogue)) "" in
  let marketName := Js.or_str (Some (marketName catalogue)) "" in
  let question :=
    if Js.truthy_str eventName then (eventName ++ " - " ++ marketName)%string
    else marketName in
  let '(primaryOdds, outcomes) :=
    match book with
    | Some b =>
        match runners b with
        | [] => (0, None)
        | _ :: _ =>
            let os := sortOutcomes (map (normalizeRunner catalogue) (runners b)) in
            (favouriteOdds os, Some os)
        end
    | None => (0, None)
    end in
  let volumeGBP :=
    Js.or_num (Js.or_opt (option_map totalMatched book) (c_totalMatched catalogue)) 0 in
  let volumeUSD := Utils.gbpToUsd volumeGBP gbpToUsdRate in
  let liquidityGBP := Js.or_num (option_map totalAvailable book) 0 in
  let liquidityUSD := Utils.gbpToUsd liquidityGBP gbpToUsdRate in
  mkUnifiedMarket betfair
    (marketId catalogue)
    (option_map ev_id (event catalogue))
    ("https://www.betfair.com/exchange/plus/market/" ++ marketId catalogue)%string
    question
    outcomes
    primaryOdds
    volumeUSD
    (Some liquidityUSD)
    (normalizeStatus book)
    (marketStartTime catalogue)
    now.

End Betfair.

(* ================================================================== *)
(** * polymarket-client.ts *)
(* ================================================================== *)

Module Polymarket.

(** ** [parseFloat]

    Leading white space, an optional sign, then the longest prefix that is
    a decimal literal ([digits], [digits.digits], [.digits], each with an
    optional exponent).  [None] is [NaN].  The literal [Infinity] is outside
    the number model and reads as [NaN] here. *)

Definition is_space (c : ascii) : bool :=
  let n := nat_of_ascii c in
  ((9 <=? n) && (n <=? 13) || (n =? 32))%nat.

Fixpoint skip_space (s : string) : string :=
  match s with
  | String c t => if is_space c then skip_space t else s
  | EmptyString => s
  end.

Definition digit_of (c : ascii) : option Z :=
  let n := Z.of_nat (nat_of_ascii c) in
  if ((48 <=? n) && (n <=? 57))%Z then Some (n - 48)%Z else None.

(** The value and the number of the leading digits of [s], and the rest. *)
Fixpoint digits (s : string) (acc : Z) (count : nat) : Z * nat * string :=
  match s with
  | String c t =>
      match digit_of c with
      | Some d => digits t (10 * acc + d)%Z (S count)
      | None => (acc, count, s)
      end
  | EmptyString => (acc, count, s)
  end.

(** An optional sign: [true] for a minus. *)
Definition sign (s : string) : bool * string :=
  match s with
  | String "-" t => (true, t)
  | String "+" t => (false, t)
  | _ => (false, s)
  end.

(** The exponent part at the head of [s], 0 when there is none. *)
Definition exponent (s : string) : Z :=
  match s with
  | String c t =>
      if (Ascii.eqb c "e" || Ascii.eqb c "E")%bool then
        let '(neg, t2) := sign t in
        let '(ev, ne, _) := digits t2 0%Z 0%nat in
        if (ne =? 0)%nat then 0%Z else if neg then (- ev)%Z else ev
      else 0%Z
  | EmptyString => 0%Z
  end.

Definition parseFloat (s : string) : option Q :=
  let '(neg, s2) := sign (skip_space s) in
  let '(ip, ni, s3) := digits s2 0%Z 0%nat in
  let '(fp, nf, s4) :=
    match s3 with
    | String "." t => digits t 0%Z 0%nat
    | _ => (0%Z, 0%nat, s3)
    end in
  if (ni + nf =? 0)%nat then None
  else
    let mantissa := inject_Z ip + inject_Z fp / inject_Z (10 ^ Z.of_nat nf) in
    let v := mantissa * (10 ^ exponent s4) in
    Some (if neg then - v else v).

(** [parseFloat(String(v))] for a decoded value [v].  A number prints and
    reads back as itself; an array prints as its elements joined by
    commas, of which [parseFloat] reads the first; [null], booleans and
    objects print as text that is no number. *)
Fixpoint parseFloatString (v : JsValue) : option Q :=
  match v with
  | JNum q => Some q
  | JStr s => parseFloat s
  | JArr (x :: _) => parseFloatString x
  | _ => None
  end.

(** ** Raw records *)

(** A field declared [string | string[]]: a native sequence, its JSON
    text, or missing. *)
Inductive RawList :=
| RawAbsent
| RawString (s : string)
| RawArray (l : list JsValue).

Record PolymarketSearchMarket := mkMarket {
  pm_id : string;
  pm_question : string;
  pm_endDate : string;
  pm_liquidity : string;
  pm_volume : string;
  outcomePrices : RawList;
  pm_outcomes : RawList;
  pm_active : bool;
  pm_closed : bool;
  acceptingOrders : bool
}.

Record PolymarketSearchEvent := mkEvent {
  pe_id : string;
  slug : string;
  title : string;
  pe_endDate : string;
  pe_liquidity : Q;
  pe_volume : Q
}.

(** ** Exceptions inside the [try] block *)

Inductive Completion (A : Type) :=
| Normal (a : A)
| Throw.
Arguments Normal {A} a.
Arguments Throw {A}.

Definition bind {A B : Type} (c : Completion A) (k : A -> Completion B)
  : Completion B :=
  match c with
  | Normal a => k a
  | Throw => Throw
  end.

Notation "x <- c ;; k" := (bind c (fun x => k))
  (at level 61, c at next level, right associativity).

Section Normalizer.

(** [JSON.parse]: the decoded value, or [None] for a [SyntaxError]. *)
Variable JSON_parse : string -> option JsValue.

Definition parse (s : string) : Completion JsValue :=
  match JSON_parse s with
  | Some v => Normal v
  | None => Throw
  end.

(** [Array.isArray(f) ? f : JSON.parse(f || '[]')] *)
Definition decode (f : RawList) : Completion JsValue :=
  match f with
  | RawArray l => Normal (JArr l)
  | RawString s => parse (if Js.truthy_str s then s else "[]"%string)
  | RawAbsent => parse "[]"%string
  end.

(** [v.length]: a [TypeError] on [null], [undefined] on values that have
    no such property. *)
Definition js_length (v : JsValue) : Completion (option nat) :=
  match v with
  | JNull => Throw
  | JArr l => Normal (Some (List.length l))
  | JStr s => Normal (Some (String.length s))
  | _ => Normal None
  end.

(** [n > 0] for [n] a length or [undefined]. *)
Definition positive (n : option nat) : bool :=
  match n with
  | Some k => (0 <? k)%nat
  | None => false
  end.

(** [v[i]]: an element of an array, a character of a string. *)
Definition js_index (v : JsValue) (i : nat) : option JsValue :=
  match v with
  | JArr l => nth_error l i
  | JStr s => option_map (fun c => JStr (String c EmptyString)) (String.get i s)
  | _ => None
  end.

(** [parseFloat(String(outcomePrices[i])) || 0] *)
Definition priceAt (outcomePrices : JsValue) (i : nat) : Q :=
  Js.or_num
    (match js_index outcomePrices i with
     | Some v => parseFloatString v
     | None => None
     end) 0.

(** [names.map((name, i) => f(name, i))] from index [i]. *)
Fixpoint mapi {A B : Type} (f : A -> nat -> B) (i : nat) (l : list A) : list B :=
  match l with
  | [] => []
  | x :: t => f x i :: mapi f (S i) t
  end.

Definition mkPolyOutcome (outcomePrices : JsValue) (nm : JsValue) (i : nat)
  : Outcome :=
  mkOutcome nm (Utils.polymarketOddsToPercent (priceAt outcomePrices i))
            None None None None None None None.

(** The body of the [try] block: the new value of [outcomes], if it
    is assigned. *)
Definition tryOutcomes (market : PolymarketSearchMarket)
  : Completion (option (list Outcome)) :=
  outcomeNames <- decode (pm_outcomes market) ;;
  prices <- decode (outcomePrices market) ;;
  ln <- js_length outcomeNames ;;
  if positive ln then
    lp <- js_length prices ;;
    if positive lp then
      match outcomeNames with
      | JArr l => Normal (Some (mapi (mkPolyOutcome prices) 0%nat l))
      | _ => Throw
      end
    else Normal None
  else Normal None.

(** [outcomes[0]?.odds || 50] *)
Definition firstOdds (os : list Outcome) : Q :=
  Js.or_num (option_map odds (hd_error os)) 50.

Definition normalizeMarketWithEvent (now : string)
    (market : PolymarketSearchMarket) (event : PolymarketSearchEvent)
  : UnifiedMarket :=
  let '(outcomes, primaryOdds) :=
    match tryOutcomes market with
    | Normal (Some os) => (Some os, firstOdds os)
    | Normal None => (None, 50)
    | Throw => (None, 50)
    end in
  let volume :=
    Js.or_num (Js.or_opt (Some (pe_volume event)) (parseFloat (pm_volume market))) 0 in
  let liquidity :=
    Js.or_num (Js.or_opt (Some (pe_liquidity event)) (parseFloat (pm_liquidity market))) 0 in
  mkUnifiedMarket polymarket
    (pm_id market)
    (Some (pe_id event))
    ("https://polymarket.com/event/" ++ slug event)%string
    (Js.or_str (Some (title event)) (pm_question market))
    outcomes
    primaryOdds
    (Utils.usdcToUsd volume)
    (Some (Utils.usdcToUsd liquidity))
    (if pm_closed market then closed
     else if pm_active market && acceptingOrders market then open
     else unknown)
    (Some (Js.or_str (Some (pm_endDate market)) (pe_endDate event)))
    now.

End Normalizer.

End Polymarket.

(* ================================================================== *)
(** * aggregator.ts *)
(* ================================================================== *)

Module Aggregator.

(** What a rejected [search] promise carries: an [Error] with its
    [message], or any other value, given by its [String(...)] text. *)
Inductive Thrown :=
| ErrorObject (message : string)
| OtherValue (text : string).

(** A settled [client.search(query, options)]. *)
Inductive Settled :=
| Resolved (ms : list UnifiedMarket)
| Rejected (e : Thrown).

(** The [MarketClient] capability, as far as [searchAll] uses it. *)
Record MarketClient := mkClient {
  isEnabled : bool;
  search : string -> SearchOptions -> Settled
}.

(** The objects [{ platform, markets?, error? }] the wrapped promises
    resolve to. *)
Record SearchResult := mkResult {
  r_platform : Platform;
  r_markets : option (list UnifiedMarket);
  r_error : option string
}.

(** [error instanceof Error ? error.message : String(error)] *)
Definition errorMessage (e : Thrown) : string :=
  match e with
  | ErrorObject m => m
  | OtherValue t => t
  end.

(** [.then(markets => ({ platform, markets })).catch(error => ({ platform, error: ... }))] *)
Definition capture (p : Platform) (s : Settled) : SearchResult :=
  match s with
  | Resolved ms => mkResult p (Some ms) None
  | Rejected e => mkResult p None (Some (errorMessage e))
  end.

Definition platform_eqb (a b : Platform) : bool :=
  match a, b with
  | polymarket, polymarket | betfair, betfair => true
  | _, _ => false
  end.

(** [!targetPlatform || targetPlatform === p] *)
Definition targeted (targetPlatform : option Platform) (p : Platform) : bool :=
  match targetPlatform with
  | None => true
  | Some t => platform_eqb t p
  end.

(** [platforms[p] = s] *)
Definition setStatus (ps : Platforms) (p : Platform) (s : PlatformStatus) : Platforms :=
  match p with
  | polymarket => mkPlatforms s (p_betfair ps)
  | betfair => mkPlatforms (p_polymarket ps) s
  end.

(** The mutable locals of [searchAll]. *)
Record Locals := mkLocals {
  l_platforms : Platforms;
  l_warnings : list string;
  allMarkets : list UnifiedMarket
}.

(** One iteration of [for (const result of results)]. *)
Definition processResult (st : Locals) (result : SearchResult) : Locals :=
  match r_error result with
  | Some (String _ _ as e) =>
      mkLocals
        (setStatus (l_platforms st) (r_platform result)
                   (mkPlatformStatus st_error None (Some e)))
        (l_warnings st ++ [(platform_name (r_platform result) ++ ": " ++ e)%string])
        (allMarkets st)
  | _ =>
      match r_markets result with
      | Some ms =>
          mkLocals
            (setStatus (l_platforms st) (r_platform result)
                       (mkPlatformStatus st_success (Some (List.length ms)) None))
            (l_warnings st)
            (allMarkets st ++ ms)
      | None => st
      end
  end.

(** [searchAll]; [now] is the value of [nowISO()].  The promises are
    pushed, and [Promise.all] yields their results, in the order
    polymarket, betfair. *)
Definition searchAll (polymarketClient betfairClient : MarketClient) (now : string)
    (query : string) (options : SearchOptions) : AggregatedResult :=
  let disabled := mkPlatformStatus st_disabled None None in
  let targetPlatform := opt_platform options in
  let searchPromises :=
    (if isEnabled polymarketClient && targeted targetPlatform polymarket
     then [capture polymarket (search polymarketClient query options)] else [])
    ++
    (if isEnabled betfairClient && targeted targetPlatform betfair
     then [capture betfair (search betfairClient query options)] else []) in
  let st :=
    fold_left processResult searchPromises
              (mkLocals (mkPlatforms disabled disabled) [] []) in
  let filtered :=
    match minVolume options with
    | Some v => if Js.truthy v then Utils.filterByMinVolume (allMarkets st) v
                else allMarkets st
    | None => allMarkets st
    end in
  let sorted :=
    Utils.sortMarkets filtered
      (match sortBy options with Some k => k | None => by_volume end) in
  let limited :=
    match maxResults options with
    | Some n => if (n =? 0)%Z then sorted else Js.slice0 n sorted
    | None => sorted
    end in
  mkAggregatedResult limited
    (mkMeta query now (l_platforms st) (List.length limited) (l_warnings st)).

End Aggregator.

(* ================================================================== *)
(** * Specification vocabulary *)
(* ================================================================== *)

(** [r] is [x] rounded to two decimal places: a whole number of hundredths
    at most half a hundredth away from [x], the upper one on a tie. *)
Definition rounded2 (x r : Q) : Prop :=
  exists n : Z,
    r == inject_Z n / 100 /\
    x * 100 - (1 # 2) < inject_Z n /\ inject_Z n <= x * 100 + (1 # 2).

(** The order a sort key asks for: [a] may stand before [b]. *)
Definition ordered (k : SortKey) (a b : UnifiedMarket) : Prop :=
  match k with
  | by_volume => volume b <= volume a
  | by_odds => m_odds b <= m_odds a
  | by_platform =>
      String.leb (platform_name (platform a)) (platform_name (platform b)) = true
  end.

(** [l1] is [l2] with some elements left out, order kept. *)
Inductive Subseq {A : Type} : list A -> list A -> Prop :=
| Subseq_nil : Subseq [] []
| Subseq_skip x l1 l2 : Subseq l1 l2 -> Subseq l1 (x :: l2)
| Subseq_keep x l1 l2 : Subseq l1 l2 -> Subseq (x :: l1) (x :: l2).

(** [l'] is a stable sort of [l] by [cmp]: in order, and with the elements
    of every class of ties exactly as they stand in [l]. *)
Definition stable_sort_of {A : Type} (cmp : A -> A -> Q) (l l' : list A) : Prop :=
  Sorted (Js.before cmp) l' /\
  forall x, filter (Js.tie cmp x) l' = filter (Js.tie cmp x) l.

(** Outcomes from the highest [odds] to the lowest. *)
Definition descending (os : list Outcome) : Prop :=
  StronglySorted (fun a b => odds b <= odds a) os.

(** [q] is the largest [odds] of [os]. *)
Definition max_odds (os : list Outcome) (q : Q) : Prop :=
  (exists o, In o os /\ odds o == q) /\ Forall (fun o => odds o <= q) os.

(** The favourite invariant of a unified market. *)
Definition favourite_first (m : UnifiedMarket) : Prop :=
  forall os, outcomes m = Some os -> os <> [] ->
    max_odds os (m_odds m) /\ descending os.

(** A quote passes the size filter. *)
Definition passes_size (e : Betfair.BetfairPriceSize) : Prop :=
  Betfair.MIN_OFFER_SIZE <= Betfair.size e.

(** A quote passes the lay-percentage filter. *)
Definition passes_lay_percent (e : Betfair.BetfairPriceSize) : Prop :=
  Betfair.MIN_LAY_PERCENT <= Utils.betfairOddsToPercent (Betfair.price e).

(** The best back quote of [r] is [e], and it survives filtering. *)
Definition back_survives (r : Betfair.BetfairRunnerBook)
    (e : Betfair.BetfairPriceSize) : Prop :=
  Betfair.backEntry r = Some e /\ passes_size e.

(** The best lay quote of [r] is [e], and it survives filtering. *)
Definition lay_survives (r : Betfair.BetfairRunnerBook)
    (e : Betfair.BetfairPriceSize) : Prop :=
  Betfair.layEntry r = Some e /\ passes_size e /\ passes_lay_percent e.

(* ================================================================== *)
(** * Concrete inputs *)
(* ================================================================== *)

(** A market known only by its platform and its volume. *)
Definition market_with_volume (p : Platform) (v : Q) : UnifiedMarket :=
  mkUnifiedMarket p "m" None "" "q" None 50 v None open None "t".

Definition two_markets : list UnifiedMarket :=
  [market_with_volume betfair 5; market_with_volume polymarket 0].

(** Concrete runners: at most one quote on each side. *)
Definition quote (p s : Q) : Betfair.BetfairPriceSize := Betfair.mkPriceSize p s.

Definition runner_with (back lay : option Betfair.BetfairPriceSize)
  : Betfair.BetfairRunnerBook :=
  Betfair.mkRunnerBook 47972
    (Some (Betfair.mkEx (option_map (fun e => [e]) back)
                        (option_map (fun e => [e]) lay))).

Definition winner_catalogue : Betfair.BetfairMarketCatalogue :=
  Betfair.mkCatalogue "1.234" "Winner" None None None None.

Definition runner_20_24 : Betfair.BetfairRunnerBook :=
  runner_with (Some (quote 5 10)) (Some (quote (25 # 6) 10)).

Definition runner_back_5 : Betfair.BetfairRunnerBook :=
  runner_with (Some (quote 5 10)) None.

Definition runner_thin : Betfair.BetfairRunnerBook :=
  runner_with (Some (quote 5 1)) None.

Definition runner_lay_only : Betfair.BetfairRunnerBook :=
  runner_with None (Some (quote 5 1)).

(** ** Concrete Polymarket records *)

(** A stand-in for [JSON.parse] that knows the text of the empty array
    only.  The records below carry native sequences, which are never
    handed to [JSON.parse]. *)
Definition parse_empty_array (s : string) : option JsValue :=
  if (s =? "[]")%string then Some (JArr []) else None.

Definition greenland_event : Polymarket.PolymarketSearchEvent :=
  Polymarket.mkEvent "16167" "greenland" "Will the US acquire Greenland?"
                     "2026-12-31" 1000 250000.

(** A yes/no market with the names and prices given as native sequences. *)
Definition yes_no_market (yes no : string) : Polymarket.PolymarketSearchMarket :=
  Polymarket.mkMarket "512340" "Will the US acquire Greenland?" "2026-12-31"
    "1000" "250000"
    (Polymarket.RawArray [JStr yes; JStr no])
    (Polymarket.RawArray [JStr "Yes"; JStr "No"])
    true false true.

Definition two_runner_book : Betfair.BetfairMarketBook :=
  Betfair.mkBook "1.234" "OPEN" 1000 500
    [runner_with (Some (quote 5 10)) None; runner_20_24].

Definition resolving (ms : list UnifiedMarket) : Aggregator.MarketClient :=
  Aggregator.mkClient true (fun _ _ => Aggregator.Resolved ms).

Definition rejecting (e : Aggregator.Thrown) : Aggregator.MarketClient :=
  Aggregator.mkClient true (fun _ _ => Aggregator.Rejected e).

Definition three_markets : list UnifiedMarket :=
  [market_with_volume polymarket 100;
   market_with_volume polymarket 300;
   market_with_volume polymarket 200].

(* ================================================================== *)
(** * Vocabulary for the further properties *)
(* ================================================================== *)


(** [q] is a percentage. *)
Definition percentage (q : Q) : Prop := 0 <= q /\ q <= 100.

(** [q], when present, satisfies [P]. *)
Definition when_present (P : Q -> Prop) (q : option Q) : Prop :=
  match q with
  | Some x => P x
  | None => True
  end.

(** An outcome priced on both sides. *)
Definition two_sided (o : Outcome) : Prop :=
  backOdds o <> None /\ layOdds o <> None.

(** The market [m] with other outcome names and prices. *)
Definition with_outcome_data (m : Polymarket.PolymarketSearchMarket)
    (names prices : Polymarket.RawList) : Polymarket.PolymarketSearchMarket :=
  Polymarket.mkMarket (Polymarket.pm_id m) (Polymarket.pm_question m)
    (Polymarket.pm_endDate m) (Polymarket.pm_liquidity m) (Polymarket.pm_volume m)
    prices names
    (Polymarket.pm_active m) (Polymarket.pm_closed m) (Polymarket.acceptingOrders m).

(** The JSON text of a sequence of strings that need no escaping. *)
Definition json_strings (l : list string) : string :=
  let dq := String (ascii_of_nat 34) EmptyString in
  ("[" ++ String.concat "," (map (fun s => dq ++ s ++ dq) l) ++ "]")%string.

(** A stand-in for [JSON.parse] that knows three texts: the empty array,
    the names Yes and No, and the prices 0.22 and 0.78 as strings. *)
Definition parse_known (s : string) : option JsValue :=
  if (s =? "[]")%string then Some (JArr [])
  else if (s =? json_strings ["Yes"; "No"]%string)%string
  then Some (JArr [JStr "Yes"; JStr "No"])
  else if (s =? json_strings ["0.22"; "0.78"]%string)%string
  then Some (JArr [JStr "0.22"; JStr "0.78"])
  else None.

(** ** The aggregator, platform by platform *)

Definition status_of (ps : Platforms) (p : Platform) : PlatformStatus :=
  match p with
  | polymarket => p_polymarket ps
  | betfair => p_betfair ps
  end.

(** The client of platform [p] is searched: it is enabled and the platform
    filter lets it through. *)
Definition queried (options : SearchOptions) (p : Platform)
    (c : Aggregator.MarketClient) : bool :=
  Aggregator.isEnabled c && Aggregator.targeted (opt_platform options) p.

(** The markets platform [p] contributes to the merge. *)
Definition contributed (query : string) (options : SearchOptions) (p : Platform)
    (c : Aggregator.MarketClient) : list UnifiedMarket :=
  if queried options p c then
    match Aggregator.search c query options with
    | Aggregator.Resolved ms => ms
    | Aggregator.Rejected _ => []
    end
  else [].

(** The status platform [p] ends with, from its own client alone. *)
Definition own_status (query : string) (options : SearchOptions) (p : Platform)
    (c : Aggregator.MarketClient) : PlatformStatus :=
  if queried options p c then
    match Aggregator.search c query options with
    | Aggregator.Resolved ms =>
        mkPlatformStatus st_success (Some (List.length ms)) None
    | Aggregator.Rejected e =>
        match Aggregator.errorMessage e with
        | EmptyString => mkPlatformStatus st_disabled None None
        | String _ _ as m => mkPlatformStatus st_error None (Some m)
        end
    end
  else mkPlatformStatus st_disabled None None.

(** The warning a status stands for. *)
Definition warning_of (p : Platform) (s : PlatformStatus) : list string :=
  match ps_status s, ps_error s with
  | st_error, Some e => [(platform_name p ++ ": " ++ e)%string]
  | _, _ => []
  end.

(** The sort key in force. *)
Definition key_of (options : SearchOptions) : SortKey :=
  match sortBy options with
  | Some k => k
  | None => by_volume
  end.

(** [options = { platform: 'betfair' }]. *)
Definition betfair_only : SearchOptions :=
  mkSearchOptions (Some betfair) None None None.

(* ================================================================== *)
(** * polymarket-client.ts: search *)
(* ================================================================== *)

Module PolymarketSearch.

(** An event of the search payload: the event record read by
    [normalizeMarketWithEvent], with the fields only [search] and
    [normalizeEventToMarket] read. *)
Record EventEntry := mkEntry {
  entry_event : Polymarket.PolymarketSearchEvent;
  entry_active : bool;
  entry_closed : bool;
  entry_markets : option (list Polymarket.PolymarketSearchMarket)
}.

(** A page of the dehydrated query state. *)
Record Page := mkPage {
  results : option (list EventEntry)
}.

(** What fetching and reading the search page came to. *)
Inductive SearchPage :=
| FetchThrew (e : Aggregator.Thrown)
    (**r [fetch], [response.text()] or [JSON.parse] threw *)
| ResponseNotOk (status : Z)
| NoNextData
| Pages (pages : list Page).

Definition normalizeEventToMarket (now : string) (entry : EventEntry)
  : UnifiedMarket :=
  let event := entry_event entry in
  mkUnifiedMarket polymarket
    (Polymarket.pe_id event)
    (Some (Polymarket.pe_id event))
    ("https://polymarket.com/event/" ++ Polymarket.slug event)%string
    (Polymarket.title event)
    None
    50
    (Js.or_num (Some (Polymarket.pe_volume event)) 0)
    (Some (Js.or_num (Some (Polymarket.pe_liquidity event)) 0))
    (if entry_closed entry then closed
     else if entry_active entry then open else unknown)
    (Some (Polymarket.pe_endDate event))
    now.

Section Search.

Variable JSON_parse : string -> option JsValue.

(** The body of [for (const event of events)]. *)
Definition marketOfEvent (now : string) (entry : EventEntry) : UnifiedMarket :=
  match entry_markets entry with
  | Some (primaryMarket :: _) =>
      Polymarket.normalizeMarketWithEvent JSON_parse now primaryMarket
                                          (entry_event entry)
  | _ => normalizeEventToMarket now entry
  end.

(** [for (const page of pages) if (page.results) events.push(...page.results)] *)
Definition eventsOfPages (pages : list Page) : list EventEntry :=
  flat_map (fun page => match results page with Some rs => rs | None => [] end)
           pages.

(** [options.maxResults || 50] *)
Definition limit (options : SearchOptions) : Z :=
  match maxResults options with
  | Some n => if (n =? 0)%Z then 50%Z else n
  | None => 50%Z
  end.

(** [search], from the page that was fetched. *)
Definition search (enabled : bool) (now : string) (page : SearchPage)
    (options : SearchOptions) : Aggregator.Settled :=
  if negb enabled then Aggregator.Resolved []
  else
    match page with
    | FetchThrew e => Aggregator.Rejected e
    | ResponseNotOk status =>
        Aggregator.Rejected
          (Aggregator.ErrorObject
             ("Polymarket search failed: "
              ++ NilZero.string_of_int (Z.to_int status))%string)
    | NoNextData =>
        Aggregator.Rejected
          (Aggregator.ErrorObject
             "Could not find __NEXT_DATA__ in Polymarket response")
    | Pages pages =>
        let markets := map (marketOfEvent now) (eventsOfPages pages) in
        Aggregator.Resolved
          (Js.slice0 (limit options)
             (Js.Array_sort (fun a b => volume b - volume a) markets))
    end.

(** The Polymarket client as the aggregator sees it; [fetched] stands for
    the network. *)
Definition client (enabled : bool) (now : string) (fetched : string -> SearchPage)
  : Aggregator.MarketClient :=
  Aggregator.mkClient enabled (fun query options => search enabled now (fetched query) options).

End Search.

End PolymarketSearch.

(** ** Concrete search payloads *)

Definition greenland_entry : PolymarketSearch.EventEntry :=
  PolymarketSearch.mkEntry greenland_event true false
    (Some [yes_no_market "0.22" "0.78"]).

(** An event listed without markets. *)
Definition bare_entry : PolymarketSearch.EventEntry :=
  PolymarketSearch.mkEntry
    (Polymarket.mkEvent "20001" "denmark" "Denmark referendum?" "2027-01-01" 10 900000)
    true false None.

(** [options = { maxResults: 1 }]. *)
Definition top_one : SearchOptions := mkSearchOptions None None (Some 1%Z) None.

Definition search_pages : PolymarketSearch.SearchPage :=
  PolymarketSearch.Pages
    [PolymarketSearch.mkPage (Some [greenland_entry; bare_entry]);
     PolymarketSearch.mkPage None].

(* ================================================================== *)
(** * betfair-client.ts: session and search *)
(* ================================================================== *)

Module BetfairSession.

(** The fields of [BetfairConfig] the session logic reads; a field may be
    missing from the configuration file. *)
Record BetfairConfig := mkConfig {
  cfg_appKey : option string;
  cfg_username : option string;
  cfg_password : option string;
  cfg_enabled : option bool
}.

(** The private state of a [BetfairClient]. *)
Record Client := mkClient {
  appKey : string;
  username : string;
  password : string;
  enabled : bool;
  sessionToken : option string;
  tokenExpiry : option Z;          (**r milliseconds since the epoch *)
  gbpToUsdRate : Q;
  lastError : option string
}.

(** [!!s] for a configuration string. *)
Definition present (s : option string) : bool :=
  match s with
  | Some t => Js.truthy_str t
  | None => false
  end.

(** The constructor. *)
Definition construct (config : BetfairConfig) (rate : Q) : Client :=
  mkClient
    (Js.or_str (cfg_appKey config) "")
    (Js.or_str (cfg_username config) "")
    (Js.or_str (cfg_password config) "")
    (match cfg_enabled config with Some false => false | _ => true end
     && present (cfg_appKey config)
     && present (cfg_username config)
     && present (cfg_password config))
    None None rate None.

(** What the SSO endpoint answered to a login request: a session token
    with [loginStatus] [SUCCESS], or anything else (another status, a
    response that is not OK or cannot be read, a network error).  The SSO
    URLs of the configuration are taken to be well formed, so that a
    login always settles with true or false. *)
Inductive LoginReply :=
| LoginSucceeded (token : string)
| LoginFailed.

(** A session lasts 15 minutes. *)
Definition SESSION_MS : Z := 15 * 60 * 1000.

(** [login], certificate or interactive; [timeNow] is [Date.now()] when the
    reply is handled. *)
Definition login (cl : Client) (reply : LoginReply) (timeNow : Z) : bool * Client :=
  if negb (Js.truthy_str (appKey cl)) || negb (Js.truthy_str (username cl))
     || negb (Js.truthy_str (password cl))
  then (false, cl)
  else
    match reply with
    | LoginSucceeded token =>
        (true, mkClient (appKey cl) (username cl) (password cl) (enabled cl)
                 (Some token) (Some (timeNow + SESSION_MS)%Z)
                 (gbpToUsdRate cl) (lastError cl))
    | LoginFailed => (false, cl)
    end.

(** [this.sessionToken && this.tokenExpiry && this.tokenExpiry > new Date()] *)
Definition sessionFresh (cl : Client) (timeNow : Z) : bool :=
  present (sessionToken cl)
  && match tokenExpiry cl with
     | Some expiry => (timeNow <? expiry)%Z
     | None => false
     end.

(** [ensureAuth]; [checked] is the clock when the token is checked,
    [loggedIn] the clock when a login reply is handled. *)
Definition ensureAuth (cl : Client) (checked : Z) (reply : LoginReply)
    (loggedIn : Z) : bool * Client :=
  if sessionFresh cl checked then (true, cl) else login cl reply loggedIn.

(** The decoded body of an error response: the [errorCode] found at
    [detail.APINGException.errorCode] (none when it is missing or no
    string), or the [SyntaxError] of [JSON.parse], by its message. *)
Inductive ErrorBody :=
| BodyCode (errorCode : option string)
| BodySyntaxError (message : string).

(** The answer to [listMarketCatalogue]. *)
Inductive CatalogueResponse :=
| CatalogueThrew (e : Aggregator.Thrown)
    (**r [fetch], [text()] or [json()] threw *)
| CatalogueNotOk (status : Z) (statusText : string) (body : ErrorBody)
| CatalogueOk (catalogues : list Betfair.BetfairMarketCatalogue).

(** The answer to [listMarketBook]. *)
Inductive BooksResponse :=
| BooksThrew (e : Aggregator.Thrown)
| BooksNotOk
| BooksOk (books : list Betfair.BetfairMarketBook).

(** [s.includes(pattern)], for a pattern that is not empty. *)
Definition includes (s pattern : string) : bool :=
  match String.index 0 pattern s with
  | Some _ => true
  | None => false
  end.

Definition setLastError (cl : Client) (message : string) : Client :=
  mkClient (appKey cl) (username cl) (password cl) (enabled cl)
           (sessionToken cl) (tokenExpiry cl) (gbpToUsdRate cl) (Some message).

(** [new Map(books.map(b => [b.marketId, b])).get(id)]: of several books
    with one id the last is kept. *)
Definition bookFor (books : list Betfair.BetfairMarketBook) (marketId : string)
  : option Betfair.BetfairMarketBook :=
  find (fun b => (Betfair.b_marketId b =? marketId)%string) (rev books).

Definition APP_KEY_REJECTED : string :=
  "App key rejected by Exchange API - needs activation at developer.betfair.com".

(** The branch [if (!catalogueResponse.ok)] of [search]: the error thrown
    and the client after it. *)
Definition catalogueFailure (cl : Client) (status : Z) (statusText : string)
    (body : ErrorBody) : Aggregator.Thrown * Client :=
  let apiError :=
    ("Betfair API error: " ++ NilZero.string_of_int (Z.to_int status)
     ++ " " ++ statusText)%string in
  match body with
  | BodyCode (Some code) =>
      if (code =? "INVALID_APP_KEY")%string
      then (Aggregator.ErrorObject APP_KEY_REJECTED, setLastError cl APP_KEY_REJECTED)
      else (Aggregator.ErrorObject apiError, setLastError cl apiError)
  | BodyCode None => (Aggregator.ErrorObject apiError, setLastError cl apiError)
  | BodySyntaxError message =>
      if includes message "App key rejected"
      then (Aggregator.ErrorObject message, cl)
      else (Aggregator.ErrorObject apiError, setLastError cl apiError)
  end.

(** [search]; [now] is [nowISO()], the responses stand for the network. *)
Definition search (cl : Client) (now : string)
    (checked : Z) (reply : LoginReply) (loggedIn : Z)
    (catalogueResponse : CatalogueResponse) (booksResponse : BooksResponse)
  : Aggregator.Settled * Client :=
  if negb (enabled cl) then (Aggregator.Resolved [], cl)
  else
    let '(authed, cl1) := ensureAuth cl checked reply loggedIn in
    if negb authed then
      (Aggregator.Rejected (Aggregator.ErrorObject "Betfair authentication failed"),
       setLastError cl1 "Betfair authentication failed")
    else
      match catalogueResponse with
      | CatalogueThrew e => (Aggregator.Rejected e, cl1)
      | CatalogueNotOk status statusText body =>
          let '(e, cl2) := catalogueFailure cl1 status statusText body in
          (Aggregator.Rejected e, cl2)
      | CatalogueOk [] => (Aggregator.Resolved [], cl1)
      | CatalogueOk catalogues =>
          match booksResponse with
          | BooksThrew e => (Aggregator.Rejected e, cl1)
          | BooksNotOk =>
              (Aggregator.Resolved
                 (map (fun c => Betfair.normalizeMarket (gbpToUsdRate cl1) now c
                                  (bookFor [] (Betfair.marketId c)))
                      catalogues), cl1)
          | BooksOk books =>
              (Aggregator.Resolved
                 (map (fun c => Betfair.normalizeMarket (gbpToUsdRate cl1) now c
                                  (bookFor books (Betfair.marketId c)))
                      catalogues), cl1)
          end
      end.

End BetfairSession.

(** ** Concrete Betfair clients *)

Definition full_config : BetfairSession.BetfairConfig :=
  BetfairSession.mkConfig (Some "key"%string) (Some "user"%string)
                          (Some "secret"%string) None.

Definition fresh_client : BetfairSession.Client :=
  BetfairSession.construct full_config (127 # 100).

(** The Betfair client as the aggregator sees it; the replies stand for
    the clock and the network at the time of the search. *)
Definition betfair_market_client (cl : BetfairSession.Client) (now : string)
    (checked : Z) (reply : BetfairSession.LoginReply) (loggedIn : Z)
    (catalogueResponse : string -> BetfairSession.CatalogueResponse)
    (booksResponse : string -> BetfairSession.BooksResponse)
  : Aggregator.MarketClient :=
  Aggregator.mkClient (BetfairSession.enabled cl)
    (fun query _ =>
       fst (BetfairSession.search cl now checked reply loggedIn
              (catalogueResponse query) (booksResponse query))).

(** [ob] is the last book of [books] that carries the market id [mid],
    and no book when none carries it. *)
Definition last_book_with (books : list Betfair.BetfairMarketBook) (mid : string)
    (ob : option Betfair.BetfairMarketBook) : Prop :=
  match ob with
  | Some b =>
      exists before after,
        books = before ++ b :: after /\
        Betfair.b_marketId b = mid /\
        Forall (fun b' => Betfair.b_marketId b' <> mid) after
  | None => Forall (fun b' => Betfair.b_marketId b' <> mid) books
  end.

(** A closed book for the market 1.234, and nothing matched. *)
Definition stale_book : Betfair.BetfairMarketBook :=
  Betfair.mkBook "1.234" "CLOSED" 0 0 [].

Definition two_catalogues : list Betfair.BetfairMarketCatalogue :=
  [winner_catalogue;
   Betfair.mkCatalogue "1.999" "Runner-up" None (Some 40) None None].

(* ================================================================== *)
(** * testAuth: betfair-client.ts and aggregator.ts *)
(* ================================================================== *)

Module AuthTest.

(** The answer to the [listEventTypes] probe.  An error code of the
    exchange is a string. *)
Inductive ProbeResponse :=
| ProbeThrew (e : Aggregator.Thrown)
    (**r [fetch] or [text()] threw *)
| ProbeNotOk (status : Z) (statusText errorText : string)
             (body : BetfairSession.ErrorBody)
| ProbeOk.

Definition DISABLED_MESSAGE : string :=
  "Betfair client is disabled (missing credentials)".

Definition LOGIN_FAILED_MESSAGE : string :=
  "Certificate login failed - check username/password and cert files".

Definition APP_KEY_MESSAGE : string :=
  "App key rejected by Exchange API. The key may need activation (can take 48h) or upgrade at developer.betfair.com".

Definition clearLastError (cl : BetfairSession.Client) : BetfairSession.Client :=
  BetfairSession.mkClient
    (BetfairSession.appKey cl) (BetfairSession.username cl)
    (BetfairSession.password cl) (BetfairSession.enabled cl)
    (BetfairSession.sessionToken cl) (BetfairSession.tokenExpiry cl)
    (BetfairSession.gbpToUsdRate cl) None.

(** The message for a probe response that is not OK. *)
Definition probeFailure (status : Z) (statusText errorText : string)
    (body : BetfairSession.ErrorBody) : string :=
  match body with
  | BetfairSession.BodyCode errorCode =>
      if match errorCode with
         | Some code => (code =? "INVALID_APP_KEY")%string
         | None => false
         end
      then APP_KEY_MESSAGE
      else ("Exchange API error: " ++ Js.or_str errorCode statusText
            ++ " - " ++ String.substring 0 200 errorText)%string
  | BetfairSession.BodySyntaxError _ =>
      ("Exchange API error: " ++ NilZero.string_of_int (Z.to_int status)
       ++ " " ++ statusText)%string
  end.

(** [BetfairClient.testAuth] *)
Definition betfairTestAuth (cl : BetfairSession.Client)
    (checked : Z) (reply : BetfairSession.LoginReply) (loggedIn : Z)
    (probe : ProbeResponse) : bool * BetfairSession.Client :=
  if negb (BetfairSession.enabled cl)
  then (false, BetfairSession.setLastError cl DISABLED_MESSAGE)
  else
    let '(authed, cl1) :=
      BetfairSession.ensureAuth (clearLastError cl) checked reply loggedIn in
    if negb authed
    then (false, BetfairSession.setLastError cl1 LOGIN_FAILED_MESSAGE)
    else
      match probe with
      | ProbeThrew e =>
          (false, BetfairSession.setLastError cl1
                    ("Unexpected error: " ++ Aggregator.errorMessage e)%string)
      | ProbeNotOk status statusText errorText body =>
          (false, BetfairSession.setLastError cl1
                    (probeFailure status statusText errorText body))
      | ProbeOk => (true, cl1)
      end.

(** One entry of the aggregator's [testAuth] result. *)
Record AuthStatus := mkAuthStatus {
  as_enabled : bool;
  authenticated : bool;
  as_error : option string
}.

Record AuthResults := mkAuthResults {
  a_polymarket : AuthStatus;
  a_betfair : AuthStatus
}.

(** [BettingMarketsAggregator.testAuth], with the Betfair client above;
    [BetfairClient.testAuth] catches what it runs into, so the
    aggregator's own [catch] is never entered. *)
Definition testAuth (polymarketEnabled : bool) (cl : BetfairSession.Client)
    (checked : Z) (reply : BetfairSession.LoginReply) (loggedIn : Z)
    (probe : ProbeResponse) : AuthResults :=
  let polymarketStatus := mkAuthStatus polymarketEnabled true None in
  if BetfairSession.enabled cl then
    let '(ok, cl1) := betfairTestAuth cl checked reply loggedIn probe in
    let error :=
      if ok then None
      else match BetfairSession.lastError cl1 with
           | Some err => if Js.truthy_str err then Some err else None
           | None => None
           end in
    mkAuthResults polymarketStatus (mkAuthStatus true ok error)
  else
    mkAuthResults polymarketStatus (mkAuthStatus false false None).

End AuthTest.

(* ================================================================== *)
(** * utils.ts: formatting and parsing *)
(* ================================================================== *)

(** Strings are sequences of code units; every character of the texts
    handled here is one code unit. *)

Module Format.

(** The decimal digits of a natural number. *)
Definition digitsOfN (n : N) : string := NilZero.string_of_uint (N.to_uint n).

(** [String(n)] for an integer [n]. *)
Definition stringOfInteger (n : Z) : string := NilZero.string_of_int (Z.to_int n).

(** [c.repeat(n)] *)
Fixpoint repeatChar (c : ascii) (n : nat) : string :=
  match n with
  | O => EmptyString
  | S k => String c (repeatChar c k)
  end.

(** [Number.prototype.toFixed(f)] below 10^21: the sign, then the integer
    [n] nearest to [|x| * 10^f] (the larger on a tie), written with at least
    [f + 1] digits and a point before the last [f]. *)
Definition toFixed (x : Q) (f : nat) : string :=
  let negative := Js.ltb x 0 in
  let n := Qfloor (Qabs x * inject_Z (10 ^ Z.of_nat f) + (1 # 2)) in
  let m := digitsOfN (Z.to_N n) in
  let k := String.length m in
  let padded := (repeatChar "0" (f + 1 - k)%nat ++ m)%string in
  let whole := (String.length padded - f)%nat in
  let body :=
    match f with
    | O => m
    | S _ => (String.substring 0%nat whole padded ++ "."
              ++ String.substring whole f padded)%string
    end in
  ((if negative then "-" else "") ++ body)%string.

Definition formatVolume (usd : Q) : string :=
  if Js.geb usd 1000000000 then ("$" ++ toFixed (usd / 1000000000) 1 ++ "b")%string
  else if Js.geb usd 1000000 then ("$" ++ toFixed (usd / 1000000) 1 ++ "m")%string
  else if Js.geb usd 1000 then ("$" ++ toFixed (usd / 1000) 1 ++ "k")%string
  else ("$" ++ toFixed usd 0)%string.

Definition formatOdds (percent : Q) : string :=
  (stringOfInteger (Qfloor (percent + (1 # 2))) ++ "%")%string.

(** [c.toUpperCase()] on a code unit: the letters a to z. *)
Definition upper (c : ascii) : ascii :=
  let n := nat_of_ascii c in
  if ((97 <=? n) && (n <=? 122))%nat then ascii_of_nat (n - 32)%nat else c.

(** [c.toLowerCase()] on a code unit: the letters A to Z. *)
Definition lower (c : ascii) : ascii :=
  let n := nat_of_ascii c in
  if ((65 <=? n) && (n <=? 90))%nat then ascii_of_nat (n + 32)%nat else c.

(** [str.charAt(0).toUpperCase() + str.slice(1)] *)
Definition capitalize (str : string) : string :=
  match str with
  | EmptyString => EmptyString
  | String c rest => String (upper c) rest
  end.

(** [s.padEnd(w)] *)
Definition padEnd (s : string) (w : nat) : string :=
  (s ++ repeatChar " " (w - String.length s)%nat)%string.

(** [Math.max(n, ...ns)] *)
Definition maxOf (n : nat) (ns : list nat) : nat := fold_left Nat.max ns n.

(** [str.replace(/[$,]/g, '')], the class being [drop]. *)
Fixpoint removeAll (drop : ascii -> bool) (s : string) : string :=
  match s with
  | EmptyString => EmptyString
  | String c t => if drop c then removeAll drop t else String c (removeAll drop t)
  end.

(** [str.toLowerCase()] *)
Fixpoint toLowerCase (s : string) : string :=
  match s with
  | EmptyString => EmptyString
  | String c t => String (lower c) (toLowerCase t)
  end.

(** The longest prefix of [s] in the class [keep], and the rest: what a
    greedy [[...]+] takes at the head of a text. *)
Fixpoint span (keep : ascii -> bool) (s : string) : string * string :=
  match s with
  | EmptyString => (EmptyString, EmptyString)
  | String c t =>
      if keep c then let '(a, b) := span keep t in (String c a, b)
      else (EmptyString, s)
  end.

(** The class [[$,]]. *)
Definition isDollarOrComma (c : ascii) : bool :=
  (Ascii.eqb c "$" || Ascii.eqb c ",")%bool.

(** The class [[\d.]]. *)
Definition isDigitOrDot (c : ascii) : bool :=
  match Polymarket.digit_of c with
  | Some _ => true
  | None => Ascii.eqb c "."
  end.

(** [parseVolumeString]; [None] is [NaN].  The pattern
    [/^([\d.]+)([kmb])?$/] matches when the text is a non-empty run of
    digits and points followed by nothing or by one of k, m, b. *)
Definition parseVolumeString (str : string) : option Q :=
  let cleaned := toLowerCase (removeAll isDollarOrComma str) in
  let '(number, suffix) := span isDigitOrDot cleaned in
  match number with
  | EmptyString => Some 0
  | String _ _ =>
      let value := Polymarket.parseFloat number in
      if String.eqb suffix "" then value
      else if String.eqb suffix "k" then option_map (fun v => v * 1000) value
      else if String.eqb suffix "m" then option_map (fun v => v * 1000000) value
      else if String.eqb suffix "b" then option_map (fun v => v * 1000000000) value
      else Some 0
  end.

End Format.

(** ** Vocabulary for the texts of the formatters *)

(** Every character of [s] is in the class [p]. *)
Fixpoint allChars (p : ascii -> bool) (s : string) : bool :=
  match s with
  | EmptyString => true
  | String c t => p c && allChars p t
  end.

Definition isDigit (c : ascii) : bool :=
  match Polymarket.digit_of c with Some _ => true | None => false end.

(** The number a run of decimal digits denotes, after the digits read
    so far denote [acc]. *)
Fixpoint decimalValue (s : string) (acc : Z) : Z :=
  match s with
  | EmptyString => acc
  | String c t =>
      match Polymarket.digit_of c with
      | Some d => decimalValue t (10 * acc + d)%Z
      | None => acc
      end
  end.

(** The same on the library's digit lists. *)
Fixpoint uintValue (d : Decimal.uint) (acc : Z) : Z :=
  match d with
  | Decimal.Nil => acc
  | Decimal.D0 l => uintValue l (10 * acc + 0)%Z
  | Decimal.D1 l => uintValue l (10 * acc + 1)%Z
  | Decimal.D2 l => uintValue l (10 * acc + 2)%Z
  | Decimal.D3 l => uintValue l (10 * acc + 3)%Z
  | Decimal.D4 l => uintValue l (10 * acc + 4)%Z
  | Decimal.D5 l => uintValue l (10 * acc + 5)%Z
  | Decimal.D6 l => uintValue l (10 * acc + 6)%Z
  | Decimal.D7 l => uintValue l (10 * acc + 7)%Z
  | Decimal.D8 l => uintValue l (10 * acc + 8)%Z
  | Decimal.D9 l => uintValue l (10 * acc + 9)%Z
  end.

(** Half of the last digit [formatVolume] shows of [usd]. *)
Definition halfStep (usd : Q) : Q :=
  if Js.geb usd 1000000000 then 50000000
  else if Js.geb usd 1000000 then 50000
  else if Js.geb usd 1000 then 50
  else 1 # 2.

(** ** Vocabulary for the order of platforms *)

(** The market comes from platform [p]. *)
Definition on_platform (p : Platform) (m : UnifiedMarket) : bool :=
  Aggregator.platform_eqb p (platform m).

(* ================================================================== *)
(** * The arithmetic of the engine: binary64 *)
(* ================================================================== *)

(** The engine computes in IEEE 754 binary64: the result of every
    arithmetic operation is the double nearest to the exact result, the one
    with an even significand of two that are as near.  [double] is that
    rounding on the rationals, with the gradual underflow below 2^-1022.
    Overflow to an infinity (from 2^1024 on) is not modelled: the statements
    over this module bound their inputs, or their intermediate results are
    bounded by the code itself.  The functions of [utils.ts] and the loop of
    [normalizeMarket] are given again with this rounding at every operation;
    [Math.round], [Math.abs] and the comparisons are exact on doubles. *)

Module Binary64.

(** [floor (log2 x)] for a positive [x]. *)
Definition exponent (x : Q) : Z :=
  let k := (Z.log2 (Qnum x) - Z.log2 (Z.pos (Qden x)))%Z in
  if Qle_bool (2 ^ k) x then k else (k - 1)%Z.

(** The nearest integer, the even one of two that are as near. *)
Definition nearestEven (y : Q) : Z :=
  let f := Qfloor y in
  match Qcompare (y - inject_Z f) (1 # 2) with
  | Lt => f
  | Gt => (f + 1)%Z
  | Eq => if Z.even f then f else (f + 1)%Z
  end.

(** The spacing of the doubles around [x]: 53 significant bits, and no
    finer than 2^-1074. *)
Definition ulp (x : Q) : Q :=
  2 ^ (Z.max (exponent (Qabs x)) (-1022) - 52).

(** The double nearest to [x]. *)
Definition double (x : Q) : Q :=
  if Qeq_bool x 0 then 0
  else inject_Z (nearestEven (x / ulp x)) * ulp x.

(** [a + b], [a - b], [a * b], [a / b] *)
Definition add (a b : Q) : Q := double (a + b).
Definition sub (a b : Q) : Q := double (a - b).
Definition mul (a b : Q) : Q := double (a * b).
Definition div (a b : Q) : Q := double (a / b).

(** ** utils.ts *)

(** [Math.round(price * 100 * 100) / 100] *)
Definition polymarketOddsToPercent (price : Q) : Q :=
  div (Js.Math_round (mul (mul price 100) 100)) 100.

(** [if (decimalOdds <= 1) return 100;
     return Math.round((1 / decimalOdds) * 100 * 100) / 100] *)
Definition betfairOddsToPercent (decimalOdds : Q) : Q :=
  if Qle_bool decimalOdds 1 then 100
  else div (Js.Math_round (mul (mul (div 1 decimalOdds) 100) 100)) 100.

(** [Math.round(gbp * rate * 100) / 100] *)
Definition gbpToUsd (gbp rate : Q) : Q :=
  div (Js.Math_round (mul (mul gbp rate) 100)) 100.

(** ** betfair-client.ts: the loop over the runners *)

Definition layPrice (runner : Betfair.BetfairRunnerBook) : option Q :=
  match Betfair.rawLayPrice runner with
  | Some p =>
      if Js.truthy p && Js.geb (betfairOddsToPercent p) Betfair.MIN_LAY_PERCENT
      then Some p else None
  | None => None
  end.

Definition impliedOdds (p : option Q) : option Q :=
  match p with
  | Some q => if Js.truthy q then Some (betfairOddsToPercent q) else None
  | None => None
  end.

Definition normalizeRunner (catalogue : Betfair.BetfairMarketCatalogue)
    (runner : Betfair.BetfairRunnerBook) : Outcome :=
  let backSize := option_map Betfair.size (Betfair.backEntry runner) in
  let laySize := option_map Betfair.size (Betfair.layEntry runner) in
  let thinLiquidity :=
    match backSize with
    | Some bs => Js.ltb bs Betfair.MIN_OFFER_SIZE && negb (Js.truthy_opt laySize)
    | None => false
    end in
  let backOdds := impliedOdds (Betfair.backPrice runner) in
  let layOdds := impliedOdds (layPrice runner) in
  let backOnly :=
    match backOdds, layOdds with
    | Some _, None => true
    | _, _ => false
    end in
  let '(odds, spread) :=
    match backOdds, layOdds with
    | Some b, Some l =>
        (div (Js.Math_round (mul (div (add b l) 2) 100)) 100,
         Some (div (Js.Math_round (mul (Js.Math_abs (sub b l)) 100)) 100))
    | _, _ => (0, None)
    end in
  mkOutcome (JStr (Betfair.outcomeName catalogue runner))
            odds backOdds layOdds spread backSize laySize
            (Some thinLiquidity) (Some backOnly).

(** ** utils.ts: volumes as text *)

Definition formatVolume (usd : Q) : string :=
  if Js.geb usd 1000000000
  then ("$" ++ Format.toFixed (div usd 1000000000) 1 ++ "b")%string
  else if Js.geb usd 1000000
  then ("$" ++ Format.toFixed (div usd 1000000) 1 ++ "m")%string
  else if Js.geb usd 1000
  then ("$" ++ Format.toFixed (div usd 1000) 1 ++ "k")%string
  else ("$" ++ Format.toFixed usd 0)%string.

(** [parseFloat]: the double nearest to the decimal literal read. *)
Definition parseFloat (s : string) : option Q :=
  option_map double (Polymarket.parseFloat s).

Definition parseVolumeString (str : string) : option Q :=
  let cleaned := Format.toLowerCase (Format.removeAll Format.isDollarOrComma str) in
  let '(number, suffix) := Format.span Format.isDigitOrDot cleaned in
  match number with
  | EmptyString => Some 0
  | String _ _ =>
      let value := parseFloat number in
      if String.eqb suffix "" then value
      else if String.eqb suffix "k" then option_map (fun v => mul v 1000) value
      else if String.eqb suffix "m" then option_map (fun v => mul v 1000000) value
      else if String.eqb suffix "b" then option_map (fun v => mul v 1000000000) value
      else Some 0
  end.

(** ** polymarket-client.ts: the outcomes of a market *)

Section Normalizer.

Variable JSON_parse : string -> option JsValue.

(** [parseFloat(String(v))] *)
Definition parseFloatString (v : JsValue) : option Q :=
  option_map double (Polymarket.parseFloatString v).

(** [parseFloat(String(outcomePrices[i])) || 0] *)
Definition priceAt (outcomePrices : JsValue) (i : nat) : Q :=
  Js.or_num
    (match Polymarket.js_index outcomePrices i with
     | Some v => parseFloatString v
     | None => None
     end) 0.

Definition mkPolyOutcome (outcomePrices : JsValue) (nm : JsValue) (i : nat)
  : Outcome :=
  mkOutcome nm (polymarketOddsToPercent (priceAt outcomePrices i))
            None None None None None None None.

Definition tryOutcomes (market : Polymarket.PolymarketSearchMarket)
  : Polymarket.Completion (option (list Outcome)) :=
  Polymarket.bind (Polymarket.decode JSON_parse (Polymarket.pm_outcomes market))
    (fun outcomeNames =>
  Polymarket.bind (Polymarket.decode JSON_parse (Polymarket.outcomePrices market))
    (fun prices =>
  Polymarket.bind (Polymarket.js_length outcomeNames) (fun ln =>
  if Polymarket.positive ln then
    Polymarket.bind (Polymarket.js_length prices) (fun lp =>
    if Polymarket.positive lp then
      match outcomeNames with
      | JArr l => Polymarket.Normal
                    (Some (Polymarket.mapi (mkPolyOutcome prices) 0%nat l))
      | _ => Polymarket.Throw
      end
    else Polymarket.Normal None)
  else Polymarket.Normal None))).

Definition normalizeMarketWithEvent (now : string)
    (market : Polymarket.PolymarketSearchMarket)
    (event : Polymarket.PolymarketSearchEvent)
  : UnifiedMarket :=
  let '(outcomes, primaryOdds) :=
    match tryOutcomes market with
    | Polymarket.Normal (Some os) => (Some os, Polymarket.firstOdds os)
    | Polymarket.Normal None => (None, 50)
    | Polymarket.Throw => (None, 50)
    end in
  let volume :=
    Js.or_num (Js.or_opt (Some (Polymarket.pe_volume event))
                         (parseFloat (Polymarket.pm_volume market))) 0 in
  let liquidity :=
    Js.or_num (Js.or_opt (Some (Polymarket.pe_liquidity event))
                         (parseFloat (Polymarket.pm_liquidity market))) 0 in
  mkUnifiedMarket polymarket
    (Polymarket.pm_id market)
    (Some (Polymarket.pe_id event))
    ("https://polymarket.com/event/" ++ Polymarket.slug event)%string
    (Js.or_str (Some (Polymarket.title event)) (Polymarket.pm_question market))
    outcomes
    primaryOdds
    (Utils.usdcToUsd volume)
    (Some (Utils.usdcToUsd liquidity))
    (if Polymarket.pm_closed market then closed
     else if Polymarket.pm_active market && Polymarket.acceptingOrders market then open
     else unknown)
    (Some (Js.or_str (Some (Polymarket.pm_endDate market)) (Polymarket.pe_endDate event)))
    now.

End Normalizer.

End Binary64.

(* ================================================================== *)
(** * utils.ts: the table *)
(* ================================================================== *)

Module Table.

Definition headers : list string := ["Platform"; "Question"; "Odds"; "Volume"]%string.

(** The cells of one market. *)
Definition row (m : UnifiedMarket) : list string :=
  [("**" ++ Format.capitalize (platform_name (platform m)) ++ "**")%string;
   question m;
   ("**" ++ Format.formatOdds (m_odds m) ++ "**")%string;
   Binary64.formatVolume (volume m)].

(** [r[i]], [undefined] past the end being out of the question for rows
    of four cells. *)
Definition cell (r : list string) (i : nat) : string := nth i r EmptyString.

(** [headers.map((h, i) => Math.max(h.length, ...rows.map(r => r[i].length)))] *)
Definition columnWidths (rows : list (list string)) : list nat :=
  Polymarket.mapi
    (fun h i => Format.maxOf (String.length h)
                  (map (fun r => String.length (cell r i)) rows))
    0%nat headers.

(** [cells.map((c, i) => c.padEnd(widths[i]))] *)
Definition padCells (cells : list string) (widths : list nat) : list string :=
  Polymarket.mapi (fun c i => Format.padEnd c (nth i widths 0%nat)) 0%nat cells.

(** ['| ' + cells.map(...).join(' | ') + ' |'] *)
Definition tableRow (cells : list string) (widths : list nat) : string :=
  ("| " ++ String.concat " | " (padCells cells widths) ++ " |")%string.

(** ['|' + widths.map(w => '-'.repeat(w + 2)).join('|') + '|'] *)
Definition separatorRow (widths : list nat) : string :=
  ("|" ++ String.concat "|" (map (fun w => Format.repeatChar "-" (w + 2)%nat) widths)
   ++ "|")%string.

(** [[headerRow, separatorRow, ...dataRows]], from the rows of cells. *)
Definition tableLines (rows : list (list string)) : list string :=
  let widths := columnWidths rows in
  tableRow headers widths :: separatorRow widths
  :: map (fun r => tableRow r widths) rows.

Definition newline : string := String (ascii_of_nat 10%nat) EmptyString.

Definition formatMarkdownTable (markets : list UnifiedMarket) : string :=
  match markets with
  | [] => "No markets found."%string
  | _ :: _ => String.concat newline (tableLines (map row markets))
  end.

End Table.

(** ** Vocabulary for the lines of a text *)

(** [text.split('\n')] *)
Fixpoint splitLines (s : string) : list string :=
  match s with
  | EmptyString => [EmptyString]
  | String c t =>
      if Ascii.eqb c (ascii_of_nat 10%nat) then EmptyString :: splitLines t
      else match splitLines t with
           | l :: ls => String c l :: ls
           | [] => [String c EmptyString]
           end
  end.

(** No character of [s] is a line feed. *)
Definition noNewline (s : string) : bool :=
  allChars (fun c => negb (Ascii.eqb c (ascii_of_nat 10%nat))) s.

(** ** Vocabulary for the binary64 reading *)

(** The number literal [q] of a program text: the double nearest to it. *)
Definition literal (q : Q) : Q := Binary64.double q.

(** [r] is the double nearest to a whole number of hundredths that lies
    within [margin] of half a hundredth from [x]: [x] rounded to two
    decimal places, except that an [x] within [margin] of a tie may go
    either way. *)
Definition rounded2_within (margin x r : Q) : Prop :=
  exists n : Z,
    r == Binary64.double (inject_Z n / 100) /\
    Qabs (inject_Z n / 100 - x) <= (1 # 200) + margin.

(** The margin that covers the rounding of the operations before
    [Math.round] in the conversions: 10^-12. *)
Definition tie_margin : Q := 1 # 1000000000000.

(** A quote passes the lay-percentage filter, as the engine computes it. *)
Definition passes_lay_percent64 (e : Betfair.BetfairPriceSize) : Prop :=
  Betfair.MIN_LAY_PERCENT <= Binary64.betfairOddsToPercent (Betfair.price e).

Definition lay_survives64 (r : Betfair.BetfairRunnerBook)
    (e : Betfair.BetfairPriceSize) : Prop :=
  Betfair.layEntry r = Some e /\ passes_size e /\ passes_lay_percent64 e.

(** ** Concrete inputs in binary64 *)

(** Back 5 and lay 4.166666666666667: implied probabilities 20 and 24. *)
Definition runner64_20_24 : Betfair.BetfairRunnerBook :=
  runner_with (Some (quote 5 10))
              (Some (quote (literal (4166666666666667 # 1000000000000000)) 10)).

(** Back 1.05 and lay 1.1: implied probabilities 95.24 and 90.91. *)
Definition runner64_tie : Betfair.BetfairRunnerBook :=
  runner_with (Some (quote (literal (105 # 100)) 10))
              (Some (quote (literal (11 # 10)) 10)).

(* ================================================================== *)
(** * The model on the examples of the sources *)
(* ================================================================== *)

(** [0.22 -> 22%], [100 GBP -> 127 USD], [Math.round(-2.5) = -2]. *)
Example conversions_on_examples :
  Utils.polymarketOddsToPercent (22 # 100) == 22 /\
  Utils.betfairOddsToPercent 1 == 100 /\
  Utils.betfairOddsToPercent 5 == 20 /\
  Utils.gbpToUsd 100 (127 # 100) == 127 /\
  Js.Math_round (- (5 # 2)) == -2.
Proof. repeat split. Qed.

Example parseFloat_on_examples :
  option_map Qred (Polymarket.parseFloat "0.22") = Some (11 # 50) /\
  option_map Qred (Polymarket.parseFloat " -12.5e-1 USD") = Some (- (5 # 4)) /\
  option_map Qred (Polymarket.parseFloat ".5") = Some (1 # 2) /\
  option_map Qred (Polymarket.parseFloat "1e") = Some 1 /\
  Polymarket.parseFloat "." = None /\
  Polymarket.parseFloat "" = None /\
  Polymarket.parseFloat "undefined" = None.
Proof. repeat split. Qed.

(** The sort is stable: markets of equal volume keep their order. *)
Example sortMarkets_on_example :
  map (fun m => (platform m, volume m))
      (Utils.sortMarkets
         [market_with_volume polymarket 5; market_with_volume betfair 7;
          market_with_volume betfair 5] by_volume)
  = [(betfair, 7); (polymarket, 5); (betfair, 5)] /\
  map (fun m => (platform m, volume m))
      (Utils.sortMarkets
         [market_with_volume polymarket 5; market_with_volume betfair 7;
          market_with_volume betfair 5] by_platform)
  = [(betfair, 7); (betfair, 5); (polymarket, 5)].
Proof. split; reflexivity. Qed.

(** A book with a back-only runner and a two-sided runner at 20 and 24:
    the two-sided runner comes first and gives the market its odds. *)
Example normalizeMarket_on_example :
  option_map (map (fun o => (Qred (odds o), backOnly o)))
    (outcomes (Betfair.normalizeMarket (127 # 100) "now" winner_catalogue
                 (Some two_runner_book)))
  = Some [(22, Some false); (0, Some true)] /\
  m_odds (Betfair.normalizeMarket (127 # 100) "now" winner_catalogue
            (Some two_runner_book)) == 22 /\
  volume (Betfair.normalizeMarket (127 # 100) "now" winner_catalogue
            (Some two_runner_book)) == 1270.
Proof. repeat split. Qed.

(* ================================================================== *)
(** * Rounding *)
(* ================================================================== *)

Lemma Math_round_bounds (x : Q) :
  x - (1 # 2) < Js.Math_round x /\ Js.Math_round x <= x + (1 # 2).
Proof.
  unfold Js.Math_round. split.
  - pose proof (Qlt_floor (x + (1 # 2))) as H.
    rewrite inject_Z_plus in H. change (inject_Z 1) with 1 in H. lra.
  - apply Qfloor_le.
Qed.

Lemma round_hundredths (x : Q) : rounded2 x (Js.Math_round (x * 100) / 100).
Proof.
  exists (Qfloor (x * 100 + (1 # 2))). split; [reflexivity|].
  apply (Math_round_bounds (x * 100)).
Qed.

Lemma rounded2_compat (x y r : Q) : x == y -> rounded2 x r -> rounded2 y r.
Proof.
  intros E (n & Hr & Hlo & Hhi). exists n. rewrite <- E. auto.
Qed.


(** ** Comparisons and truthiness *)

Lemma geb_le (a b : Q) : Js.geb a b = true <-> b <= a.
Proof. apply Qle_bool_iff. Qed.

Lemma ltb_lt_iff (a b : Q) : Js.ltb a b = true <-> a < b.
Proof.
  unfold Js.ltb. rewrite negb_true_iff. destruct (Qle_bool b a) eqn:E.
  - apply Qle_bool_iff in E. split; [discriminate | lra].
  - split; [intros _|reflexivity].
    apply Qnot_le_lt. intros H. apply Qle_bool_iff in H. congruence.
Qed.

Lemma truthy_nonzero (q : Q) : Js.truthy q = true <-> ~ q == 0.
Proof.
  unfold Js.truthy. rewrite negb_true_iff.
  destruct (Qeq_bool q 0) eqn:E.
  - apply Qeq_bool_iff in E. intuition congruence.
  - apply Qeq_bool_neq in E. intuition.
Qed.

(* ================================================================== *)
(** * [Array.prototype.sort] under a consistent comparator *)
(* ================================================================== *)

Section SortFacts.

Context {A : Type} (cmp : A -> A -> Q).

(** A consistent comparator: total and transitive. *)
Hypothesis cmp_total : forall x y, Js.before cmp x y \/ Js.before cmp y x.
Hypothesis cmp_trans :
  forall x y z, Js.before cmp x y -> Js.before cmp y z -> Js.before cmp x z.

Lemma insert_permutation (x : A) (l : list A) :
  Permutation (x :: l) (Js.insert cmp x l).
Proof.
  induction l as [|y l IH]; simpl; [reflexivity|].
  destruct (Qle_bool (cmp x y) 0); [reflexivity|].
  rewrite perm_swap. now apply perm_skip.
Qed.

Lemma Array_sort_permutation (l : list A) :
  Permutation l (Js.Array_sort cmp l).
Proof.
  induction l as [|x l IH]; simpl; [constructor|].
  rewrite <- insert_permutation. now apply perm_skip.
Qed.

Lemma insert_HdRel (a x : A) (l : list A) :
  Js.before cmp a x -> HdRel (Js.before cmp) a l ->
  HdRel (Js.before cmp) a (Js.insert cmp x l).
Proof.
  intros Hax Hal. destruct l as [|y l]; simpl.
  - now constructor.
  - destruct (Qle_bool (cmp x y) 0); constructor; trivial.
    now inversion Hal.
Qed.

Lemma insert_sorted (x : A) (l : list A) :
  Sorted (Js.before cmp) l -> Sorted (Js.before cmp) (Js.insert cmp x l).
Proof.
  induction 1 as [|y l Hs IH Hhd]; simpl.
  - repeat constructor.
  - destruct (Qle_bool (cmp x y) 0) eqn:E.
    + apply Qle_bool_iff in E. repeat constructor; trivial.
    + assert (Js.before cmp y x) as Hyx.
      { destruct (cmp_total x y) as [H|H]; trivial.
        apply Qle_bool_iff in H. congruence. }
      constructor; [exact IH | now apply insert_HdRel].
Qed.

Lemma Array_sort_sorted (l : list A) :
  Sorted (Js.before cmp) (Js.Array_sort cmp l).
Proof.
  induction l; simpl; [constructor | now apply insert_sorted].
Qed.

Lemma Array_sort_strongly_sorted (l : list A) :
  StronglySorted (Js.before cmp) (Js.Array_sort cmp l).
Proof.
  apply Sorted_StronglySorted; [|apply Array_sort_sorted].
  intros x y z. apply cmp_trans.
Qed.

(** A list already in order is left as it is. *)
Lemma Array_sort_fixed (l : list A) :
  Sorted (Js.before cmp) l -> Js.Array_sort cmp l = l.
Proof.
  induction 1 as [|x l Hs IH Hhd]; simpl; [reflexivity|].
  rewrite IH. destruct Hhd as [|y l' Hxy]; simpl; [reflexivity|].
  apply Qle_bool_iff in Hxy. now rewrite Hxy.
Qed.

Lemma Array_sort_idempotent (l : list A) :
  Js.Array_sort cmp (Js.Array_sort cmp l) = Js.Array_sort cmp l.
Proof. apply Array_sort_fixed, Array_sort_sorted. Qed.

(** ** The model is the stable sort, whatever the algorithm *)

Lemma tie_iff (x y : A) :
  Js.tie cmp x y = true <-> Js.before cmp x y /\ Js.before cmp y x.
Proof.
  unfold Js.tie, Js.before. rewrite andb_true_iff, !Qle_bool_iff. tauto.
Qed.

Lemma tie_refl (x : A) : Js.tie cmp x x = true.
Proof. apply tie_iff. destruct (cmp_total x x); auto. Qed.

Lemma insert_keeps_ties (z x : A) (l : list A) :
  filter (Js.tie cmp z) (Js.insert cmp x l) = filter (Js.tie cmp z) (x :: l).
Proof.
  induction l as [|y l IH]; [reflexivity|].
  cbn [Js.insert]. destruct (Qle_bool (cmp x y) 0) eqn:E; [reflexivity|].
  cbn [filter] in *. rewrite IH.
  destruct (Js.tie cmp z y) eqn:Ty, (Js.tie cmp z x) eqn:Tx; try reflexivity.
  apply tie_iff in Ty as (Hzy & Hyz), Tx as (Hzx & Hxz).
  assert (Js.before cmp x y) as Hxy by (eapply cmp_trans; eauto).
  apply Qle_bool_iff in Hxy. congruence.
Qed.

Lemma Array_sort_stable (l : list A) :
  stable_sort_of cmp l (Js.Array_sort cmp l).
Proof.
  split; [apply Array_sort_sorted|].
  intros z. induction l as [|x l IH]; [reflexivity|].
  cbn [Js.Array_sort]. rewrite insert_keeps_ties.
  cbn [filter]. now rewrite IH.
Qed.

(** Two lists in order whose classes of ties agree are the same list. *)
Lemma sorted_ties_unique (l1 l2 : list A) :
  Sorted (Js.before cmp) l1 -> Sorted (Js.before cmp) l2 ->
  (forall x, filter (Js.tie cmp x) l1 = filter (Js.tie cmp x) l2) ->
  l1 = l2.
Proof.
  intros S1. revert l2.
  induction S1 as [|a t1 S1 IH H1]; intros l2 S2 Hf.
  - destruct l2 as [|b t2]; [reflexivity|].
    specialize (Hf b). cbn [filter] in Hf. rewrite tie_refl in Hf. discriminate.
  - destruct l2 as [|b t2].
    { specialize (Hf a). cbn [filter] in Hf. rewrite tie_refl in Hf. discriminate. }
    apply Sorted_StronglySorted in S2; [|intros x y z; apply cmp_trans].
    assert (StronglySorted (Js.before cmp) (a :: t1)) as SS1.
    { apply Sorted_StronglySorted; [intros x y z; apply cmp_trans|].
      now constructor. }
    inversion SS1 as [|? ? _ A1]; subst. inversion S2 as [|? ? S2' A2]; subst.
    assert (In a (b :: t2)) as Ia.
    { pose proof (Hf a) as H. cbn [filter] in H. rewrite tie_refl in H.
      assert (In a (filter (Js.tie cmp a) (b :: t2))) as I
        by (cbn [filter]; rewrite <- H; now left).
      now apply filter_In in I. }
    assert (In b (a :: t1)) as Ib.
    { pose proof (Hf b) as H. cbn [filter] in H. rewrite (tie_refl b) in H.
      assert (In b (filter (Js.tie cmp b) (a :: t1))) as I
        by (cbn [filter]; rewrite H; now left).
      now apply filter_In in I. }
    assert (Js.before cmp b a) as Hba.
    { destruct Ia as [->|Ia]; [destruct (cmp_total a a); trivial|].
      rewrite Forall_forall in A2. now apply A2. }
    assert (Js.before cmp a b) as Hab.
    { destruct Ib as [->|Ib]; [destruct (cmp_total b b); trivial|].
      rewrite Forall_forall in A1. now apply A1. }
    assert (a = b) as ->.
    { pose proof (Hf a) as H. cbn [filter] in H. rewrite tie_refl in H.
      assert (Js.tie cmp a b = true) as T by (apply tie_iff; auto).
      rewrite T in H. congruence. }
    f_equal. apply IH; [now apply StronglySorted_Sorted|].
    intros x. specialize (Hf x). cbn [filter] in Hf.
    destruct (Js.tie cmp x b); congruence.
Qed.

(** Every stable sort of [l] is the list [Array_sort] computes. *)
Lemma stable_sort_unique (l l' : list A) :
  stable_sort_of cmp l l' -> l' = Js.Array_sort cmp l.
Proof.
  intros (S & F). destruct (Array_sort_stable l) as (S' & F').
  apply sorted_ties_unique; trivial.
  intros x. now rewrite F, F'.
Qed.

End SortFacts.

(* ================================================================== *)
(** * utils.ts: sorting and filtering *)
(* ================================================================== *)

Lemma compareMarkets_ordered (k : SortKey) (a b : UnifiedMarket) :
  Utils.compareMarkets k a b <= 0 <-> ordered k a b.
Proof.
  destruct k; simpl.
  - split; intros; lra.
  - split; intros; lra.
  - destruct (platform a), (platform b); vm_compute; intuition congruence.
Qed.

Lemma compareMarkets_total (k : SortKey) (a b : UnifiedMarket) :
  Utils.compareMarkets k a b <= 0 \/ Utils.compareMarkets k b a <= 0.
Proof.
  destruct k; simpl.
  - lra.
  - lra.
  - destruct (platform a), (platform b); vm_compute; intuition congruence.
Qed.

Lemma compareMarkets_trans (k : SortKey) (a b c : UnifiedMarket) :
  Utils.compareMarkets k a b <= 0 -> Utils.compareMarkets k b c <= 0 ->
  Utils.compareMarkets k a c <= 0.
Proof.
  destruct k; simpl.
  - lra.
  - lra.
  - destruct (platform a), (platform b), (platform c); vm_compute;
      intuition congruence.
Qed.

(** C8.  Whatever the list and the key, [sortMarkets] returns the same
    markets in the order of the key: from the largest [volume] down, from
    the largest [odds] down, or by [platform] name upwards; sorting the
    result again with the same key changes nothing. *)
Theorem sortMarkets_sorted_idempotent (l : list UnifiedMarket) (k : SortKey) :
  Permutation l (Utils.sortMarkets l k) /\
  StronglySorted (ordered k) (Utils.sortMarkets l k) /\
  Utils.sortMarkets (Utils.sortMarkets l k) k = Utils.sortMarkets l k.
Proof.
  unfold Utils.sortMarkets. split; [|split].
  - apply Array_sort_permutation.
  - pose proof (Array_sort_strongly_sorted (Utils.compareMarkets k)
                  (compareMarkets_total k) (compareMarkets_trans k) l) as H.
    induction H as [|x xs Hs IH Hall]; constructor; trivial.
    eapply Forall_impl; [|exact Hall].
    intros y. apply compareMarkets_ordered.
  - apply Array_sort_idempotent. apply compareMarkets_total.
Qed.

Lemma filter_Subseq {A : Type} (f : A -> bool) (l : list A) :
  Subseq (filter f l) l.
Proof.
  induction l as [|x l IH]; simpl; [constructor|].
  destruct (f x); now constructor.
Qed.

Lemma Subseq_filter {A : Type} (f : A -> bool) (l' l : list A) :
  Subseq l' l -> Forall (fun x => f x = true) l' -> Subseq l' (filter f l).
Proof.
  induction 1 as [|x l1 l2 Hs IH|x l1 l2 Hs IH]; intros Hall; simpl.
  - constructor.
  - destruct (f x); [apply Subseq_skip|]; auto.
  - inversion Hall as [|? ? Hx Hrest]; subst. rewrite Hx.
    apply Subseq_keep. auto.
Qed.

(** C9, as stated, fails: a market with a negative volume is dropped by
    the threshold 0, so the list does not come back unchanged. *)
Lemma filterByMinVolume_zero_drops_negative :
  Utils.filterByMinVolume [market_with_volume polymarket (-1)] 0 = [] /\
  Utils.filterByMinVolume [market_with_volume polymarket (-1)] 0
    <> [market_with_volume polymarket (-1)].
Proof. split; [reflexivity | discriminate]. Qed.

(** C9, amended.  [filterByMinVolume list v] is exactly the sublist of the
    markets with [volume >= v]: it is a subsequence of [list], all its
    markets reach [v], and it contains every subsequence of [list] whose
    markets all reach [v].  With threshold 0 the list comes back unchanged
    when no volume is negative. *)
Theorem filterByMinVolume_exact (l : list UnifiedMarket) (v : Q) :
  Subseq (Utils.filterByMinVolume l v) l /\
  Forall (fun m => v <= volume m) (Utils.filterByMinVolume l v) /\
  (forall l', Subseq l' l -> Forall (fun m => v <= volume m) l' ->
              Subseq l' (Utils.filterByMinVolume l v)) /\
  (Forall (fun m => 0 <= volume m) l -> Utils.filterByMinVolume l 0 = l).
Proof.
  unfold Utils.filterByMinVolume. repeat split.
  - apply filter_Subseq.
  - apply Forall_forall. intros m Hm. apply filter_In in Hm.
    now apply geb_le.
  - intros l' Hs Hall. apply Subseq_filter; trivial.
    eapply Forall_impl; [|exact Hall]. intros m. apply geb_le.
  - intros Hall. induction Hall as [|m l Hm Hall IH]; simpl; [reflexivity|].
    apply geb_le in Hm. rewrite Hm, IH. reflexivity.
Qed.

Lemma filterByMinVolume_exact_witness :
  Subseq [market_with_volume betfair 5] (Utils.filterByMinVolume two_markets 3) /\
  Utils.filterByMinVolume two_markets 0 = two_markets.
Proof.
  destruct (filterByMinVolume_exact two_markets 3) as (_ & _ & Hmax & _).
  destruct (filterByMinVolume_exact two_markets 0) as (_ & _ & _ & Hid).
  split.
  - apply Hmax.
    + apply Subseq_keep, Subseq_skip, Subseq_nil.
    + repeat constructor. unfold Qle; simpl; lia.
  - apply Hid. repeat constructor; unfold Qle; simpl; lia.
Defined.

(* ================================================================== *)
(** * betfair-client.ts: one runner *)
(* ================================================================== *)

Section Runner.

Import Betfair.

Variable catalogue : BetfairMarketCatalogue.
Variable runner : BetfairRunnerBook.

Lemma runner_backOdds :
  backOdds (normalizeRunner catalogue runner) = impliedOdds (backPrice runner).
Proof.
  unfold normalizeRunner.
  destruct (impliedOdds (backPrice runner)), (impliedOdds (layPrice runner));
    reflexivity.
Qed.

Lemma runner_layOdds :
  layOdds (normalizeRunner catalogue runner) = impliedOdds (layPrice runner).
Proof.
  unfold normalizeRunner.
  destruct (impliedOdds (backPrice runner)), (impliedOdds (layPrice runner));
    reflexivity.
Qed.

(** The three shapes of an outcome, by the sides that are priced. *)
Lemma runner_two_sided (b l : Q) :
  impliedOdds (backPrice runner) = Some b ->
  impliedOdds (layPrice runner) = Some l ->
  odds (normalizeRunner catalogue runner)
    = Js.Math_round (((b + l) / 2) * 100) / 100 /\
  spread (normalizeRunner catalogue runner)
    = Some (Js.Math_round (Js.Math_abs (b - l) * 100) / 100) /\
  backOnly (normalizeRunner catalogue runner) = Some false.
Proof.
  intros Hb Hl. unfold normalizeRunner. rewrite Hb, Hl. auto.
Qed.

Lemma runner_back_only (b : Q) :
  impliedOdds (backPrice runner) = Some b ->
  impliedOdds (layPrice runner) = None ->
  odds (normalizeRunner catalogue runner) = 0 /\
  spread (normalizeRunner catalogue runner) = None /\
  backOnly (normalizeRunner catalogue runner) = Some true.
Proof.
  intros Hb Hl. unfold normalizeRunner. rewrite Hb, Hl. auto.
Qed.

Lemma runner_no_back :
  impliedOdds (backPrice runner) = None ->
  odds (normalizeRunner catalogue runner) = 0 /\
  spread (normalizeRunner catalogue runner) = None /\
  backOnly (normalizeRunner catalogue runner) = Some false.
Proof.
  intros Hb. unfold normalizeRunner. rewrite Hb.
  destruct (impliedOdds (layPrice runner)); auto.
Qed.

(** A lay price that passes the filters is never zero, so it always
    yields [layOdds]. *)
Lemma layPrice_implied (p : Q) :
  layPrice runner = Some p ->
  impliedOdds (layPrice runner) = Some (Utils.betfairOddsToPercent p).
Proof.
  intros H. rewrite H. unfold layPrice in H.
  destruct (rawLayPrice runner) as [q|]; [|discriminate].
  destruct (Js.truthy q) eqn:T; simpl in H; [|discriminate].
  destruct (Js.geb _ _); [|discriminate].
  injection H as <-. simpl. now rewrite T.
Qed.



Lemma lay_survives_implied (e : BetfairPriceSize) :
  lay_survives runner e -> ~ price e == 0 ->
  impliedOdds (layPrice runner) = Some (Utils.betfairOddsToPercent (price e)).
Proof.
  intros (He & Hs & Hp) Hnz. apply layPrice_implied.
  unfold layPrice, rawLayPrice, sizedPrice. rewrite He.
  apply geb_le in Hs, Hp. apply truthy_nonzero in Hnz.
  now rewrite Hs, Hnz, Hp.
Qed.


(** An under-sized back quote yields no back price. *)
Lemma thin_no_backPrice (e : BetfairPriceSize) :
  backEntry runner = Some e -> size e < MIN_OFFER_SIZE ->
  backPrice runner = None.
Proof.
  intros He Hs. unfold backPrice, sizedPrice. rewrite He.
  destruct (Js.geb (size e) MIN_OFFER_SIZE) eqn:G; [|reflexivity].
  apply geb_le in G. lra.
Qed.

Lemma runner_thinLiquidity :
  thinLiquidity (normalizeRunner catalogue runner) =
  Some (match option_map size (backEntry runner) with
        | Some bs => Js.ltb bs MIN_OFFER_SIZE
                     && negb (Js.truthy_opt (option_map size (layEntry runner)))
        | None => false
        end).
Proof.
  unfold normalizeRunner.
  destruct (impliedOdds (backPrice runner)), (impliedOdds (layPrice runner));
    reflexivity.
Qed.

(** [thinLiquidity] fires only on an under-sized back quote. *)
Lemma thinLiquidity_fires :
  thinLiquidity (normalizeRunner catalogue runner) = Some true ->
  exists b, backEntry runner = Some b /\ size b < MIN_OFFER_SIZE.
Proof.
  rewrite runner_thinLiquidity. intros H.
  destruct (backEntry runner) as [b|]; [|discriminate].
  simpl in H. injection H as H. apply andb_true_iff in H as (Hlt & _).
  exists b. split; [reflexivity | now apply ltb_lt_iff].
Qed.

End Runner.




(** C5, as stated, fails: with a back quote of size 1 and a lay quote of
    size 0 a lay quote exists, yet [thinLiquidity] is true. *)
Lemma thinLiquidity_with_empty_lay_quote :
  Betfair.backEntry (runner_with (Some (quote 5 1)) (Some (quote 5 0)))
    = Some (quote 5 1) /\
  Betfair.layEntry (runner_with (Some (quote 5 1)) (Some (quote 5 0)))
    = Some (quote 5 0) /\
  thinLiquidity (Betfair.normalizeRunner winner_catalogue
                   (runner_with (Some (quote 5 1)) (Some (quote 5 0))))
    = Some true.
Proof. repeat split. Qed.

(** C5, amended.  [thinLiquidity] is true exactly when a back quote exists
    with size below the minimum-offer threshold and there is no lay quote
    or the lay quote has size 0.  It is false when there is no back quote,
    whatever the lay quote, and true for an under-sized back quote with no
    lay quote. *)
Theorem thinLiquidity_exactly
    (c : Betfair.BetfairMarketCatalogue) (r : Betfair.BetfairRunnerBook) :
  (thinLiquidity (Betfair.normalizeRunner c r) = Some true <->
   (exists b, Betfair.backEntry r = Some b /\
              Betfair.size b < Betfair.MIN_OFFER_SIZE) /\
   (Betfair.layEntry r = None \/
    exists l, Betfair.layEntry r = Some l /\ Betfair.size l == 0)) /\
  (Betfair.backEntry r = None ->
   thinLiquidity (Betfair.normalizeRunner c r) = Some false) /\
  (forall b, Betfair.backEntry r = Some b ->
             Betfair.size b < Betfair.MIN_OFFER_SIZE ->
             Betfair.layEntry r = None ->
   thinLiquidity (Betfair.normalizeRunner c r) = Some true).
Proof.
  rewrite runner_thinLiquidity.
  assert (forall b, Betfair.backEntry r = Some b ->
                    Betfair.size b < Betfair.MIN_OFFER_SIZE ->
                    Betfair.layEntry r = None \/
                    (exists l, Betfair.layEntry r = Some l /\ Betfair.size l == 0) ->
          Js.ltb (Betfair.size b) Betfair.MIN_OFFER_SIZE
          && negb (Js.truthy_opt (option_map Betfair.size (Betfair.layEntry r)))
          = true) as Hfire.
  { intros b Hb Hs Hlay. apply andb_true_iff. split; [now apply ltb_lt_iff|].
    destruct Hlay as [-> | (l & -> & Hl)]; [reflexivity|]. simpl.
    destruct (Js.truthy (Betfair.size l)) eqn:T; [|reflexivity].
    apply truthy_nonzero in T. contradiction. }
  split; [split|split].
  - intros H. destruct (Betfair.backEntry r) as [b|]; [|discriminate].
    simpl in H. injection H as H. apply andb_true_iff in H as (Hlt & Hlay).
    split; [exists b; split; [reflexivity | now apply ltb_lt_iff]|].
    destruct (Betfair.layEntry r) as [l|]; [right|now left].
    exists l. split; [reflexivity|]. simpl in Hlay.
    apply negb_true_iff in Hlay.
    destruct (Qeq_dec (Betfair.size l) 0) as [E|E]; trivial.
    apply truthy_nonzero in E. congruence.
  - intros ((b & Hb & Hs) & Hlay). rewrite Hb. simpl. f_equal.
    rewrite Hb in Hfire. now apply Hfire.
  - intros ->. reflexivity.
  - intros b Hb Hs Hl. rewrite Hb. simpl. f_equal.
    rewrite Hb in Hfire. apply Hfire; auto.
Qed.

Lemma thinLiquidity_exactly_witness :
  thinLiquidity (Betfair.normalizeRunner winner_catalogue runner_thin) = Some true /\
  thinLiquidity (Betfair.normalizeRunner winner_catalogue runner_lay_only) = Some false.
Proof.
  destruct (thinLiquidity_exactly winner_catalogue runner_thin) as (_ & _ & Hthin).
  destruct (thinLiquidity_exactly winner_catalogue runner_lay_only) as (_ & Hnone & _).
  split.
  - apply (Hthin (quote 5 1)); reflexivity.
  - apply Hnone. reflexivity.
Defined.

(** C10.  For every outcome of the Betfair normaliser, [thinLiquidity] true
    implies [backOnly] false and no [backOdds]: a back quote below the
    minimum-offer threshold yields no back price. *)
Theorem thinLiquidity_excludes_backOnly
    (c : Betfair.BetfairMarketCatalogue) (r : Betfair.BetfairRunnerBook) :
  thinLiquidity (Betfair.normalizeRunner c r) = Some true ->
  backOnly (Betfair.normalizeRunner c r) = Some false /\
  backOdds (Betfair.normalizeRunner c r) = None.
Proof.
  intros H. apply (thinLiquidity_fires c r) in H as (b & Hb & Hs).
  pose proof (thin_no_backPrice r b Hb Hs) as Hp.
  assert (Betfair.impliedOdds (Betfair.backPrice r) = None) as Ib
    by now rewrite Hp.
  rewrite runner_backOdds. split; [|exact Ib].
  now destruct (runner_no_back c r Ib) as (_ & _ & ->).
Qed.

Lemma thinLiquidity_excludes_backOnly_witness :
  backOnly (Betfair.normalizeRunner winner_catalogue runner_thin) = Some false /\
  backOdds (Betfair.normalizeRunner winner_catalogue runner_thin) = None.
Proof.
  apply thinLiquidity_excludes_backOnly. reflexivity.
Defined.

(* ================================================================== *)
(** * betfair-client.ts: the market *)
(* ================================================================== *)

Lemma sortOutcomes_descending (os : list Outcome) :
  descending (Betfair.sortOutcomes os).
Proof.
  unfold descending, Betfair.sortOutcomes.
  assert (StronglySorted (Js.before (fun a b => odds b - odds a))
            (Js.Array_sort (fun a b => odds b - odds a) os)) as H.
  { apply Array_sort_strongly_sorted; unfold Js.before; intros; lra. }
  induction H as [|x xs Hs IH Hall]; constructor; trivial.
  eapply Forall_impl; [|exact Hall]. unfold Js.before. intros; lra.
Qed.

(** The head of a descending list carries the largest [odds], and
    [outcomes[0]?.odds || 0] is that number. *)
Lemma favouriteOdds_max (os : list Outcome) :
  os <> [] -> descending os -> max_odds os (Betfair.favouriteOdds os).
Proof.
  intros Hne Hd. destruct os as [|o rest]; [contradiction|].
  assert (Betfair.favouriteOdds (o :: rest) == odds o) as E.
  { unfold Betfair.favouriteOdds. simpl.
    destruct (Js.truthy (odds o)) eqn:T; [reflexivity|].
    unfold Js.truthy in T. apply negb_false_iff, Qeq_bool_iff in T.
    now symmetry. }
  inversion Hd as [|? ? Hrest Hall]; subst. split.
  - exists o. split; [now left | now symmetry].
  - constructor; [rewrite E; lra|].
    eapply Forall_impl; [|exact Hall]. simpl. intros a Ha. rewrite E. exact Ha.
Qed.

(** Every outcome of a Betfair market is the outcome of one runner of
    the book. *)
Lemma betfair_outcome_of_runner (rate : Q) (now : string)
    (c : Betfair.BetfairMarketCatalogue) (book : option Betfair.BetfairMarketBook)
    (os : list Outcome) (o : Outcome) :
  outcomes (Betfair.normalizeMarket rate now c book) = Some os -> In o os ->
  exists b r, book = Some b /\ In r (Betfair.runners b) /\
              o = Betfair.normalizeRunner c r.
Proof.
  unfold Betfair.normalizeMarket. intros Hos Hin.
  destruct book as [b|]; [|discriminate].
  destruct (Betfair.runners b) as [|r rs] eqn:R; [discriminate|].
  remember (Betfair.sortOutcomes (map (Betfair.normalizeRunner c) (r :: rs)))
    as sorted eqn:Es.
  simpl in Hos. injection Hos as <-. subst sorted.
  eapply Permutation_in in Hin;
    [|apply Permutation_sym, Array_sort_permutation].
  apply in_map_iff in Hin as (r' & <- & Hr').
  exists b, r'. rewrite R. auto.
Qed.

Lemma betfair_favourite_first (rate : Q) (now : string)
    (c : Betfair.BetfairMarketCatalogue) (book : option Betfair.BetfairMarketBook) :
  favourite_first (Betfair.normalizeMarket rate now c book).
Proof.
  intros os Hos Hne. unfold Betfair.normalizeMarket in *.
  destruct book as [b|]; [|discriminate].
  destruct (Betfair.runners b) as [|r rs]; [discriminate|].
  remember (Betfair.sortOutcomes (map (Betfair.normalizeRunner c) (r :: rs)))
    as sorted eqn:Es.
  simpl in Hos. injection Hos as <-. simpl.
  assert (descending sorted) as Hd by (subst; apply sortOutcomes_descending).
  split; [apply favouriteOdds_max|]; trivial.
Qed.

(* ================================================================== *)
(** * polymarket-client.ts *)
(* ================================================================== *)

Section PolymarketFacts.

Import Polymarket.

Variable JSON_parse : string -> option JsValue.

Lemma mapi_names (prices : JsValue) (l : list JsValue) (i : nat) :
  map name (mapi (mkPolyOutcome prices) i l) = l.
Proof.
  revert i. induction l as [|x l IH]; intros i; simpl; [reflexivity|].
  now rewrite IH.
Qed.

(** When the [try] block assigns [outcomes], both fields decoded to
    non-empty sequences and there is one outcome per name, in order. *)
Lemma tryOutcomes_assigned (market : PolymarketSearchMarket) (os : list Outcome) :
  tryOutcomes JSON_parse market = Normal (Some os) ->
  exists names prices,
    decode JSON_parse (pm_outcomes market) = Normal (JArr names) /\
    decode JSON_parse (outcomePrices market) = Normal prices /\
    names <> [] /\
    os = mapi (mkPolyOutcome prices) 0%nat names.
Proof.
  unfold tryOutcomes, bind.
  destruct (decode JSON_parse (pm_outcomes market)) as [names|]; [|discriminate].
  destruct (decode JSON_parse (outcomePrices market)) as [prices|]; [|discriminate].
  destruct (js_length names) as [ln|] eqn:Ln; [|discriminate].
  destruct (positive ln) eqn:Pn; [|discriminate].
  destruct (js_length prices) as [lp|]; [|discriminate].
  destruct (positive lp); [|discriminate].
  destruct names as [| | | |l|]; try discriminate.
  intros H. injection H as <-. exists l, prices. repeat split.
  intros ->. simpl in Ln. injection Ln as <-. discriminate.
Qed.

Lemma polymarket_outcomes (now : string) (market : PolymarketSearchMarket)
    (event : PolymarketSearchEvent) :
  outcomes (normalizeMarketWithEvent JSON_parse now market event) =
  match tryOutcomes JSON_parse market with
  | Normal r => r
  | Throw => None
  end.
Proof.
  unfold normalizeMarketWithEvent.
  destruct (tryOutcomes JSON_parse market) as [[os|]|]; reflexivity.
Qed.

Lemma polymarket_odds (now : string) (market : PolymarketSearchMarket)
    (event : PolymarketSearchEvent) :
  m_odds (normalizeMarketWithEvent JSON_parse now market event) =
  match tryOutcomes JSON_parse market with
  | Normal (Some os) => firstOdds os
  | _ => 50
  end.
Proof.
  unfold normalizeMarketWithEvent.
  destruct (tryOutcomes JSON_parse market) as [[os|]|]; reflexivity.
Qed.

(** The first outcome carries the first price, times 100, rounded to two
    decimal places. *)
Lemma polymarket_first_outcome (market : PolymarketSearchMarket) (os : list Outcome) :
  tryOutcomes JSON_parse market = Normal (Some os) ->
  exists o rest prices,
    os = o :: rest /\
    decode JSON_parse (outcomePrices market) = Normal prices /\
    odds o = Utils.polymarketOddsToPercent (priceAt prices 0) /\
    rounded2 (priceAt prices 0 * 100) (odds o).
Proof.
  intros T.
  destruct (tryOutcomes_assigned market os T) as (names & prices & _ & Dp & Hne & ->).
  destruct names as [|n names]; [contradiction|].
  eexists _, _, prices. simpl. repeat split; trivial.
  apply round_hundredths.
Qed.

(** The scalar odds follow the first outcome unless that one is at 0. *)
Lemma firstOdds_nonzero (o : Outcome) (rest : list Outcome) :
  ~ odds o == 0 -> firstOdds (o :: rest) = odds o.
Proof.
  intros H. unfold firstOdds. simpl.
  apply truthy_nonzero in H. now rewrite H.
Qed.

(** Absent or malformed data: whenever the [try] block does not assign
    [outcomes], the record still normalises, with scalar odds 50. *)
Lemma polymarket_default (now : string) (market : PolymarketSearchMarket)
    (event : PolymarketSearchEvent) :
  outcomes (normalizeMarketWithEvent JSON_parse now market event) = None ->
  m_odds (normalizeMarketWithEvent JSON_parse now market event) = 50.
Proof.
  rewrite polymarket_outcomes, polymarket_odds.
  destruct (tryOutcomes JSON_parse market) as [[os|]|]; [discriminate| |];
    reflexivity.
Qed.

End PolymarketFacts.

(** C1, as stated, fails for the Polymarket normaliser: with prices 0.22
    and 0.78 the outcomes stay in the order Yes (22), No (78) and the scalar
    odds are 22, neither sorted descending nor the maximum. *)
Lemma polymarket_not_favourite_first :
  m_odds (Polymarket.normalizeMarketWithEvent parse_empty_array "now"
            (yes_no_market "0.22" "0.78") greenland_event) == 22 /\
  ~ favourite_first
      (Polymarket.normalizeMarketWithEvent parse_empty_array "now"
         (yes_no_market "0.22" "0.78") greenland_event).
Proof.
  split; [vm_compute; reflexivity|].
  intros H. destruct (H _ eq_refl) as (_ & Hd); [discriminate|].
  inversion Hd as [|? ? _ Hall]; subst.
  inversion Hall as [|? ? Hle _]; subst.
  vm_compute in Hle. now apply Hle.
Qed.

(** C1, amended.  Every market of Betfair's [normalizeMarket] whose
    [outcomes] are present and non-empty has them sorted descending by
    [odds], and its scalar [odds] is their maximum.  A market of
    Polymarket's [normalizeMarketWithEvent] with [outcomes] present has one
    outcome per decoded name, in the order of the record, and its scalar
    [odds] equals the first outcome's [odds] whenever that is not 0. *)
Theorem normalizers_scalar_odds :
  (forall rate now c book,
     favourite_first (Betfair.normalizeMarket rate now c book)) /\
  (forall JSON_parse now market event os,
     outcomes (Polymarket.normalizeMarketWithEvent JSON_parse now market event)
       = Some os ->
     (exists names,
        Polymarket.decode JSON_parse (Polymarket.pm_outcomes market)
          = Polymarket.Normal (JArr names) /\
        map name os = names) /\
     (exists o rest, os = o :: rest /\
        (~ odds o == 0 ->
         m_odds (Polymarket.normalizeMarketWithEvent JSON_parse now market event)
           == odds o))).
Proof.
  split; [apply betfair_favourite_first|].
  intros JSON_parse now market event os.
  rewrite polymarket_outcomes, polymarket_odds.
  destruct (Polymarket.tryOutcomes JSON_parse market) as [r|] eqn:T;
    [|discriminate].
  intros ->.
  destruct (tryOutcomes_assigned JSON_parse market os T)
    as (names & prices & Dn & _ & Hne & ->).
  split.
  - exists names. split; [exact Dn | apply mapi_names].
  - destruct names as [|n names]; [contradiction|]. simpl.
    eexists _, _. split; [reflexivity|].
    intros Hnz. now rewrite firstOdds_nonzero.
Qed.

Lemma normalizers_scalar_odds_witness :
  (exists os,
     outcomes (Betfair.normalizeMarket (127 # 100) "now" winner_catalogue
                 (Some two_runner_book)) = Some os /\
     max_odds os (m_odds (Betfair.normalizeMarket (127 # 100) "now"
                            winner_catalogue (Some two_runner_book))) /\
     descending os) /\
  m_odds (Polymarket.normalizeMarketWithEvent parse_empty_array "now"
            (yes_no_market "0.22" "0.78") greenland_event)
  == Utils.polymarketOddsToPercent (22 # 100).
Proof.
  destruct normalizers_scalar_odds as (Hb & Hp). split.
  - eexists. split; [reflexivity|].
    apply (Hb (127 # 100) "now"%string winner_catalogue (Some two_runner_book));
      [reflexivity | discriminate].
  - destruct (Hp parse_empty_array "now"%string (yes_no_market "0.22" "0.78")
                greenland_event _ eq_refl) as (_ & o & rest & E & H).
    injection E as <- _. apply H. discriminate.
Defined.

(** C6: the code at a record whose first outcome stands at price 0 (a
    market resolved against it).  The first outcome's converted price is 0,
    the scalar odds are 50. *)
Theorem polymarket_zero_price_reads_50 :
  exists o rest,
    outcomes (Polymarket.normalizeMarketWithEvent parse_empty_array "now"
                (yes_no_market "0" "1") greenland_event) = Some (o :: rest) /\
    Polymarket.priceAt (JArr [JStr "0"; JStr "1"]) 0 == 0 /\
    odds o == 0 /\
    m_odds (Polymarket.normalizeMarketWithEvent parse_empty_array "now"
              (yes_no_market "0" "1") greenland_event) == 50.
Proof.
  eexists _, _. split; [reflexivity|].
  repeat split; vm_compute; reflexivity.
Qed.

(* ================================================================== *)
(** * aggregator.ts: partial failure *)
(* ================================================================== *)

Lemma sortMarkets_length (l : list UnifiedMarket) (k : SortKey) :
  List.length (Utils.sortMarkets l k) = List.length l.
Proof.
  symmetry. apply Permutation_length, Array_sort_permutation.
Qed.

(** One platform resolves with three markets, the other rejects with a
    message that is not empty, default options: the failure is absorbed
    into the metadata. *)
Lemma searchAll_absorbs_failure
    (pc bc : Aggregator.MarketClient) (now q : string)
    (ms : list UnifiedMarket) (e : Aggregator.Thrown) :
  Aggregator.isEnabled pc = true -> Aggregator.isEnabled bc = true ->
  List.length ms = 3%nat -> Aggregator.errorMessage e <> EmptyString ->
  (Aggregator.search pc q no_options = Aggregator.Resolved ms ->
   Aggregator.search bc q no_options = Aggregator.Rejected e ->
   let res := Aggregator.searchAll pc bc now q no_options in
   List.length (markets res) = 3%nat /\
   p_polymarket (platforms (meta res)) = mkPlatformStatus st_success (Some 3%nat) None /\
   p_betfair (platforms (meta res))
     = mkPlatformStatus st_error None (Some (Aggregator.errorMessage e)) /\
   warnings (meta res) = [("betfair: " ++ Aggregator.errorMessage e)%string]) /\
  (Aggregator.search pc q no_options = Aggregator.Rejected e ->
   Aggregator.search bc q no_options = Aggregator.Resolved ms ->
   let res := Aggregator.searchAll pc bc now q no_options in
   List.length (markets res) = 3%nat /\
   p_betfair (platforms (meta res)) = mkPlatformStatus st_success (Some 3%nat) None /\
   p_polymarket (platforms (meta res))
     = mkPlatformStatus st_error None (Some (Aggregator.errorMessage e)) /\
   warnings (meta res) = [("polymarket: " ++ Aggregator.errorMessage e)%string]).
Proof.
  intros Ep Eb Hlen Hmsg.
  destruct (Aggregator.errorMessage e) as [|a m] eqn:Em; [contradiction|].
  split; intros Hp Hb res; subst res; unfold Aggregator.searchAll;
    rewrite Ep, Eb, Hp, Hb; simpl; rewrite Em; simpl;
    rewrite sortMarkets_length, Hlen; auto.
Qed.

Example searchAll_authentication_failure :
  let res := Aggregator.searchAll (resolving three_markets)
               (rejecting (Aggregator.ErrorObject "Betfair authentication failed"))
               "now" "greenland" no_options in
  map volume (markets res) = [300; 200; 100] /\
  p_polymarket (platforms (meta res)) = mkPlatformStatus st_success (Some 3%nat) None /\
  p_betfair (platforms (meta res))
    = mkPlatformStatus st_error None (Some "Betfair authentication failed"%string) /\
  warnings (meta res) = ["betfair: Betfair authentication failed"%string].
Proof. repeat split. Qed.

(** C2: the code at a rejection whose message is empty ([new Error()]),
    default options.  The three markets come back and the resolving platform
    is recorded, but the rejecting platform is left [disabled] and no
    warning is issued. *)
Theorem searchAll_empty_message_unrecorded :
  let res := Aggregator.searchAll (resolving three_markets)
               (rejecting (Aggregator.ErrorObject ""))
               "now" "greenland" no_options in
  List.length (markets res) = 3%nat /\
  p_polymarket (platforms (meta res)) = mkPlatformStatus st_success (Some 3%nat) None /\
  p_betfair (platforms (meta res)) = mkPlatformStatus st_disabled None None /\
  warnings (meta res) = [].
Proof. repeat split. Qed.

(* ================================================================== *)
(** * Further properties: conversions *)
(* ================================================================== *)

Lemma Math_round_monotone (x y : Q) :
  x <= y -> Js.Math_round x <= Js.Math_round y.
Proof.
  intros H. unfold Js.Math_round. rewrite <- Zle_Qle.
  apply Qfloor_resp_le. lra.
Qed.

Lemma Math_round_integer (n : Z) : Js.Math_round (inject_Z n) = inject_Z n.
Proof.
  unfold Js.Math_round. f_equal.
  pose proof (Qfloor_le (inject_Z n + (1 # 2))) as Hlo.
  pose proof (Qlt_floor (inject_Z n + (1 # 2))) as Hhi.
  set (f := Qfloor (inject_Z n + (1 # 2))) in *.
  rewrite inject_Z_plus in Hhi. change (inject_Z 1) with 1 in Hhi.
  assert (inject_Z f < inject_Z n + 1) as H1 by lra.
  assert (inject_Z n < inject_Z f + 1) as H2 by lra.
  change 1 with (inject_Z 1) in H1, H2.
  rewrite <- inject_Z_plus in H1, H2.
  rewrite <- Zlt_Qlt in H1, H2. lia.
Qed.

Lemma div100_le (x y : Q) : x <= y -> x / 100 <= y / 100.
Proof.
  intros H. apply Qle_shift_div_l; [reflexivity|].
  setoid_replace (x / 100 * 100) with x by field. exact H.
Qed.

Lemma div100_range (x : Q) :
  0 <= x -> x <= 10000 -> 0 <= x / 100 /\ x / 100 <= 100.
Proof.
  intros H0 H1. split.
  - apply Qle_trans with (0 / 100); [vm_compute; discriminate|].
    now apply div100_le.
  - apply Qle_trans with (10000 / 100); [|vm_compute; discriminate].
    now apply div100_le.
Qed.

Lemma Math_round_ge (n : Z) (x : Q) :
  inject_Z n <= x -> inject_Z n <= Js.Math_round x.
Proof.
  intros H. rewrite <- (Math_round_integer n). now apply Math_round_monotone.
Qed.

Lemma Math_round_le (n : Z) (x : Q) :
  x <= inject_Z n -> Js.Math_round x <= inject_Z n.
Proof.
  intros H. rewrite <- (Math_round_integer n). now apply Math_round_monotone.
Qed.

(** Rounding 0 .. 10000 hundredths gives a percentage. *)
Lemma round_percentage (x : Q) :
  0 <= x -> x <= 10000 -> percentage (Js.Math_round x / 100).
Proof.
  intros H0 H1. apply div100_range.
  - now apply (Math_round_ge 0).
  - now apply (Math_round_le 10000).
Qed.



Lemma inverse_bounds (d : Q) : 1 < d -> 0 < / d /\ / d < 1.
Proof.
  intros H. assert (0 < / d) as Hp by (apply Qinv_lt_0_compat; lra).
  split; trivial.
  assert (d * / d == 1) as E by (apply Qmult_inv_r; lra).
  nra.
Qed.

Lemma betfairOddsToPercent_range (d : Q) :
  percentage (Utils.betfairOddsToPercent d).
Proof.
  unfold Utils.betfairOddsToPercent, percentage.
  destruct (Qle_bool d 1) eqn:E; [lra|].
  assert (1 < d) as Hd.
  { apply Qnot_le_lt. intros H. apply Qle_bool_iff in H. congruence. }
  destruct (inverse_bounds d Hd) as (Hp & Hl).
  apply round_percentage; unfold Qdiv; lra.
Qed.


(** X2.  A longer price never implies a higher probability. *)
Theorem betfairOddsToPercent_antitone (d1 d2 : Q) :
  d1 <= d2 -> Utils.betfairOddsToPercent d2 <= Utils.betfairOddsToPercent d1.
Proof.
  intros H.
  destruct (betfairOddsToPercent_range d2) as (_ & H2).
  unfold Utils.betfairOddsToPercent in *.
  destruct (Qle_bool d1 1) eqn:E1; [exact H2|].
  assert (1 < d1) as Hd1.
  { apply Qnot_le_lt. intros K. apply Qle_bool_iff in K. congruence. }
  destruct (Qle_bool d2 1) eqn:E2; [apply Qle_bool_iff in E2; lra|].
  destruct (inverse_bounds d1 Hd1) as (P1 & _).
  destruct (inverse_bounds d2) as (P2 & _); [lra|].
  assert (d1 * / d1 == 1) as I1 by (apply Qmult_inv_r; lra).
  assert (d2 * / d2 == 1) as I2 by (apply Qmult_inv_r; lra).
  assert (/ d2 <= / d1) as Hinv by nra.
  pose proof (Math_round_monotone (1 / d2 * 100 * 100) (1 / d1 * 100 * 100)) as M.
  apply div100_le, M. unfold Qdiv. lra.
Qed.

Lemma betfairOddsToPercent_antitone_witness :
  Utils.betfairOddsToPercent 5 <= Utils.betfairOddsToPercent 4.
Proof.
  apply betfairOddsToPercent_antitone. unfold Qle; simpl; lia.
Defined.



(* ================================================================== *)
(** * Further properties: the outcome of a runner *)
(* ================================================================== *)

Lemma impliedOdds_value (p : option Q) (x : Q) :
  Betfair.impliedOdds p = Some x ->
  exists q, p = Some q /\ x = Utils.betfairOddsToPercent q.
Proof.
  destruct p as [q|]; [|discriminate]. simpl.
  destruct (Js.truthy q); [|discriminate].
  intros H. injection H as <-. eauto.
Qed.

(** A lay price that is kept implies at least [MIN_LAY_PERCENT]. *)
Lemma layPrice_floor (r : Betfair.BetfairRunnerBook) (p : Q) :
  Betfair.layPrice r = Some p ->
  Betfair.MIN_LAY_PERCENT <= Utils.betfairOddsToPercent p.
Proof.
  unfold Betfair.layPrice.
  destruct (Betfair.rawLayPrice r) as [q|]; [|discriminate].
  destruct (Js.truthy q); simpl; [|discriminate].
  destruct (Js.geb _ _) eqn:G; [|discriminate].
  intros H. injection H as <-. now apply geb_le.
Qed.

Lemma midpoint_round_range (b l : Q) :
  percentage b -> percentage l ->
  percentage (Js.Math_round ((b + l) / 2 * 100) / 100).
Proof.
  intros (Hb0 & Hb1) (Hl0 & Hl1).
  apply round_percentage;
    setoid_replace ((b + l) / 2 * 100) with ((b + l) * 50) by field; lra.
Qed.

Lemma spread_round_range (b l : Q) :
  percentage b -> percentage l ->
  percentage (Js.Math_round (Js.Math_abs (b - l) * 100) / 100).
Proof.
  intros (Hb0 & Hb1) (Hl0 & Hl1). unfold Js.Math_abs.
  pose proof (Qabs_nonneg (b - l)) as H0.
  assert (Qabs (b - l) <= 100) as H1 by (apply Qabs_Qle_condition; lra).
  apply round_percentage; lra.
Qed.

Lemma backOdds_percentage (r : Betfair.BetfairRunnerBook) :
  when_present percentage (Betfair.impliedOdds (Betfair.backPrice r)).
Proof.
  destruct (Betfair.impliedOdds (Betfair.backPrice r)) as [b|] eqn:Ib;
    [|exact I].
  apply impliedOdds_value in Ib as (q & _ & ->).
  apply betfairOddsToPercent_range.
Qed.

Lemma layOdds_percentage (r : Betfair.BetfairRunnerBook) :
  when_present (fun l => Betfair.MIN_LAY_PERCENT <= l /\ l <= 100)
               (Betfair.impliedOdds (Betfair.layPrice r)).
Proof.
  destruct (Betfair.impliedOdds (Betfair.layPrice r)) as [l|] eqn:Il;
    [|exact I].
  apply impliedOdds_value in Il as (q & Hq & ->). split.
  - now apply (layPrice_floor r).
  - apply betfairOddsToPercent_range.
Qed.

Lemma runner_odds_percentage
    (c : Betfair.BetfairMarketCatalogue) (r : Betfair.BetfairRunnerBook) :
  percentage (odds (Betfair.normalizeRunner c r)).
Proof.
  pose proof (backOdds_percentage r) as Hb.
  pose proof (layOdds_percentage r) as Hl.
  assert (percentage 0) as P0 by (split; vm_compute; discriminate).
  destruct (Betfair.impliedOdds (Betfair.backPrice r)) as [b|] eqn:Ib.
  - destruct (Betfair.impliedOdds (Betfair.layPrice r)) as [l|] eqn:Il.
    + destruct (runner_two_sided c r b l Ib Il) as (-> & _).
      simpl in Hb. destruct Hl as (Hl2 & Hl100).
      apply midpoint_round_range; trivial.
      split; [unfold Betfair.MIN_LAY_PERCENT in Hl2; lra | trivial].
    + now destruct (runner_back_only c r b Ib Il) as (-> & _).
  - now destruct (runner_no_back c r Ib) as (-> & _).
Qed.

(** X5.  Every outcome of the Betfair normaliser stays within bounds:
    [odds], [backOdds] and [layOdds] are percentages, [layOdds] when present
    is at least the lay floor of 2, and [spread] when present lies
    between 0 and 100. *)
Theorem runner_outcome_bounds
    (c : Betfair.BetfairMarketCatalogue) (r : Betfair.BetfairRunnerBook) :
  percentage (odds (Betfair.normalizeRunner c r)) /\
  when_present percentage (backOdds (Betfair.normalizeRunner c r)) /\
  when_present (fun l => Betfair.MIN_LAY_PERCENT <= l /\ l <= 100)
               (layOdds (Betfair.normalizeRunner c r)) /\
  when_present percentage (spread (Betfair.normalizeRunner c r)).
Proof.
  split; [apply runner_odds_percentage|].
  rewrite runner_backOdds, runner_layOdds.
  pose proof (backOdds_percentage r) as Hb.
  pose proof (layOdds_percentage r) as Hl.
  split; [exact Hb|]. split; [exact Hl|].
  destruct (Betfair.impliedOdds (Betfair.backPrice r)) as [b|] eqn:Ib.
  - destruct (Betfair.impliedOdds (Betfair.layPrice r)) as [l|] eqn:Il.
    + destruct (runner_two_sided c r b l Ib Il) as (_ & -> & _).
      simpl in Hb. destruct Hl as (Hl2 & Hl100).
      apply spread_round_range; trivial.
      split; [unfold Betfair.MIN_LAY_PERCENT in Hl2; lra | trivial].
    + now destruct (runner_back_only c r b Ib Il) as (_ & -> & _).
  - now destruct (runner_no_back c r Ib) as (_ & -> & _).
Qed.







Lemma two_sided_dec (o : Outcome) : two_sided o \/ ~ two_sided o.
Proof.
  unfold two_sided. destruct (backOdds o), (layOdds o);
    try (right; intros (H1 & H2); congruence).
  left. split; discriminate.
Qed.

Lemma runner_odds_two_sided
    (c : Betfair.BetfairMarketCatalogue) (r : Betfair.BetfairRunnerBook) :
  two_sided (Betfair.normalizeRunner c r) ->
  1 <= odds (Betfair.normalizeRunner c r).
Proof.
  unfold two_sided. rewrite runner_backOdds, runner_layOdds. intros (Hb & Hl).
  destruct (Betfair.impliedOdds (Betfair.backPrice r)) as [b|] eqn:Ib;
    [|contradiction].
  destruct (Betfair.impliedOdds (Betfair.layPrice r)) as [l|] eqn:Il;
    [|contradiction].
  destruct (runner_two_sided c r b l Ib Il) as (-> & _).
  apply impliedOdds_value in Ib as (pb & _ & ->).
  apply impliedOdds_value in Il as (pl & Hpl & ->).
  pose proof (layPrice_floor r pl Hpl) as Hfloor.
  destruct (betfairOddsToPercent_range pb) as (Hb0 & _).
  unfold Betfair.MIN_LAY_PERCENT in Hfloor.
  apply Qle_trans with (100 / 100); [vm_compute; discriminate|].
  apply div100_le, (Math_round_ge 100). change (inject_Z 100) with 100.
  set (b := Utils.betfairOddsToPercent pb) in *.
  set (l := Utils.betfairOddsToPercent pl) in *.
  setoid_replace ((b + l) / 2 * 100) with ((b + l) * 50) by field. lra.
Qed.

Lemma runner_odds_one_sided
    (c : Betfair.BetfairMarketCatalogue) (r : Betfair.BetfairRunnerBook) :
  ~ two_sided (Betfair.normalizeRunner c r) ->
  odds (Betfair.normalizeRunner c r) = 0.
Proof.
  unfold two_sided. rewrite runner_backOdds, runner_layOdds. intros H.
  destruct (Betfair.impliedOdds (Betfair.backPrice r)) as [b|] eqn:Ib.
  - destruct (Betfair.impliedOdds (Betfair.layPrice r)) as [l|] eqn:Il.
    + exfalso. apply H. split; discriminate.
    + now destruct (runner_back_only c r b Ib Il) as (-> & _).
  - now destruct (runner_no_back c r Ib) as (-> & _).
Qed.

(** X7.  An outcome of the Betfair normaliser has [odds] 0 exactly when it
    is not priced on both sides; priced on both sides its [odds] are at
    least 1, so it always ranks above the others. *)
Theorem odds_zero_iff_one_sided
    (c : Betfair.BetfairMarketCatalogue) (r : Betfair.BetfairRunnerBook) :
  (odds (Betfair.normalizeRunner c r) == 0 <->
   ~ two_sided (Betfair.normalizeRunner c r)) /\
  (two_sided (Betfair.normalizeRunner c r) ->
   1 <= odds (Betfair.normalizeRunner c r)).
Proof.
  split; [|apply runner_odds_two_sided]. split.
  - intros E T. apply (runner_odds_two_sided c r) in T.
    rewrite E in T. revert T. vm_compute. auto.
  - intros H. now rewrite (runner_odds_one_sided c r H).
Qed.

Lemma odds_zero_iff_one_sided_witness :
  1 <= odds (Betfair.normalizeRunner winner_catalogue runner_20_24) /\
  odds (Betfair.normalizeRunner winner_catalogue runner_back_5) == 0.
Proof.
  destruct (odds_zero_iff_one_sided winner_catalogue runner_20_24) as (_ & Hge).
  destruct (odds_zero_iff_one_sided winner_catalogue runner_back_5) as (Hz & _).
  split.
  - apply Hge. split; discriminate.
  - apply Hz. intros (_ & H). now apply H.
Defined.

(* ================================================================== *)
(** * Further properties: the Betfair market *)
(* ================================================================== *)

Lemma StronglySorted_after {A : Type} (R : A -> A -> Prop)
    (l1 l2 : list A) (x y : A) :
  StronglySorted R (l1 ++ x :: l2) -> In y l2 -> R x y.
Proof.
  induction l1 as [|a l1 IH]; simpl; intros S Hy.
  - inversion S as [|? ? _ Hall]; subst.
    rewrite Forall_forall in Hall. now apply Hall.
  - inversion S; subst. now apply IH.
Qed.

(** The outcomes of a Betfair market, when present, are its runners'
    outcomes sorted. *)
Lemma betfair_outcomes_sorted_runners (rate : Q) (now : string)
    (c : Betfair.BetfairMarketCatalogue) (book : option Betfair.BetfairMarketBook)
    (os : list Outcome) :
  outcomes (Betfair.normalizeMarket rate now c book) = Some os ->
  exists b, book = Some b /\ Betfair.runners b <> [] /\
            os = Betfair.sortOutcomes (map (Betfair.normalizeRunner c) (Betfair.runners b)).
Proof.
  unfold Betfair.normalizeMarket. intros Hos.
  destruct book as [b|]; [|discriminate].
  destruct (Betfair.runners b) as [|r rs] eqn:R; [discriminate|].
  remember (Betfair.sortOutcomes (map (Betfair.normalizeRunner c) (r :: rs)))
    as sorted eqn:Es.
  simpl in Hos. injection Hos as <-.
  exists b. rewrite R. repeat split; trivial. discriminate.
Qed.

(** X8.  In the outcomes of a Betfair market no outcome that lacks a side
    stands before one priced on both sides: back-only and unpriced runners
    sink to the bottom. *)
Theorem one_sided_outcomes_sink (rate : Q) (now : string)
    (c : Betfair.BetfairMarketCatalogue) (book : option Betfair.BetfairMarketBook)
    (l1 l2 : list Outcome) (o1 o2 : Outcome) :
  outcomes (Betfair.normalizeMarket rate now c book) = Some (l1 ++ o1 :: l2) ->
  In o2 l2 -> two_sided o2 -> two_sided o1.
Proof.
  intros Hos Hin T2.
  assert (In o1 (l1 ++ o1 :: l2)) as I1 by (apply in_or_app; right; now left).
  assert (In o2 (l1 ++ o1 :: l2)) as I2 by (apply in_or_app; right; now right).
  destruct (betfair_outcome_of_runner rate now c book _ o1 Hos I1)
    as (b1 & r1 & _ & _ & ->).
  destruct (betfair_outcome_of_runner rate now c book _ o2 Hos I2)
    as (b2 & r2 & _ & _ & ->).
  destruct (betfair_outcomes_sorted_runners rate now c book _ Hos)
    as (b & _ & _ & Es).
  pose proof (sortOutcomes_descending
                (map (Betfair.normalizeRunner c) (Betfair.runners b))) as D.
  rewrite <- Es in D.
  pose proof (StronglySorted_after _ l1 l2 _ _ D Hin) as Hle. simpl in Hle.
  apply runner_odds_two_sided in T2.
  destruct (two_sided_dec (Betfair.normalizeRunner c r1)) as [T|T]; trivial.
  rewrite (runner_odds_one_sided c r1 T) in Hle. lra.
Qed.

Lemma one_sided_outcomes_sink_witness :
  two_sided (Betfair.normalizeRunner winner_catalogue runner_20_24).
Proof.
  apply (one_sided_outcomes_sink (127 # 100) "now" winner_catalogue
           (Some (Betfair.mkBook "1.234" "OPEN" 1000 500
                    [runner_20_24; runner_20_24]))
           [] [Betfair.normalizeRunner winner_catalogue runner_20_24]
           (Betfair.normalizeRunner winner_catalogue runner_20_24)
           (Betfair.normalizeRunner winner_catalogue runner_20_24)).
  - reflexivity.
  - now left.
  - split; discriminate.
Defined.

(** X9.  The scalar [odds] of a Betfair market are a percentage, and they
    are 0 exactly when the market has no outcome priced on both sides (in
    particular when it has no outcomes at all). *)
Theorem betfair_market_odds_zero (rate : Q) (now : string)
    (c : Betfair.BetfairMarketCatalogue) (book : option Betfair.BetfairMarketBook) :
  percentage (m_odds (Betfair.normalizeMarket rate now c book)) /\
  (m_odds (Betfair.normalizeMarket rate now c book) == 0 <->
   forall os o, outcomes (Betfair.normalizeMarket rate now c book) = Some os ->
                In o os -> ~ two_sided o).
Proof.
  destruct (outcomes (Betfair.normalizeMarket rate now c book)) as [os|] eqn:Hos.
  - destruct (betfair_outcomes_sorted_runners rate now c book os Hos)
      as (b & -> & Hne & Es).
    assert (os <> []) as Hos_ne.
    { intros ->. destruct (Betfair.runners b) as [|r rs]; [contradiction|].
      pose proof (Array_sort_permutation (fun a b => odds b - odds a)
                    (map (Betfair.normalizeRunner c) (r :: rs))) as P.
      unfold Betfair.sortOutcomes in Es. rewrite <- Es in P.
      now apply Permutation_sym, Permutation_nil in P. }
    destruct (betfair_favourite_first rate now c (Some b) os Hos Hos_ne)
      as (((o & Ho & Eo) & Hall) & _).
    assert (forall x, In x os -> exists r, x = Betfair.normalizeRunner c r) as Hr.
    { intros x Hx.
      destruct (betfair_outcome_of_runner rate now c (Some b) os x Hos Hx)
        as (_ & r & _ & _ & ->). eauto. }
    split.
    + destruct (Hr o Ho) as (r & Er).
      pose proof (runner_odds_percentage c r) as Hp. rewrite <- Er in Hp.
      unfold percentage in *. now rewrite <- Eo.
    + split.
      * intros Z os' x E Hx T. injection E as <-.
        destruct (Hr x Hx) as (r & ->).
        apply runner_odds_two_sided in T.
        rewrite Forall_forall in Hall. specialize (Hall _ Hx). lra.
      * intros H. rewrite <- Eo. destruct (Hr o Ho) as (r & Er).
        specialize (H os o eq_refl Ho). rewrite Er in *.
        now rewrite (runner_odds_one_sided c r H).
  - assert (m_odds (Betfair.normalizeMarket rate now c book) = 0) as ->.
    { unfold Betfair.normalizeMarket in *.
      destruct book as [b|]; [|reflexivity].
      destruct (Betfair.runners b); [reflexivity | discriminate]. }
    split; [split; vm_compute; discriminate|].
    split; [intros _ os o E; discriminate | reflexivity].
Qed.

(** X10.  A Betfair market carries outcomes exactly when its book lists
    runners, and then one outcome for each runner, none lost and none
    repeated. *)
Theorem betfair_one_outcome_per_runner (rate : Q) (now : string)
    (c : Betfair.BetfairMarketCatalogue) (book : option Betfair.BetfairMarketBook) :
  match book with
  | Some b =>
      match Betfair.runners b with
      | [] => outcomes (Betfair.normalizeMarket rate now c book) = None
      | _ :: _ =>
          exists os,
            outcomes (Betfair.normalizeMarket rate now c book) = Some os /\
            Permutation (map (Betfair.normalizeRunner c) (Betfair.runners b)) os /\
            List.length os = List.length (Betfair.runners b)
      end
  | None => outcomes (Betfair.normalizeMarket rate now c book) = None
  end.
Proof.
  destruct book as [b|]; [|reflexivity].
  destruct (Betfair.runners b) as [|r rs] eqn:R.
  - unfold Betfair.normalizeMarket. now rewrite R.
  - exists (Betfair.sortOutcomes (map (Betfair.normalizeRunner c) (r :: rs))).
    assert (Permutation (map (Betfair.normalizeRunner c) (r :: rs))
              (Betfair.sortOutcomes (map (Betfair.normalizeRunner c) (r :: rs))))
      as P by apply Array_sort_permutation.
    split; [|split; [exact P|]].
    + unfold Betfair.normalizeMarket. rewrite R. reflexivity.
    + rewrite <- (Permutation_length P). apply length_map.
Qed.





(* ================================================================== *)
(** * Further properties: the Polymarket normaliser *)
(* ================================================================== *)

Section PolymarketMore.

Import Polymarket.

Variable JSON_parse : string -> option JsValue.

Lemma mapi_length {A B : Type} (f : A -> nat -> B) (i : nat) (l : list A) :
  List.length (mapi f i l) = List.length l.
Proof.
  revert i. induction l as [|x l IH]; intros i; simpl; [reflexivity|].
  now rewrite IH.
Qed.

Lemma mapi_nth {A B : Type} (f : A -> nat -> B) (i k : nat) (l : list A) (y : B) :
  nth_error (mapi f i l) k = Some y ->
  exists x, nth_error l k = Some x /\ y = f x (i + k)%nat.
Proof.
  revert i k. induction l as [|a l IH]; intros i k H.
  - destruct k; discriminate.
  - destruct k as [|k]; simpl in H.
    + injection H as <-. exists a. now rewrite Nat.add_0_r.
    + apply IH in H as (x & Hx & ->). exists x. split; trivial.
      f_equal. lia.
Qed.

End PolymarketMore.

Section PolymarketEncodings.

Import Polymarket.

Variable JSON_parse : string -> option JsValue.

(** The normaliser sees the two fields only through their decoded values. *)
Lemma normalize_by_decoded (now : string) (m : PolymarketSearchMarket)
    (event : PolymarketSearchEvent) (n1 n2 p1 p2 : RawList) :
  decode JSON_parse n1 = decode JSON_parse n2 ->
  decode JSON_parse p1 = decode JSON_parse p2 ->
  normalizeMarketWithEvent JSON_parse now (with_outcome_data m n1 p1) event
  = normalizeMarketWithEvent JSON_parse now (with_outcome_data m n2 p2) event.
Proof.
  intros En Ep. unfold normalizeMarketWithEvent, tryOutcomes. simpl.
  now rewrite En, Ep.
Qed.

Lemma decode_serialized (s : string) (l : list JsValue) :
  JSON_parse s = Some (JArr l) -> s <> EmptyString ->
  decode JSON_parse (RawString s) = decode JSON_parse (RawArray l).
Proof.
  intros Hp Hs. destruct s as [|a s]; [contradiction|].
  simpl. unfold parse. now rewrite Hp.
Qed.

(** X13.  Names and prices given as JSON text are normalised exactly as the
    same sequences given natively; and for either field, the names or the
    prices, a missing field, an empty string and an empty sequence are
    alike: whatever the other field holds, the market has no outcomes and
    scalar odds 50. *)
Theorem polymarket_encodings_agree (now : string) (m : PolymarketSearchMarket)
    (event : PolymarketSearchEvent) :
  (forall sn sp ln lp,
     JSON_parse sn = Some (JArr ln) -> sn <> EmptyString ->
     JSON_parse sp = Some (JArr lp) -> sp <> EmptyString ->
     normalizeMarketWithEvent JSON_parse now
       (with_outcome_data m (RawString sn) (RawString sp)) event
     = normalizeMarketWithEvent JSON_parse now
         (with_outcome_data m (RawArray ln) (RawArray lp)) event) /\
  (JSON_parse "[]" = Some (JArr []) ->
   forall names prices,
     In names [RawAbsent; RawString ""; RawArray []] \/
     In prices [RawAbsent; RawString ""; RawArray []] ->
     outcomes (normalizeMarketWithEvent JSON_parse now
                 (with_outcome_data m names prices) event) = None /\
     m_odds (normalizeMarketWithEvent JSON_parse now
               (with_outcome_data m names prices) event) = 50).
Proof.
  split.
  - intros sn sp ln lp Hn Hsn Hp Hsp.
    apply normalize_by_decoded; now apply decode_serialized.
  - intros Hempty names prices Hin.
    assert (Hdec : forall f, In f [RawAbsent; RawString ""; RawArray []] ->
                     decode JSON_parse f = Normal (JArr [])).
    { intros f Hf. destruct Hf as [<-|[<-|[<-|[]]]]; simpl; unfold parse;
        rewrite ?Hempty; reflexivity. }
    assert (outcomes (normalizeMarketWithEvent JSON_parse now
                        (with_outcome_data m names prices) event) = None) as Ho.
    { rewrite polymarket_outcomes. unfold tryOutcomes. simpl.
      destruct Hin as [Hin|Hin].
      - rewrite (Hdec names Hin). simpl.
        destruct (decode JSON_parse prices); reflexivity.
      - rewrite (Hdec prices Hin).
        destruct (decode JSON_parse names) as [v|]; [|reflexivity]. simpl.
        destruct (js_length v) as [ln|]; [|reflexivity]. simpl.
        destruct (positive ln); reflexivity. }
    split; [exact Ho | now apply polymarket_default].
Qed.

End PolymarketEncodings.

Lemma polymarket_encodings_agree_witness :
  Polymarket.normalizeMarketWithEvent parse_known "now"
    (with_outcome_data (yes_no_market "0.22" "0.78")
       (Polymarket.RawString (json_strings ["Yes"; "No"]%string))
       (Polymarket.RawString (json_strings ["0.22"; "0.78"]%string))) greenland_event
  = Polymarket.normalizeMarketWithEvent parse_known "now"
      (with_outcome_data (yes_no_market "0.22" "0.78")
         (Polymarket.RawArray [JStr "Yes"; JStr "No"])
         (Polymarket.RawArray [JStr "0.22"; JStr "0.78"])) greenland_event /\
  m_odds (Polymarket.normalizeMarketWithEvent parse_known "now"
            (with_outcome_data (yes_no_market "0.22" "0.78")
               Polymarket.RawAbsent (Polymarket.RawArray [JStr "0.22"]))
            greenland_event) = 50 /\
  outcomes (Polymarket.normalizeMarketWithEvent parse_known "now"
              (with_outcome_data (yes_no_market "0.22" "0.78")
                 (Polymarket.RawArray [JStr "Yes"; JStr "No"])
                 (Polymarket.RawString "")) greenland_event) = None.
Proof.
  destruct (polymarket_encodings_agree parse_known "now"
              (yes_no_market "0.22" "0.78") greenland_event) as (Hser & Habs).
  split; [|split].
  - apply Hser; (reflexivity || discriminate).
  - apply Habs; [reflexivity | left; now left].
  - apply Habs; [reflexivity | right; right; now left].
Defined.

(* ================================================================== *)
(** * Further properties: the aggregator *)
(* ================================================================== *)

Section Aggregation.

Import Aggregator.

Variables polymarketClient betfairClient : MarketClient.
Variables (now query : string) (options : SearchOptions).

(** The locals of [searchAll] after the loop over the settled searches,
    platform by platform. *)
Lemma searchAll_loop :
  fold_left processResult
    ((if isEnabled polymarketClient && targeted (opt_platform options) polymarket
      then [capture polymarket (search polymarketClient query options)] else [])
     ++
     (if isEnabled betfairClient && targeted (opt_platform options) betfair
      then [capture betfair (search betfairClient query options)] else []))
    (mkLocals (mkPlatforms (mkPlatformStatus st_disabled None None)
                           (mkPlatformStatus st_disabled None None)) [] [])
  = mkLocals
      (mkPlatforms (own_status query options polymarket polymarketClient)
                   (own_status query options betfair betfairClient))
      (warning_of polymarket (own_status query options polymarket polymarketClient)
       ++ warning_of betfair (own_status query options betfair betfairClient))
      (contributed query options polymarket polymarketClient
       ++ contributed query options betfair betfairClient).
Proof.
  unfold own_status, contributed, queried.
  destruct (isEnabled polymarketClient && targeted (opt_platform options) polymarket);
    destruct (isEnabled betfairClient && targeted (opt_platform options) betfair);
    simpl;
    try (destruct (search polymarketClient query options) as [ms1|e1]; simpl;
         [|destruct (errorMessage e1); simpl]);
    try (destruct (search betfairClient query options) as [ms2|e2]; simpl;
         [|destruct (errorMessage e2); simpl]);
    rewrite ?app_nil_r; reflexivity.
Qed.

(** The markets of the result, from the merge. *)
Lemma searchAll_markets :
  markets (searchAll polymarketClient betfairClient now query options)
  = let merged := contributed query options polymarket polymarketClient
                  ++ contributed query options betfair betfairClient in
    let filtered :=
      match minVolume options with
      | Some v => if Js.truthy v then Utils.filterByMinVolume merged v else merged
      | None => merged
      end in
    let sorted := Utils.sortMarkets filtered (key_of options) in
    match maxResults options with
    | Some n => if (n =? 0)%Z then sorted else Js.slice0 n sorted
    | None => sorted
    end.
Proof.
  unfold searchAll. cbn [markets]. rewrite searchAll_loop. reflexivity.
Qed.

Lemma searchAll_meta :
  platforms (meta (searchAll polymarketClient betfairClient now query options))
  = mkPlatforms (own_status query options polymarket polymarketClient)
                (own_status query options betfair betfairClient) /\
  warnings (meta (searchAll polymarketClient betfairClient now query options))
  = warning_of polymarket (own_status query options polymarket polymarketClient)
    ++ warning_of betfair (own_status query options betfair betfairClient).
Proof.
  unfold searchAll. cbn [meta platforms warnings]. rewrite searchAll_loop.
  split; reflexivity.
Qed.

End Aggregation.

Lemma firstn_In {A : Type} (n : nat) (l : list A) (x : A) :
  In x (firstn n l) -> In x l.
Proof.
  intros H. rewrite <- (firstn_skipn n l). apply in_or_app. now left.
Qed.

Lemma firstn_StronglySorted {A : Type} (R : A -> A -> Prop) (n : nat) (l : list A) :
  StronglySorted R l -> StronglySorted R (firstn n l).
Proof.
  intros S. revert n. induction S as [|x l S IH Hall]; intros [|n]; simpl;
    try constructor; auto.
  apply Forall_forall. intros y Hy. apply firstn_In in Hy.
  rewrite Forall_forall in Hall. auto.
Qed.

(** [slice(0, n)] keeps a prefix. *)
Lemma slice0_prefix {A : Type} (n : Z) (l : list A) :
  exists k, Js.slice0 n l = firstn k l.
Proof. unfold Js.slice0. destruct (n <? 0)%Z; eauto. Qed.

Lemma sortMarkets_permutation (l : list UnifiedMarket) (k : SortKey) :
  Permutation l (Utils.sortMarkets l k).
Proof. apply Array_sort_permutation. Qed.

Lemma sortMarkets_strongly_sorted (l : list UnifiedMarket) (k : SortKey) :
  StronglySorted (ordered k) (Utils.sortMarkets l k).
Proof.
  pose proof (Array_sort_strongly_sorted (Utils.compareMarkets k)
                (compareMarkets_total k) (compareMarkets_trans k) l) as H.
  unfold Utils.sortMarkets.
  induction H as [|x xs Hs IH Hall]; constructor; trivial.
  eapply Forall_impl; [|exact Hall].
  intros y. apply compareMarkets_ordered.
Qed.

(** X14.  Whatever the clients return and whatever the options, the
    markets of [searchAll] are in the order of the sort key in force
    ([volume] when none is given) and each comes from a platform that was
    searched and resolved; [totalResults] is their number; a [minVolume]
    other than 0 leaves no market below it; a positive [maxResults] is
    never exceeded. *)
Theorem searchAll_result_shape
    (pc bc : Aggregator.MarketClient) (now query : string) (options : SearchOptions) :
  StronglySorted (ordered (key_of options))
    (markets (Aggregator.searchAll pc bc now query options)) /\
  (forall m, In m (markets (Aggregator.searchAll pc bc now query options)) ->
     In m (contributed query options polymarket pc) \/
     In m (contributed query options betfair bc)) /\
  totalResults (meta (Aggregator.searchAll pc bc now query options))
  = List.length (markets (Aggregator.searchAll pc bc now query options)) /\
  (forall v, minVolume options = Some v -> ~ v == 0 ->
     Forall (fun m => v <= volume m)
            (markets (Aggregator.searchAll pc bc now query options))) /\
  (forall n, maxResults options = Some n -> (0 < n)%Z ->
     (Z.of_nat (List.length (markets (Aggregator.searchAll pc bc now query options)))
      <= n)%Z).
Proof.
  assert (totalResults (meta (Aggregator.searchAll pc bc now query options))
          = List.length (markets (Aggregator.searchAll pc bc now query options)))
    as Htotal by reflexivity.
  rewrite Htotal, searchAll_markets. cbv zeta.
  set (merged := contributed query options polymarket pc
                 ++ contributed query options betfair bc).
  set (filtered := match minVolume options with
                   | Some v => if Js.truthy v then Utils.filterByMinVolume merged v
                               else merged
                   | None => merged
                   end).
  set (sorted := Utils.sortMarkets filtered (key_of options)).
  assert (StronglySorted (ordered (key_of options)) sorted) as Hsorted
    by apply sortMarkets_strongly_sorted.
  assert (Permutation filtered sorted) as Hperm by apply sortMarkets_permutation.
  assert (forall m, In m filtered -> In m merged) as Hsub.
  { intros m. unfold filtered. destruct (minVolume options) as [v|]; trivial.
    destruct (Js.truthy v); trivial. unfold Utils.filterByMinVolume.
    intros H. now apply filter_In in H. }
  assert (forall n, maxResults options = Some n -> (0 < n)%Z ->
            (Z.of_nat (List.length
               match maxResults options with
               | Some n => if (n =? 0)%Z then sorted else Js.slice0 n sorted
               | None => sorted
               end) <= n)%Z) as Hcap.
  { intros n Hn Hpos. rewrite Hn.
    assert ((n =? 0)%Z = false) as -> by lia.
    unfold Js.slice0. assert ((n <? 0)%Z = false) as -> by lia.
    pose proof (firstn_le_length (Z.to_nat n) sorted). lia. }
  assert (exists k, match maxResults options with
                    | Some n => if (n =? 0)%Z then sorted else Js.slice0 n sorted
                    | None => sorted
                    end = firstn k sorted) as (k & Ek).
  { destruct (maxResults options) as [n|].
    - destruct (n =? 0)%Z; [|apply slice0_prefix].
      exists (List.length sorted). now rewrite firstn_all.
    - exists (List.length sorted). now rewrite firstn_all. }
  split; [|split; [|split; [reflexivity|split; [|exact Hcap]]]]; rewrite Ek.
  - now apply firstn_StronglySorted.
  - intros m Hm. apply firstn_In in Hm.
    apply (Permutation_in _ (Permutation_sym Hperm)) in Hm.
    apply Hsub in Hm. unfold merged in Hm. now apply in_app_or in Hm.
  - intros v Hv Hnz. apply Forall_forall. intros m Hm. apply firstn_In in Hm.
    apply (Permutation_in _ (Permutation_sym Hperm)) in Hm.
    unfold filtered in Hm. rewrite Hv in Hm.
    apply truthy_nonzero in Hnz. rewrite Hnz in Hm.
    unfold Utils.filterByMinVolume in Hm. apply filter_In in Hm as (_ & Hm).
    now apply geb_le.
Qed.

(** X15.  With no [minVolume] (or 0) and no [maxResults] (or 0) nothing is
    dropped: the markets of [searchAll] are exactly the markets of the
    platforms that resolved, polymarket's and betfair's together,
    rearranged. *)
Theorem searchAll_keeps_everything
    (pc bc : Aggregator.MarketClient) (now query : string) (options : SearchOptions) :
  when_present (fun v => v == 0) (minVolume options) ->
  maxResults options = None \/ maxResults options = Some 0%Z ->
  Permutation
    (contributed query options polymarket pc ++ contributed query options betfair bc)
    (markets (Aggregator.searchAll pc bc now query options)).
Proof.
  intros Hmin Hmax. rewrite searchAll_markets. cbv zeta.
  assert (match minVolume options with
          | Some v =>
              if Js.truthy v
              then Utils.filterByMinVolume
                     (contributed query options polymarket pc
                      ++ contributed query options betfair bc) v
              else contributed query options polymarket pc
                   ++ contributed query options betfair bc
          | None => contributed query options polymarket pc
                    ++ contributed query options betfair bc
          end
          = contributed query options polymarket pc
            ++ contributed query options betfair bc) as ->.
  { destruct (minVolume options) as [v|]; [|reflexivity]. simpl in Hmin.
    destruct (Js.truthy v) eqn:T; [|reflexivity].
    apply truthy_nonzero in T. contradiction. }
  destruct Hmax as [-> | ->]; apply sortMarkets_permutation.
Qed.

Lemma searchAll_keeps_everything_witness :
  Permutation
    (contributed "greenland" no_options polymarket (resolving three_markets)
     ++ contributed "greenland" no_options betfair (resolving two_markets))
    (markets (Aggregator.searchAll (resolving three_markets) (resolving two_markets)
                "now" "greenland" no_options)).
Proof.
  apply searchAll_keeps_everything; [exact I | now left].
Defined.

(** X16.  A client that is disabled, or shut out by the platform filter,
    is never searched: its platform stays [disabled], and the whole result
    is the same whatever its [search] would have done. *)
Theorem searchAll_skips_unselected
    (pc bc : Aggregator.MarketClient) (now query : string) (options : SearchOptions)
    (f : string -> SearchOptions -> Aggregator.Settled) :
  (queried options betfair bc = false ->
   p_betfair (platforms (meta (Aggregator.searchAll pc bc now query options)))
   = mkPlatformStatus st_disabled None None /\
   Aggregator.searchAll pc bc now query options
   = Aggregator.searchAll pc (Aggregator.mkClient (Aggregator.isEnabled bc) f)
       now query options) /\
  (queried options polymarket pc = false ->
   p_polymarket (platforms (meta (Aggregator.searchAll pc bc now query options)))
   = mkPlatformStatus st_disabled None None /\
   Aggregator.searchAll pc bc now query options
   = Aggregator.searchAll (Aggregator.mkClient (Aggregator.isEnabled pc) f) bc
       now query options).
Proof.
  unfold queried. split; intros Hq.
  - split.
    + destruct (searchAll_meta pc bc now query options) as (-> & _).
      cbn [p_betfair]. unfold own_status, queried. now rewrite Hq.
    + unfold Aggregator.searchAll. cbn [Aggregator.isEnabled]. now rewrite Hq.
  - split.
    + destruct (searchAll_meta pc bc now query options) as (-> & _).
      cbn [p_polymarket]. unfold own_status, queried. now rewrite Hq.
    + unfold Aggregator.searchAll. cbn [Aggregator.isEnabled]. now rewrite Hq.
Qed.

Lemma searchAll_skips_unselected_witness :
  p_polymarket (platforms (meta (Aggregator.searchAll (resolving three_markets)
                                   (resolving two_markets) "now" "greenland"
                                   betfair_only)))
  = mkPlatformStatus st_disabled None None /\
  Aggregator.searchAll (resolving three_markets) (resolving two_markets)
    "now" "greenland" betfair_only
  = Aggregator.searchAll
      (Aggregator.mkClient true
         (fun _ _ => Aggregator.Rejected (Aggregator.ErrorObject "down")))
      (resolving two_markets) "now" "greenland" betfair_only.
Proof.
  destruct (searchAll_skips_unselected (resolving three_markets)
              (resolving two_markets) "now" "greenland" betfair_only
              (fun _ _ => Aggregator.Rejected (Aggregator.ErrorObject "down")))
    as (_ & H).
  apply H. reflexivity.
Defined.

(** X17.  Each platform's status depends on its own client alone:
    [disabled] when the client is not searched, [success] with the number
    of markets it resolved with (counted before any filter or cap),
    [error] with the message when it rejected with a message that is not
    empty.  The warnings are exactly one line per [error] status,
    polymarket's before betfair's, of the form "platform: message". *)
Theorem searchAll_statuses
    (pc bc : Aggregator.MarketClient) (now query : string) (options : SearchOptions)
    (p : Platform) :
  let c := match p with polymarket => pc | betfair => bc end in
  let res := Aggregator.searchAll pc bc now query options in
  (queried options p c = false ->
   status_of (platforms (meta res)) p = mkPlatformStatus st_disabled None None) /\
  (forall ms, queried options p c = true ->
     Aggregator.search c query options = Aggregator.Resolved ms ->
     status_of (platforms (meta res)) p
     = mkPlatformStatus st_success (Some (List.length ms)) None) /\
  (forall e, queried options p c = true ->
     Aggregator.search c query options = Aggregator.Rejected e ->
     Aggregator.errorMessage e <> EmptyString ->
     status_of (platforms (meta res)) p
     = mkPlatformStatus st_error None (Some (Aggregator.errorMessage e))) /\
  warnings (meta res)
  = warning_of polymarket (p_polymarket (platforms (meta res)))
    ++ warning_of betfair (p_betfair (platforms (meta res))).
Proof.
  intros c res.
  destruct (searchAll_meta pc bc now query options) as (Ep & Ew).
  fold res in Ep, Ew. rewrite Ew, Ep. cbn [p_polymarket p_betfair].
  assert (status_of (mkPlatforms (own_status query options polymarket pc)
                                 (own_status query options betfair bc)) p
          = own_status query options p c) as -> by (destruct p; reflexivity).
  unfold own_status. split; [|split; [|split]].
  - intros ->. reflexivity.
  - intros ms -> ->. reflexivity.
  - intros e -> -> Hne.
    destruct (Aggregator.errorMessage e); [contradiction | reflexivity].
  - reflexivity.
Qed.

Lemma searchAll_statuses_witness :
  status_of (platforms (meta (Aggregator.searchAll (resolving three_markets)
                                (rejecting (Aggregator.ErrorObject "down"))
                                "now" "greenland" no_options))) betfair
  = mkPlatformStatus st_error None (Some "down"%string).
Proof.
  destruct (searchAll_statuses (resolving three_markets)
              (rejecting (Aggregator.ErrorObject "down"))
              "now" "greenland" no_options betfair) as (_ & _ & H & _).
  apply (H (Aggregator.ErrorObject "down")); [reflexivity | reflexivity | discriminate].
Defined.

(* ================================================================== *)
(** * Further properties: Polymarket search *)
(* ================================================================== *)

Lemma slice0_length_le {A : Type} (n : Z) (l : list A) :
  (0 <= n)%Z -> (Z.of_nat (List.length (Js.slice0 n l)) <= n)%Z.
Proof.
  intros H. unfold Js.slice0. assert ((n <? 0)%Z = false) as -> by lia.
  pose proof (firstn_le_length (Z.to_nat n) l). lia.
Qed.

Lemma Array_sort_descending_volume (l : list UnifiedMarket) :
  StronglySorted (fun a b => volume b <= volume a)
                 (Js.Array_sort (fun a b => volume b - volume a) l).
Proof.
  assert (StronglySorted (Js.before (fun a b => volume b - volume a))
            (Js.Array_sort (fun a b => volume b - volume a) l)) as H.
  { apply Array_sort_strongly_sorted; unfold Js.before; intros; lra. }
  induction H as [|x xs Hs IH Hall]; constructor; trivial.
  eapply Forall_impl; [|exact Hall]. unfold Js.before. intros; lra.
Qed.

Lemma marketOfEvent_platform (JSON_parse : string -> option JsValue)
    (now : string) (entry : PolymarketSearch.EventEntry) :
  platform (PolymarketSearch.marketOfEvent JSON_parse now entry) = polymarket.
Proof.
  unfold PolymarketSearch.marketOfEvent.
  destruct (PolymarketSearch.entry_markets entry) as [[|m ms]|]; try reflexivity.
  unfold Polymarket.normalizeMarketWithEvent.
  destruct (Polymarket.tryOutcomes JSON_parse m) as [[os|]|]; reflexivity.
Qed.

(** X18.  When Polymarket's [search] resolves, its markets are sorted by
    [volume] descending, all tagged polymarket, and each the market of one
    event of the payload.  Their number is the number of events, capped:
    at [maxResults] when a positive [maxResults] is given, at 50 when none
    or 0 is given.  A disabled client resolves with no market, whatever the
    page. *)
Theorem polymarket_search_resolved
    (JSON_parse : string -> option JsValue) (enabled : bool) (now : string)
    (page : PolymarketSearch.SearchPage) (options : SearchOptions)
    (ms : list UnifiedMarket) :
  PolymarketSearch.search JSON_parse enabled now page options
    = Aggregator.Resolved ms ->
  StronglySorted (fun a b => volume b <= volume a) ms /\
  Forall (fun m => platform m = polymarket) ms /\
  (enabled = false -> ms = []) /\
  (forall pages, enabled = true -> page = PolymarketSearch.Pages pages ->
     Forall (fun m => exists entry,
                        In entry (PolymarketSearch.eventsOfPages pages) /\
                        m = PolymarketSearch.marketOfEvent JSON_parse now entry) ms /\
     (forall n, maxResults options = Some n -> (0 < n)%Z ->
        List.length ms
        = Nat.min (Z.to_nat n) (List.length (PolymarketSearch.eventsOfPages pages))) /\
     (maxResults options = None \/ maxResults options = Some 0%Z ->
        List.length ms
        = Nat.min 50 (List.length (PolymarketSearch.eventsOfPages pages)))).
Proof.
  unfold PolymarketSearch.search. destruct enabled; simpl.
  2:{ intros H. injection H as <-.
      split; [constructor|]. split; [constructor|]. split; [reflexivity|].
      intros; discriminate. }
  destruct page as [e|status| |pages]; try discriminate.
  intros H. injection H as <-.
  set (all := map (PolymarketSearch.marketOfEvent JSON_parse now)
                  (PolymarketSearch.eventsOfPages pages)).
  set (sorted := Js.Array_sort (fun a b => volume b - volume a) all).
  destruct (slice0_prefix (PolymarketSearch.limit options) sorted) as (k & Ek).
  assert (forall m, In m (Js.slice0 (PolymarketSearch.limit options) sorted) ->
                    In m all) as Hin.
  { intros m Hm. rewrite Ek in Hm. apply firstn_In in Hm.
    eapply Permutation_in; [apply Permutation_sym, Array_sort_permutation|].
    exact Hm. }
  assert (Hlen : List.length sorted
                 = List.length (PolymarketSearch.eventsOfPages pages)).
  { unfold sorted. rewrite <- (Permutation_length (Array_sort_permutation _ all)).
    apply length_map. }
  assert (Hcap : forall c, (0 < c)%Z -> PolymarketSearch.limit options = c ->
            List.length (Js.slice0 (PolymarketSearch.limit options) sorted)
            = Nat.min (Z.to_nat c) (List.length (PolymarketSearch.eventsOfPages pages))).
  { intros c Hc ->. unfold Js.slice0.
    assert ((c <? 0)%Z = false) as -> by lia.
    now rewrite length_firstn, Hlen. }
  split; [|split; [|split]].
  - rewrite Ek. apply firstn_StronglySorted, Array_sort_descending_volume.
  - apply Forall_forall. intros m Hm. apply Hin in Hm.
    apply in_map_iff in Hm as (entry & <- & _). apply marketOfEvent_platform.
  - discriminate.
  - intros pages' _ E. injection E as <-. split; [|split].
    + apply Forall_forall. intros m Hm.
      apply Hin in Hm. apply in_map_iff in Hm as (entry & <- & He). eauto.
    + intros n Hn Hpos. apply Hcap; [exact Hpos|].
      unfold PolymarketSearch.limit. rewrite Hn.
      assert ((n =? 0)%Z = false) as -> by lia. reflexivity.
    + intros Hnone. apply (Hcap 50%Z); [lia|].
      unfold PolymarketSearch.limit. destruct Hnone as [-> | ->]; reflexivity.
Qed.

Lemma polymarket_search_resolved_witness :
  exists ms,
    PolymarketSearch.search parse_empty_array true "now" search_pages top_one
      = Aggregator.Resolved ms /\
    map volume ms = [900000] /\
    List.length ms
    = Nat.min (Z.to_nat 1)
        (List.length (PolymarketSearch.eventsOfPages
                        [PolymarketSearch.mkPage (Some [greenland_entry; bare_entry]);
                         PolymarketSearch.mkPage None])).
Proof.
  eexists. split; [reflexivity|]. split; [reflexivity|].
  destruct (polymarket_search_resolved parse_empty_array true "now" search_pages
              top_one _ eq_refl) as (_ & _ & _ & H).
  destruct (H _ eq_refl eq_refl) as (_ & Hn & _).
  apply (Hn 1%Z); [reflexivity | lia].
Defined.

(** A rejection with a message that is not empty, of either platform:
    error status, warning, and no market of that platform in the result. *)
Lemma rejection_reported
    (pc bc : Aggregator.MarketClient) (now query : string) (options : SearchOptions)
    (p : Platform) (e : Aggregator.Thrown) :
  let c := match p with polymarket => pc | betfair => bc end in
  let other := match p with polymarket => betfair | betfair => polymarket end in
  let oc := match p with polymarket => bc | betfair => pc end in
  queried options p c = true ->
  Aggregator.search c query options = Aggregator.Rejected e ->
  Aggregator.errorMessage e <> EmptyString ->
  status_of (platforms (meta (Aggregator.searchAll pc bc now query options))) p
  = mkPlatformStatus st_error None (Some (Aggregator.errorMessage e)) /\
  In (platform_name p ++ ": " ++ Aggregator.errorMessage e)%string
     (warnings (meta (Aggregator.searchAll pc bc now query options))) /\
  forall m, In m (markets (Aggregator.searchAll pc bc now query options)) ->
            In m (contributed query options other oc).
Proof.
  intros c other oc Hq Hs Hne.
  assert (own_status query options p c
          = mkPlatformStatus st_error None (Some (Aggregator.errorMessage e))) as Eo.
  { unfold own_status. rewrite Hq, Hs.
    destruct (Aggregator.errorMessage e); [contradiction | reflexivity]. }
  assert (contributed query options p c = []) as Ec.
  { unfold contributed. now rewrite Hq, Hs. }
  destruct (searchAll_meta pc bc now query options) as (Ep & Ew).
  rewrite Ep, Ew. split; [|split].
  - destruct p; exact Eo.
  - apply in_or_app. destruct p; [left|right]; subst c; rewrite Eo; now left.
  - intros x Hx. rewrite searchAll_markets in Hx. cbv zeta in Hx.
    assert (forall l, In x match maxResults options with
                           | Some n => if (n =? 0)%Z then l else Js.slice0 n l
                           | None => l
                           end -> In x l) as Hcap.
    { intros l. destruct (maxResults options) as [n|]; trivial.
      destruct (n =? 0)%Z; trivial.
      destruct (slice0_prefix n l) as (k & ->). apply firstn_In. }
    apply Hcap in Hx.
    eapply Permutation_in in Hx; [|apply Permutation_sym, sortMarkets_permutation].
    assert (In x (contributed query options polymarket pc
                  ++ contributed query options betfair bc)) as Hm.
    { destruct (minVolume options) as [v|]; trivial.
      destruct (Js.truthy v); trivial.
      unfold Utils.filterByMinVolume in Hx. now apply filter_In in Hx. }
    apply in_app_or in Hm. destruct p; subst c other oc; rewrite Ec in Hm;
      destruct Hm as [Hm|Hm]; trivial; contradiction.
Qed.

(** X19.  A failure Polymarket's client raises itself (a response that is
    not OK, a page without its data block) reaches the aggregated result
    as an [error] status with the client's message and as a warning, and
    costs betfair's markets nothing: every market returned is betfair's. *)
Theorem polymarket_failure_reported
    (JSON_parse : string -> option JsValue) (now : string)
    (fetched : string -> PolymarketSearch.SearchPage)
    (bc : Aggregator.MarketClient) (query : string) (options : SearchOptions)
    (message : string) :
  Aggregator.targeted (opt_platform options) polymarket = true ->
  (exists status,
     fetched query = PolymarketSearch.ResponseNotOk status /\
     message = ("Polymarket search failed: "
                ++ NilZero.string_of_int (Z.to_int status))%string) \/
  (fetched query = PolymarketSearch.NoNextData /\
   message = "Could not find __NEXT_DATA__ in Polymarket response"%string) ->
  let res := Aggregator.searchAll
               (PolymarketSearch.client JSON_parse true now fetched) bc
               now query options in
  p_polymarket (platforms (meta res))
  = mkPlatformStatus st_error None (Some message) /\
  In ("polymarket: " ++ message)%string (warnings (meta res)) /\
  forall m, In m (markets res) -> In m (contributed query options betfair bc).
Proof.
  intros Ht Hfail res.
  set (pc := PolymarketSearch.client JSON_parse true now fetched) in *.
  assert (Aggregator.search pc query options
          = Aggregator.Rejected (Aggregator.ErrorObject message)) as Hs.
  { unfold pc, PolymarketSearch.client, PolymarketSearch.search. simpl.
    destruct Hfail as [(status & -> & ->) | (-> & ->)]; reflexivity. }
  assert (message <> EmptyString) as Hne.
  { destruct Hfail as [(status & _ & ->) | (_ & ->)]; discriminate. }
  apply (rejection_reported pc bc now query options polymarket
           (Aggregator.ErrorObject message));
    [unfold queried; simpl; exact Ht | exact Hs | exact Hne].
Qed.

Lemma polymarket_failure_reported_witness :
  p_polymarket
    (platforms (meta (Aggregator.searchAll
                        (PolymarketSearch.client parse_empty_array true "now"
                           (fun _ => PolymarketSearch.ResponseNotOk 503))
                        (resolving two_markets) "now" "greenland" no_options)))
  = mkPlatformStatus st_error None (Some "Polymarket search failed: 503"%string).
Proof.
  destruct (polymarket_failure_reported parse_empty_array "now"
              (fun _ => PolymarketSearch.ResponseNotOk 503)
              (resolving two_markets) "greenland" no_options
              "Polymarket search failed: 503") as (H & _).
  - reflexivity.
  - left. exists 503%Z. split; reflexivity.
  - exact H.
Defined.

(* ================================================================== *)
(** * Further properties: the Betfair session *)
(* ================================================================== *)

Section Session.

Import BetfairSession.

Lemma present_some (s : string) :
  present (Some s) = true <-> s <> EmptyString.
Proof.
  destruct s; simpl; split; intros H; try discriminate; trivial.
  now contradiction H.
Qed.

Lemma login_credentials (cl : Client) (reply : LoginReply) (t : Z) :
  Js.truthy_str (appKey cl) = true -> Js.truthy_str (username cl) = true ->
  Js.truthy_str (password cl) = true ->
  login cl reply t =
  match reply with
  | LoginSucceeded token =>
      (true, mkClient (appKey cl) (username cl) (password cl) (enabled cl)
               (Some token) (Some (t + SESSION_MS)%Z) (gbpToUsdRate cl) (lastError cl))
  | LoginFailed => (false, cl)
  end.
Proof. intros Ha Hu Hp. unfold login. now rewrite Ha, Hu, Hp. Qed.

(** X20.  A session token is reused for 15 minutes and no longer: after a
    successful login at time [t0], [ensureAuth] answers true without
    logging in (whatever the SSO endpoint would reply) at every time before
    [t0] + 900000 ms, and logs in again at every later time.  A login that
    succeeds with an empty token is never reused. *)
Theorem session_reused_until_expiry (cl : Client) (token : string) (t0 : Z) :
  fst (login cl (LoginSucceeded token) t0) = true ->
  let cl1 := snd (login cl (LoginSucceeded token) t0) in
  (token <> EmptyString ->
   forall t reply t', (t < t0 + 900000)%Z ->
     ensureAuth cl1 t reply t' = (true, cl1)) /\
  (forall t reply t', (t0 + 900000 <= t)%Z ->
     ensureAuth cl1 t reply t' = login cl1 reply t') /\
  (token = EmptyString ->
   forall t reply t', ensureAuth cl1 t reply t' = login cl1 reply t').
Proof.
  unfold login.
  destruct (negb (Js.truthy_str (appKey cl)) || negb (Js.truthy_str (username cl))
            || negb (Js.truthy_str (password cl))); [discriminate|].
  intros _. cbn [snd]. unfold ensureAuth, sessionFresh. cbn [sessionToken tokenExpiry].
  change SESSION_MS with 900000%Z.
  split; [|split].
  - intros Hne t reply t' Ht. apply present_some in Hne. rewrite Hne.
    assert ((t <? t0 + 900000)%Z = true) as -> by lia. reflexivity.
  - intros t reply t' Ht.
    assert ((t <? t0 + 900000)%Z = false) as -> by lia.
    now rewrite andb_false_r.
  - intros -> t reply t'. reflexivity.
Qed.

Lemma session_reused_until_expiry_witness :
  ensureAuth (snd (login fresh_client (LoginSucceeded "tok") 1000)) 900999
             LoginFailed 901000
  = (true, snd (login fresh_client (LoginSucceeded "tok") 1000)) /\
  fst (ensureAuth (snd (login fresh_client (LoginSucceeded "tok") 1000)) 901000
                  LoginFailed 901000) = false.
Proof.
  destruct (session_reused_until_expiry fresh_client "tok" 1000 eq_refl)
    as (Hfresh & Hstale & _).
  split.
  - apply Hfresh; [discriminate | reflexivity].
  - rewrite Hstale; [reflexivity | discriminate].
Defined.

(** X21.  A client is enabled exactly when the configuration does not
    disable it and gives an application key, a user name and a password
    that are not empty.  So an enabled client never fails a login for
    missing credentials: its first [ensureAuth] succeeds exactly when the
    SSO endpoint accepts the login. *)
Theorem enabled_has_credentials (config : BetfairConfig) (rate : Q) :
  (enabled (construct config rate) = true <->
   cfg_enabled config <> Some false /\
   present (cfg_appKey config) = true /\
   present (cfg_username config) = true /\
   present (cfg_password config) = true) /\
  (enabled (construct config rate) = true ->
   forall t reply t',
     fst (ensureAuth (construct config rate) t reply t') = true <->
     exists token, reply = LoginSucceeded token).
Proof.
  assert (enabled (construct config rate) = true <->
          cfg_enabled config <> Some false /\
          present (cfg_appKey config) = true /\
          present (cfg_username config) = true /\
          present (cfg_password config) = true) as Hen.
  { unfold construct. cbn [enabled]. rewrite !andb_true_iff.
    destruct (cfg_enabled config) as [[|]|]; intuition (try discriminate; congruence). }
  split; [exact Hen|].
  intros He t reply t'. apply Hen in He as (_ & Ha & Hu & Hp).
  assert (forall s, present s = true -> Js.truthy_str (Js.or_str s "") = true) as Hor.
  { intros [s|]; simpl; [|discriminate]. intros H. now rewrite H. }
  unfold ensureAuth, sessionFresh. cbn [construct sessionToken present andb].
  rewrite login_credentials by (cbn [construct appKey username password]; auto).
  destruct reply; cbn [fst]; split; intros H; eauto; try discriminate.
  destruct H as (token & H). discriminate.
Qed.

Lemma enabled_has_credentials_witness :
  fst (ensureAuth fresh_client 0 (LoginSucceeded "tok") 5) = true.
Proof.
  destruct (enabled_has_credentials full_config (127 # 100)) as (_ & H).
  apply H; [reflexivity | eauto].
Defined.

End Session.

(* ================================================================== *)
(** * Further properties: Betfair search *)
(* ================================================================== *)

Section BetfairSearchFacts.

Import BetfairSession.

Variables (cl : Client) (now : string) (checked : Z) (reply : LoginReply) (loggedIn : Z).
Variable catalogueResponse : CatalogueResponse.
Variable booksResponse : BooksResponse.

Lemma normalizeMarket_no_book (rate : Q) (c : Betfair.BetfairMarketCatalogue) :
  outcomes (Betfair.normalizeMarket rate now c None) = None /\
  m_odds (Betfair.normalizeMarket rate now c None) = 0 /\
  status (Betfair.normalizeMarket rate now c None) = unknown.
Proof. repeat split. Qed.

Lemma normalizeMarket_identity (rate : Q) (c : Betfair.BetfairMarketCatalogue)
    (book : option Betfair.BetfairMarketBook) :
  platform (Betfair.normalizeMarket rate now c book) = betfair /\
  id (Betfair.normalizeMarket rate now c book) = Betfair.marketId c.
Proof.
  unfold Betfair.normalizeMarket.
  destruct book as [b|]; [destruct (Betfair.runners b)|]; split; reflexivity.
Qed.

(** Of several books with one market id the lookup map keeps the last. *)
Lemma bookFor_last (books : list Betfair.BetfairMarketBook) (mid : string) :
  last_book_with books mid (bookFor books mid).
Proof.
  unfold bookFor. induction books as [|x l IH] using rev_ind; [constructor|].
  rewrite rev_app_distr. cbn [rev app find].
  destruct (Betfair.b_marketId x =? mid)%string eqn:E.
  - apply String.eqb_eq in E. exists l, []. repeat split; [exact E | constructor].
  - apply String.eqb_neq in E.
    destruct (find (fun b => (Betfair.b_marketId b =? mid)%string) (rev l)) as [b|].
    + destruct IH as (before & after & -> & Hb & Hafter).
      exists before, (after ++ [x]). split; [now rewrite <- app_assoc|].
      split; [exact Hb|]. apply Forall_app. split; [exact Hafter|].
      constructor; [exact E | constructor].
    + cbn [last_book_with] in *. apply Forall_app. split; [exact IH|].
      constructor; [exact E | constructor].
Qed.

(** X22.  When Betfair's [search] resolves: a disabled client gives no
    market and keeps its state, without logging in; an enabled one was
    authenticated and gives one market per catalogue entry, in the
    catalogue's order, each tagged betfair with the entry's market id, and
    normalised with the last book of the response that carries that id, or
    with no book when none carries it.  When the book request is refused
    every market comes back without outcomes, with odds 0 and status
    unknown. *)
Theorem betfair_search_resolved (ms : list UnifiedMarket) (cl' : Client) :
  search cl now checked reply loggedIn catalogueResponse booksResponse
    = (Aggregator.Resolved ms, cl') ->
  (enabled cl = false -> ms = [] /\ cl' = cl) /\
  (enabled cl = true ->
   ensureAuth cl checked reply loggedIn = (true, cl') /\
   exists catalogues,
     catalogueResponse = CatalogueOk catalogues /\
     map id ms = map Betfair.marketId catalogues /\
     Forall (fun m => platform m = betfair) ms /\
     (forall books, booksResponse = BooksOk books -> catalogues <> [] ->
        exists pick,
          ms = map (fun c => Betfair.normalizeMarket (gbpToUsdRate cl') now c (pick c))
                   catalogues /\
          forall c, last_book_with books (Betfair.marketId c) (pick c)) /\
     (booksResponse = BooksNotOk ->
        Forall (fun m => outcomes m = None /\ m_odds m = 0 /\ status m = unknown) ms)).
Proof.
  unfold search. destruct (enabled cl); simpl.
  2:{ intros H. injection H as <- <-. split; [auto | discriminate]. }
  destruct (ensureAuth cl checked reply loggedIn) as [authed cl1].
  destruct authed; simpl; [|discriminate].
  intros H. split; [discriminate|]. intros _.
  assert (forall (f : Betfair.BetfairMarketCatalogue -> option Betfair.BetfairMarketBook)
                 (cs : list Betfair.BetfairMarketCatalogue),
            map id (map (fun c => Betfair.normalizeMarket (gbpToUsdRate cl1) now c (f c)) cs)
            = map Betfair.marketId cs /\
            Forall (fun m => platform m = betfair)
                   (map (fun c => Betfair.normalizeMarket (gbpToUsdRate cl1) now c (f c)) cs))
    as Hmap.
  { intros f cs. induction cs as [|c cs (IH1 & IH2)]; [split; constructor|].
    destruct (normalizeMarket_identity (gbpToUsdRate cl1) c (f c)) as (Hp & Hi).
    split; [cbn [map]; now rewrite Hi, IH1 | now constructor]. }
  destruct catalogueResponse as [e|st stText body|cats]; try discriminate.
  { destruct (catalogueFailure cl1 st stText body). discriminate. }
  destruct cats as [|c cats].
  { injection H as <- <-. split; [reflexivity|]. exists [].
    split; [reflexivity|]. split; [reflexivity|]. split; [constructor|].
    split; [|intros _; constructor].
    intros books _ Hne. now contradiction Hne. }
  destruct booksResponse as [e|  |books]; try discriminate.
  - injection H as <- <-. split; [reflexivity|]. exists (c :: cats).
    destruct (Hmap (fun c => bookFor [] (Betfair.marketId c)) (c :: cats))
      as (Hid & Hpl).
    split; [reflexivity|]. split; [exact Hid|]. split; [exact Hpl|].
    split; [discriminate|].
    intros _. apply Forall_forall. intros m Hm.
    change (In m (map (fun c => Betfair.normalizeMarket (gbpToUsdRate cl1) now c
                                  (bookFor [] (Betfair.marketId c))) (c :: cats)))
      in Hm.
    apply in_map_iff in Hm as (c' & <- & _). apply normalizeMarket_no_book.
  - injection H as <- <-. split; [reflexivity|]. exists (c :: cats).
    destruct (Hmap (fun c => bookFor books (Betfair.marketId c)) (c :: cats))
      as (Hid & Hpl).
    split; [reflexivity|]. split; [exact Hid|]. split; [exact Hpl|].
    split; [|discriminate].
    intros books' E _. injection E as <-.
    exists (fun c => bookFor books (Betfair.marketId c)).
    split; [reflexivity | intro c'; apply bookFor_last].
Qed.

(** X23.  Every failure Betfair's [search] raises itself carries a message
    that is not empty, and except for an unreadable error body the client
    remembers it as its last error: "Betfair authentication failed" when
    [ensureAuth] fails, the app-key message when the exchange answers
    [INVALID_APP_KEY], and "Betfair API error: status text" for any other
    response that is not OK. *)
Theorem betfair_search_failure (e : Aggregator.Thrown) (cl' : Client) :
  enabled cl = true ->
  search cl now checked reply loggedIn catalogueResponse booksResponse
    = (Aggregator.Rejected e, cl') ->
  (fst (ensureAuth cl checked reply loggedIn) = false ->
   e = Aggregator.ErrorObject "Betfair authentication failed" /\
   lastError cl' = Some "Betfair authentication failed"%string) /\
  (forall st stText body,
     fst (ensureAuth cl checked reply loggedIn) = true ->
     catalogueResponse = CatalogueNotOk st stText body ->
     Aggregator.errorMessage e <> EmptyString /\
     (body = BodyCode (Some "INVALID_APP_KEY"%string) ->
      e = Aggregator.ErrorObject APP_KEY_REJECTED /\
      lastError cl' = Some APP_KEY_REJECTED) /\
     (forall code, body = BodyCode code -> code <> Some "INVALID_APP_KEY"%string ->
      e = Aggregator.ErrorObject
            ("Betfair API error: " ++ NilZero.string_of_int (Z.to_int st)
             ++ " " ++ stText)%string /\
      lastError cl' = Some (Aggregator.errorMessage e))).
Proof.
  intros He. unfold search. rewrite He. simpl.
  destruct (ensureAuth cl checked reply loggedIn) as [authed cl1].
  destruct authed; simpl.
  - intros H. split; [discriminate|]. intros st stText body _ Ec.
    rewrite Ec in H.
    destruct (catalogueFailure cl1 st stText body) as [e2 cl2] eqn:F.
    injection H as <- <-. unfold catalogueFailure in F.
    split; [|split].
    + destruct body as [[code|]|msg].
      * destruct (code =? "INVALID_APP_KEY")%string; injection F as <- _; discriminate.
      * injection F as <- _. discriminate.
      * destruct (includes msg "App key rejected") eqn:I.
        -- injection F as <- _. simpl. intros ->. discriminate.
        -- injection F as <- _. discriminate.
    + intros ->. simpl in F. injection F as <- <-. split; reflexivity.
    + intros code -> Hcode. destruct code as [code|].
      * destruct (code =? "INVALID_APP_KEY")%string eqn:E.
        -- apply String.eqb_eq in E. subst. now contradiction Hcode.
        -- injection F as <- <-. split; reflexivity.
      * injection F as <- <-. split; reflexivity.
  - intros H. injection H as <- <-. split; [|discriminate].
    intros _. split; reflexivity.
Qed.

End BetfairSearchFacts.

Lemma betfair_search_resolved_witness :
  exists ms cl' pick,
    BetfairSession.search fresh_client "now" 0 (BetfairSession.LoginSucceeded "tok") 5
      (BetfairSession.CatalogueOk two_catalogues)
      (BetfairSession.BooksOk [two_runner_book; stale_book])
    = (Aggregator.Resolved ms, cl') /\
    map id ms = ["1.234"; "1.999"]%string /\
    map status ms = [closed; unknown] /\
    ms = map (fun c => Betfair.normalizeMarket (BetfairSession.gbpToUsdRate cl')
                         "now" c (pick c)) two_catalogues /\
    last_book_with [two_runner_book; stale_book] "1.234" (pick winner_catalogue).
Proof.
  destruct (betfair_search_resolved fresh_client "now" 0
              (BetfairSession.LoginSucceeded "tok") 5
              (BetfairSession.CatalogueOk two_catalogues)
              (BetfairSession.BooksOk [two_runner_book; stale_book]) _ _ eq_refl)
    as (_ & H).
  destruct (H eq_refl) as (_ & cats & Ec & Hid & _ & Hbooks & _).
  injection Ec as <-.
  destruct (Hbooks _ eq_refl ltac:(discriminate)) as (pick & Hms & Hlast).
  eexists _, _, pick. split; [reflexivity|]. split; [exact Hid|].
  split; [reflexivity|]. split; [exact Hms | apply Hlast].
Defined.

Lemma betfair_search_failure_witness :
  exists e cl',
    BetfairSession.search fresh_client "now" 0 BetfairSession.LoginFailed 5
      (BetfairSession.CatalogueOk two_catalogues) BetfairSession.BooksNotOk
    = (Aggregator.Rejected e, cl') /\
    e = Aggregator.ErrorObject "Betfair authentication failed" /\
    BetfairSession.lastError cl' = Some "Betfair authentication failed"%string.
Proof.
  eexists _, _. split; [reflexivity|].
  destruct (betfair_search_failure fresh_client "now" 0 BetfairSession.LoginFailed 5
              (BetfairSession.CatalogueOk two_catalogues) BetfairSession.BooksNotOk
              _ _ eq_refl eq_refl) as (H & _).
  apply H. reflexivity.
Defined.

(** X24.  When Betfair cannot authenticate, the aggregated result says so:
    betfair's status is [error] with "Betfair authentication failed", the
    warnings carry that line, and every market returned is polymarket's. *)
Theorem betfair_auth_failure_reported
    (pc : Aggregator.MarketClient) (cl : BetfairSession.Client) (now : string)
    (checked : Z) (reply : BetfairSession.LoginReply) (loggedIn : Z)
    (catalogueResponse : string -> BetfairSession.CatalogueResponse)
    (booksResponse : string -> BetfairSession.BooksResponse)
    (query : string) (options : SearchOptions) :
  BetfairSession.enabled cl = true ->
  Aggregator.targeted (opt_platform options) betfair = true ->
  fst (BetfairSession.ensureAuth cl checked reply loggedIn) = false ->
  let res := Aggregator.searchAll pc
               (betfair_market_client cl now checked reply loggedIn
                  catalogueResponse booksResponse)
               now query options in
  p_betfair (platforms (meta res))
  = mkPlatformStatus st_error None (Some "Betfair authentication failed"%string) /\
  In "betfair: Betfair authentication failed"%string (warnings (meta res)) /\
  forall m, In m (markets res) -> In m (contributed query options polymarket pc).
Proof.
  intros He Ht Hauth res.
  set (bc := betfair_market_client cl now checked reply loggedIn
               catalogueResponse booksResponse) in *.
  assert (Aggregator.search bc query options
          = Aggregator.Rejected
              (Aggregator.ErrorObject "Betfair authentication failed")) as Hs.
  { unfold bc, betfair_market_client, BetfairSession.search. cbn [Aggregator.search].
    rewrite He. cbn [negb].
    destruct (BetfairSession.ensureAuth cl checked reply loggedIn) as [authed cl1].
    cbn [fst] in Hauth. subst authed. reflexivity. }
  apply (rejection_reported pc bc now query options betfair
           (Aggregator.ErrorObject "Betfair authentication failed"));
    [|exact Hs|discriminate].
  unfold queried, bc, betfair_market_client. cbn [Aggregator.isEnabled].
  now rewrite He, Ht.
Qed.

Lemma betfair_auth_failure_reported_witness :
  p_betfair
    (platforms (meta (Aggregator.searchAll (resolving three_markets)
                        (betfair_market_client fresh_client "now" 0
                           BetfairSession.LoginFailed 5
                           (fun _ => BetfairSession.CatalogueOk two_catalogues)
                           (fun _ => BetfairSession.BooksNotOk))
                        "now" "greenland" no_options)))
  = mkPlatformStatus st_error None (Some "Betfair authentication failed"%string).
Proof.
  destruct (betfair_auth_failure_reported (resolving three_markets) fresh_client
              "now" 0 BetfairSession.LoginFailed 5
              (fun _ => BetfairSession.CatalogueOk two_catalogues)
              (fun _ => BetfairSession.BooksNotOk) "greenland" no_options)
    as (H & _); [reflexivity | reflexivity | reflexivity | exact H].
Defined.

(* ================================================================== *)
(** * Further properties: testAuth *)
(* ================================================================== *)

(** X25.  The authentication test always explains a failure: for an
    enabled Betfair client the entry is authenticated exactly when the
    session is valid (or the login succeeds) and the probe is answered OK,
    and otherwise carries an error message that is not empty.  A disabled
    client is reported as neither enabled nor authenticated, with no
    error; polymarket is always reported authenticated. *)
Theorem testAuth_explains_failure (polymarketEnabled : bool)
    (cl : BetfairSession.Client) (checked : Z) (reply : BetfairSession.LoginReply)
    (loggedIn : Z) (probe : AuthTest.ProbeResponse) :
  let res := AuthTest.testAuth polymarketEnabled cl checked reply loggedIn probe in
  AuthTest.a_polymarket res = AuthTest.mkAuthStatus polymarketEnabled true None /\
  (BetfairSession.enabled cl = false ->
   AuthTest.a_betfair res = AuthTest.mkAuthStatus false false None) /\
  (BetfairSession.enabled cl = true ->
   AuthTest.as_enabled (AuthTest.a_betfair res) = true /\
   (AuthTest.authenticated (AuthTest.a_betfair res) = true <->
    fst (BetfairSession.ensureAuth (AuthTest.clearLastError cl) checked reply loggedIn)
      = true /\ probe = AuthTest.ProbeOk) /\
   (AuthTest.authenticated (AuthTest.a_betfair res) = true ->
    AuthTest.as_error (AuthTest.a_betfair res) = None) /\
   (AuthTest.authenticated (AuthTest.a_betfair res) = false ->
    exists a m, AuthTest.as_error (AuthTest.a_betfair res) = Some (String a m))).
Proof.
  intros res. subst res. unfold AuthTest.testAuth.
  destruct (BetfairSession.enabled cl) eqn:He.
  2:{ split; [reflexivity|]. split; [reflexivity | discriminate]. }
  unfold AuthTest.betfairTestAuth. rewrite He. cbn [negb].
  destruct (BetfairSession.ensureAuth (AuthTest.clearLastError cl) checked reply loggedIn)
    as [authed cl1].
  destruct authed; cbn [negb fst].
  - destruct probe as [e|st stText errText body|];
      cbn [AuthTest.a_polymarket AuthTest.a_betfair AuthTest.as_enabled
           AuthTest.authenticated AuthTest.as_error BetfairSession.lastError
           BetfairSession.setLastError];
      (split; [reflexivity|]); (split; [discriminate|]); intros _;
      (split; [reflexivity|]).
    + split; [split; [discriminate | intros (_ & H); discriminate]|].
      split; [discriminate|]. intros _. simpl. eexists _, _. reflexivity.
    + split; [split; [discriminate | intros (_ & H); discriminate]|].
      split; [discriminate|]. intros _.
      unfold AuthTest.probeFailure.
      destruct body as [code|msg]; [|simpl; eexists _, _; reflexivity].
      destruct (match code with
                | Some c => (c =? "INVALID_APP_KEY")%string
                | None => false
                end); simpl; eexists _, _; reflexivity.
    + split; [split; auto|]. split; [reflexivity | discriminate].
  - cbn [AuthTest.a_polymarket AuthTest.a_betfair AuthTest.as_enabled
         AuthTest.authenticated AuthTest.as_error BetfairSession.lastError
         BetfairSession.setLastError].
    split; [reflexivity|]. split; [discriminate|]. intros _.
    split; [reflexivity|].
    split; [split; [discriminate | intros (H & _); discriminate]|].
    split; [discriminate|]. intros _. simpl. eexists _, _. reflexivity.
Qed.

(* ================================================================== *)
(** * Further properties: formatting *)
(* ================================================================== *)

Example format_on_examples :
  Format.formatVolume 13000000 = "$13.0m"%string /\
  Format.formatVolume (1234567 # 1) = "$1.2m"%string /\
  Format.formatVolume 999 = "$999"%string /\
  Format.formatVolume (9999995 # 10) = "$1000.0k"%string /\
  Format.formatVolume (- (4 # 10)) = "$-0"%string /\
  Format.formatVolume 2500000000 = "$2.5b"%string /\
  Format.formatVolume (5 # 100) = "$0"%string /\
  Format.toFixed (5 # 100) 1 = "0.1"%string /\
  Format.toFixed (4 # 100) 1 = "0.0"%string /\
  Format.formatOdds (2198 # 100) = "22%"%string /\
  Format.formatOdds (- (2 # 10)) = "0%"%string /\
  Format.capitalize "betfair" = "Betfair"%string.
Proof. repeat split. Qed.

Lemma string_length_append (a b : string) :
  String.length (a ++ b) = (String.length a + String.length b)%nat.
Proof. induction a as [|c a IH]; simpl; [reflexivity | now rewrite IH]. Qed.

Lemma repeatChar_length (c : ascii) (n : nat) :
  String.length (Format.repeatChar c n) = n.
Proof. induction n as [|n IH]; simpl; [reflexivity | now rewrite IH]. Qed.

Lemma padEnd_length (s : string) (w : nat) :
  String.length (Format.padEnd s w) = Nat.max (String.length s) w.
Proof.
  unfold Format.padEnd. rewrite string_length_append, repeatChar_length. lia.
Qed.

Lemma maxOf_lower (ns : list nat) (n : nat) : (n <= Format.maxOf n ns)%nat.
Proof.
  unfold Format.maxOf. revert n.
  induction ns as [|k ns IH]; intro n; simpl; [lia|].
  specialize (IH (Nat.max n k)). lia.
Qed.

Lemma maxOf_upper (ns : list nat) (n k : nat) :
  In k ns -> (k <= Format.maxOf n ns)%nat.
Proof.
  unfold Format.maxOf. revert n.
  induction ns as [|j ns IH]; intros n Hin; simpl; [contradiction|].
  destruct Hin as [-> | Hin].
  - pose proof (maxOf_lower ns (Nat.max n k)) as H. unfold Format.maxOf in H. lia.
  - now apply IH.
Qed.

(** A row of four cells that fit their columns is as long as the four
    widths and the thirteen characters of the frame. *)
Lemma tableRow_length (c0 c1 c2 c3 : string) (w0 w1 w2 w3 : nat) :
  (String.length c0 <= w0)%nat -> (String.length c1 <= w1)%nat ->
  (String.length c2 <= w2)%nat -> (String.length c3 <= w3)%nat ->
  String.length (Table.tableRow [c0; c1; c2; c3] [w0; w1; w2; w3])
  = (13 + (w0 + w1 + w2 + w3))%nat.
Proof.
  intros H0 H1 H2 H3. unfold Table.tableRow, Table.padCells. cbn [Polymarket.mapi nth String.concat].
  repeat rewrite string_length_append. repeat rewrite padEnd_length.
  cbn [String.length]. lia.
Qed.

Lemma separatorRow_length (w0 w1 w2 w3 : nat) :
  String.length (Table.separatorRow [w0; w1; w2; w3])
  = (13 + (w0 + w1 + w2 + w3))%nat.
Proof.
  unfold Table.separatorRow. cbn [map String.concat].
  repeat rewrite string_length_append. repeat rewrite repeatChar_length.
  cbn [String.length]. lia.
Qed.

(** Every column is as wide as its header and as every cell in it. *)
Lemma columnWidths_fit (rows : list (list string)) (i : nat) :
  (i < 4)%nat ->
  (String.length (Table.cell Table.headers i) <= nth i (Table.columnWidths rows) 0)%nat /\
  forall r, In r rows ->
    (String.length (Table.cell r i) <= nth i (Table.columnWidths rows) 0)%nat.
Proof.
  intro Hi. unfold Table.columnWidths, Table.headers. cbn [Polymarket.mapi].
  destruct i as [|[|[|[|i]]]]; try lia; cbn [nth Table.cell]; (split;
    [ apply maxOf_lower
    | intros r Hr; apply maxOf_upper;
      apply (in_map (fun r => String.length (Table.cell r _)) rows r Hr) ]).
Qed.

Example parseVolumeString_on_examples :
  option_map Qred (Format.parseVolumeString "$13m") = Some 13000000 /\
  option_map Qred (Format.parseVolumeString "$1,234.5K") = Some 1234500 /\
  option_map Qred (Format.parseVolumeString "2.5b") = Some 2500000000 /\
  option_map Qred (Format.parseVolumeString "999") = Some 999 /\
  Format.parseVolumeString "$-5" = Some 0 /\
  Format.parseVolumeString "" = Some 0 /\
  Format.parseVolumeString "12 k" = Some 0 /\
  Format.parseVolumeString "..k" = None /\
  option_map Qred (Format.parseVolumeString "1.2.3") = Some (6 # 5).
Proof. repeat split. Qed.

(* ================================================================== *)
(** * Further properties: volumes as text *)
(* ================================================================== *)

Lemma numeric_char_clean (c : ascii) :
  Format.isDigitOrDot c = true ->
  Format.isDollarOrComma c = false /\ Format.lower c = c.
Proof.
  destruct c as [[] [] [] [] [] [] [] []]; intro H; try discriminate H;
    split; reflexivity.
Qed.

Lemma digit_char_plain (c : ascii) :
  isDigit c = true ->
  Polymarket.is_space c = false /\
  (forall t, Polymarket.sign (String c t) = (false, String c t)) /\
  Format.isDigitOrDot c = true.
Proof.
  destruct c as [[] [] [] [] [] [] [] []]; intro H; try discriminate H;
    repeat split; reflexivity.
Qed.

Lemma allChars_app (p : ascii -> bool) (s t : string) :
  allChars p (s ++ t) = allChars p s && allChars p t.
Proof.
  induction s as [|c s IH]; simpl; [reflexivity|].
  rewrite IH. now rewrite andb_assoc.
Qed.

Lemma allChars_weaken (p q : ascii -> bool) (s : string) :
  (forall c, p c = true -> q c = true) ->
  allChars p s = true -> allChars q s = true.
Proof.
  intros Hpq. induction s as [|c s IH]; simpl; [trivial|].
  intros H. apply andb_true_iff in H. destruct H as [Hc Hs].
  apply andb_true_iff. split; [now apply Hpq | now apply IH].
Qed.

Lemma digits_numeric (s : string) :
  allChars isDigit s = true -> allChars Format.isDigitOrDot s = true.
Proof. apply allChars_weaken. intros c Hc. now apply digit_char_plain. Qed.

Lemma removeAll_app (p : ascii -> bool) (s t : string) :
  Format.removeAll p (s ++ t) = (Format.removeAll p s ++ Format.removeAll p t)%string.
Proof.
  induction s as [|c s IH]; simpl; [reflexivity|].
  destruct (p c); simpl; now rewrite IH.
Qed.

Lemma toLowerCase_app (s t : string) :
  Format.toLowerCase (s ++ t) = (Format.toLowerCase s ++ Format.toLowerCase t)%string.
Proof. induction s as [|c s IH]; simpl; [reflexivity | now rewrite IH]. Qed.

(** Digits and points pass the cleaning of [parseVolumeString] unchanged. *)
Lemma clean_numeric (s : string) :
  allChars Format.isDigitOrDot s = true ->
  Format.toLowerCase (Format.removeAll Format.isDollarOrComma s) = s.
Proof.
  induction s as [|c s IH]; simpl; [reflexivity|].
  intros H. apply andb_true_iff in H. destruct H as [Hc Hs].
  destruct (numeric_char_clean c Hc) as [Hd Hl].
  rewrite Hd. simpl. now rewrite Hl, IH.
Qed.

Lemma span_app (p : ascii -> bool) (s rest : string) :
  allChars p s = true ->
  match rest with EmptyString => true | String c _ => negb (p c) end = true ->
  Format.span p (s ++ rest) = (s, rest).
Proof.
  intros Hs Hrest. induction s as [|c s IH]; simpl.
  - destruct rest as [|c t]; [reflexivity|]. simpl.
    apply negb_true_iff in Hrest. now rewrite Hrest.
  - simpl in Hs. apply andb_true_iff in Hs. destruct Hs as [Hc Hs].
    rewrite Hc, (IH Hs). reflexivity.
Qed.

Lemma digits_run (s rest : string) (acc : Z) (count : nat) :
  allChars isDigit s = true ->
  Polymarket.digits (s ++ rest) acc count
  = Polymarket.digits rest (decimalValue s acc) (count + String.length s)%nat.
Proof.
  revert acc count. induction s as [|c s IH]; intros acc count H; simpl.
  - now rewrite Nat.add_0_r.
  - simpl in H. apply andb_true_iff in H. destruct H as [Hc Hs].
    unfold isDigit in Hc. destruct (Polymarket.digit_of c) as [d|]; [|discriminate].
    rewrite (IH _ _ Hs). f_equal. lia.
Qed.

Lemma decimalValue_app (s t : string) (acc : Z) :
  allChars isDigit s = true ->
  decimalValue (s ++ t) acc = decimalValue t (decimalValue s acc).
Proof.
  revert acc. induction s as [|c s IH]; intros acc H; simpl; [reflexivity|].
  simpl in H. apply andb_true_iff in H. destruct H as [Hc Hs].
  unfold isDigit in Hc. destruct (Polymarket.digit_of c) as [d|]; [|discriminate].
  now apply IH.
Qed.

Lemma decimalValue_shift (s : string) (acc : Z) :
  decimalValue s acc
  = (acc * 10 ^ Z.of_nat (String.length s) + decimalValue s 0)%Z
  \/ allChars isDigit s = false.
Proof.
  destruct (allChars isDigit s) eqn:H; [left | now right].
  revert acc H. induction s as [|c s IH]; intros acc H.
  - simpl. lia.
  - simpl in H. apply andb_true_iff in H. destruct H as [Hc Hs].
    cbn [decimalValue String.length]. unfold isDigit in Hc.
    destruct (Polymarket.digit_of c) as [d|]; [|discriminate].
    rewrite (IH (10 * acc + d)%Z Hs), (IH (10 * 0 + d)%Z Hs).
    rewrite Nat2Z.inj_succ, Z.pow_succ_r by lia. ring.
Qed.

Lemma zeros_digits (k : nat) :
  allChars isDigit (Format.repeatChar "0" k) = true /\
  decimalValue (Format.repeatChar "0" k) 0 = 0%Z.
Proof. induction k as [|k [IH1 IH2]]; simpl; [split; reflexivity|]. now split. Qed.

Lemma uint_digits (d : Decimal.uint) :
  allChars isDigit (NilEmpty.string_of_uint d) = true /\
  forall acc, decimalValue (NilEmpty.string_of_uint d) acc = uintValue d acc.
Proof.
  induction d as [|d [IH1 IH2]|d [IH1 IH2]|d [IH1 IH2]|d [IH1 IH2]|d [IH1 IH2]
                 |d [IH1 IH2]|d [IH1 IH2]|d [IH1 IH2]|d [IH1 IH2]|d [IH1 IH2]];
    simpl; (split; [trivial | intro acc; try reflexivity; apply IH2]).
Qed.

Lemma uintValue_acc (d : Decimal.uint) (p : positive) :
  uintValue d (Z.pos p) = Z.pos (Pos.of_uint_acc d p).
Proof.
  revert p. induction d; intro p; cbn [uintValue Pos.of_uint_acc]; [reflexivity|..];
    match goal with
    | |- uintValue _ ?z = Z.pos (Pos.of_uint_acc _ ?q) =>
        replace z with (Z.pos q) by lia
    end; apply IHd.
Qed.

Lemma uintValue_of_uint (d : Decimal.uint) :
  uintValue d 0 = Z.of_N (N.of_uint d).
Proof.
  unfold N.of_uint.
  induction d; cbn [uintValue Pos.of_uint Z.of_N]; [reflexivity | exact IHd |..];
    match goal with
    | |- uintValue _ ?z = Z.pos (Pos.of_uint_acc _ ?q) =>
        change z with (Z.pos q)
    end; apply uintValue_acc.
Qed.

(** The digits printed for a natural number read back as the number. *)
Lemma digitsOfN_value (n : N) :
  allChars isDigit (Format.digitsOfN n) = true /\
  decimalValue (Format.digitsOfN n) 0 = Z.of_N n /\
  (1 <= String.length (Format.digitsOfN n))%nat.
Proof.
  unfold Format.digitsOfN.
  pose proof (DecimalN.Unsigned.of_to n) as Hn.
  pose proof (uintValue_of_uint (N.to_uint n)) as Hv. rewrite Hn in Hv.
  destruct (uint_digits (N.to_uint n)) as [Hd Hval].
  destruct (N.to_uint n) as [|d|d|d|d|d|d|d|d|d|d] eqn:E;
    try (cbn [NilZero.string_of_uint]; rewrite <- Hv; repeat split;
         [exact Hd | apply Hval | simpl; lia]).
  destruct n; discriminate E || (simpl in E; exfalso).
  pose proof (DecimalN.Unsigned.of_to (N.pos p)) as H. simpl in H.
  rewrite E in H. discriminate H.
Qed.

Lemma substring_all (s : string) : String.substring 0 (String.length s) s = s.
Proof. induction s as [|c s IH]; simpl; [reflexivity | now rewrite IH]. Qed.

Lemma substring_split (s : string) (n k : nat) :
  (n + k)%nat = String.length s ->
  (String.substring 0 n s ++ String.substring n k s)%string = s /\
  String.length (String.substring 0 n s) = n /\
  String.length (String.substring n k s) = k.
Proof.
  revert n k. induction s as [|c s IH]; intros n k H; simpl in H.
  - assert (n = 0 /\ k = 0)%nat as [-> ->] by lia. repeat split.
  - destruct n as [|n].
    + simpl in H. subst k. cbn [String.substring append String.length].
      rewrite substring_all. repeat split.
    + cbn [String.substring append String.length].
      destruct (IH n k ltac:(simpl in H; lia)) as (H1 & H2 & H3).
      rewrite H1, H2, H3. repeat split.
Qed.

(** A run of digits reads as the number it denotes. *)
Lemma parseFloat_digits (s : string) :
  allChars isDigit s = true -> (1 <= String.length s)%nat ->
  exists v, Polymarket.parseFloat s = Some v /\ v == inject_Z (decimalValue s 0).
Proof.
  intros Hs Hlen. destruct s as [|c s]; [simpl in Hlen; lia|].
  pose proof Hs as Hc. simpl in Hc. apply andb_true_iff in Hc. destruct Hc as [Hc _].
  destruct (digit_char_plain c Hc) as (Hspace & Hsign & _).
  unfold Polymarket.parseFloat.
  cbn [Polymarket.skip_space]. rewrite Hspace, Hsign.
  pose proof (digits_run (String c s) EmptyString 0 0 Hs) as Hd.
  assert (Happ : forall t : string, (t ++ "")%string = t)
    by (induction t as [|a t IH]; simpl; [reflexivity | now rewrite IH]).
  rewrite Happ in Hd. rewrite Hd. cbn [Polymarket.digits].
  cbn [Nat.add String.length Nat.eqb Polymarket.exponent].
  eexists. split; [reflexivity|].
  change (10 ^ Z.of_nat 0)%Z with 1%Z. change (10 ^ 0) with 1.
  change (inject_Z 0) with 0. change (inject_Z 1) with 1. field.
Qed.

(** Digits, a point and digits read as the number all the digits denote,
    over ten to the number of digits after the point. *)
Lemma parseFloat_point (pre suf : string) :
  allChars isDigit pre = true -> allChars isDigit suf = true ->
  (1 <= String.length pre)%nat ->
  exists v, Polymarket.parseFloat (pre ++ "." ++ suf) = Some v /\
            v == inject_Z (decimalValue (pre ++ suf) 0)
                 / inject_Z (10 ^ Z.of_nat (String.length suf)).
Proof.
  intros Hp Hs Hlen. destruct pre as [|c pre]; [simpl in Hlen; lia|].
  pose proof Hp as Hc. simpl in Hc. apply andb_true_iff in Hc. destruct Hc as [Hc _].
  destruct (digit_char_plain c Hc) as (Hspace & Hsign & _).
  unfold Polymarket.parseFloat.
  cbn [append Polymarket.skip_space]. rewrite Hspace, Hsign.
  pose proof (digits_run (String c pre) ("." ++ suf) 0 0 Hp) as Hd.
  cbn [append] in Hd. rewrite Hd. cbn [Polymarket.digits Polymarket.digit_of].
  change (Polymarket.digit_of ".") with (@None Z). cbv iota beta.
  pose proof (digits_run suf EmptyString 0 0 Hs) as Hd2.
  assert (Happ : forall t : string, (t ++ "")%string = t)
    by (induction t as [|a t IH]; simpl; [reflexivity | now rewrite IH]).
  rewrite Happ in Hd2. rewrite Hd2. cbn [Polymarket.digits Polymarket.exponent].
  destruct (0 + String.length (String c pre) + (0 + String.length suf) =? 0)%nat eqn:E.
  { apply Nat.eqb_eq in E. simpl in E. lia. }
  eexists. split; [reflexivity|].
  change (String c (pre ++ suf)) with (String c pre ++ suf)%string.
  rewrite (decimalValue_app _ suf 0 Hp).
  destruct (decimalValue_shift suf (decimalValue (String c pre) 0)) as [-> | Hbad];
    [|congruence].
  cbn [Nat.add]. change (10 ^ 0) with 1.
  rewrite inject_Z_plus, inject_Z_mult.
  assert (Hpow : ~ inject_Z (10 ^ Z.of_nat (String.length suf)) == 0).
  { intro H.
    assert (H0 : inject_Z 0 < inject_Z (10 ^ Z.of_nat (String.length suf)))
      by (rewrite <- Zlt_Qlt; apply Z.pow_pos_nonneg; lia).
    rewrite H in H0. apply (Qlt_irrefl 0). exact H0. }
  field. exact Hpow.
Qed.

Lemma Qfloor_nonneg (y : Q) : 0 <= y -> (0 <= Qfloor y)%Z.
Proof. intro H. change 0%Z with (Qfloor 0). now apply Qfloor_resp_le. Qed.

(** What [toFixed] prints for a number that is not negative: digits with
    at most one point, which read back as the nearest multiple of the last
    digit shown. *)
Lemma toFixed_nonneg (x : Q) (f : nat) :
  0 <= x ->
  allChars Format.isDigitOrDot (Format.toFixed x f) = true /\
  (1 <= String.length (Format.toFixed x f))%nat /\
  exists v, Polymarket.parseFloat (Format.toFixed x f) = Some v /\
            v == inject_Z (Qfloor (x * inject_Z (10 ^ Z.of_nat f) + (1 # 2)))
                 / inject_Z (10 ^ Z.of_nat f).
Proof.
  intro Hx. unfold Format.toFixed.
  assert (Hneg : Js.ltb x 0 = false).
  { destruct (Js.ltb x 0) eqn:E; [|reflexivity]. apply ltb_lt_iff in E. lra. }
  rewrite Hneg. cbn [append].
  assert (Habs : Qabs x == x) by (now apply Qabs_pos).
  assert (Hfl : Qfloor (Qabs x * inject_Z (10 ^ Z.of_nat f) + (1 # 2))
                = Qfloor (x * inject_Z (10 ^ Z.of_nat f) + (1 # 2)))
    by (apply Qfloor_comp; rewrite Habs; reflexivity).
  rewrite Hfl. clear Hfl Habs Hneg.
  set (n := Qfloor (x * inject_Z (10 ^ Z.of_nat f) + (1 # 2))).
  assert (Hn : (0 <= n)%Z).
  { apply Qfloor_nonneg.
    assert (0 <= inject_Z (10 ^ Z.of_nat f))
      by (change 0 with (inject_Z 0); rewrite <- Zle_Qle; apply Z.pow_nonneg; lia).
    assert (0 <= x * inject_Z (10 ^ Z.of_nat f)) by (now apply Qmult_le_0_compat).
    lra. }
  destruct (digitsOfN_value (Z.to_N n)) as (Hd & Hv & Hl).
  rewrite Z2N.id in Hv by exact Hn.
  set (m := Format.digitsOfN (Z.to_N n)) in *.
  destruct f as [|f].
  - split; [now apply digits_numeric|]. split; [exact Hl|].
    destruct (parseFloat_digits m Hd Hl) as (v & Hp & Hpv).
    exists v. split; [exact Hp|]. rewrite Hpv, Hv.
    change (inject_Z (10 ^ Z.of_nat 0)) with 1. field.
  - set (padded := (Format.repeatChar "0" (S f + 1 - String.length m) ++ m)%string).
    destruct (zeros_digits (S f + 1 - String.length m)) as (Hz & Hzv).
    assert (Hpl : String.length padded = (S f + 1 - String.length m + String.length m)%nat)
      by (unfold padded; now rewrite string_length_append, repeatChar_length).
    assert (Hpd : allChars isDigit padded = true)
      by (unfold padded; rewrite allChars_app, Hz, Hd; reflexivity).
    assert (Hpv : decimalValue padded 0 = n)
      by (unfold padded; rewrite (decimalValue_app _ m 0 Hz), Hzv; exact Hv).
    destruct (substring_split padded (String.length padded - S f) (S f) ltac:(lia))
      as (Hsplit & Hlen1 & Hlen2).
    set (pre := String.substring 0 (String.length padded - S f) padded) in *.
    set (suf := String.substring (String.length padded - S f) (S f) padded) in *.
    assert (Hboth : allChars isDigit pre = true /\ allChars isDigit suf = true).
    { rewrite <- Hsplit, allChars_app in Hpd. now apply andb_true_iff in Hpd. }
    destruct Hboth as [Hpre Hsuf].
    split.
    { rewrite allChars_app, (digits_numeric pre Hpre). cbn [append allChars].
      rewrite (digits_numeric suf Hsuf). reflexivity. }
    split.
    { rewrite string_length_append, Hlen1. lia. }
    destruct (parseFloat_point pre suf Hpre Hsuf ltac:(lia)) as (v & Hp & Hv').
    exists v. split; [exact Hp|].
    rewrite Hv', Hsplit, Hpv, Hlen2. reflexivity.
Qed.

Lemma shown_tenth (y v : Q) :
  v == inject_Z (Qfloor (y * inject_Z (10 ^ Z.of_nat 1) + (1 # 2)))
       / inject_Z (10 ^ Z.of_nat 1) ->
  y - (1 # 20) <= v /\ v <= y + (1 # 20).
Proof.
  intro Hv. change (inject_Z (10 ^ Z.of_nat 1)) with 10 in Hv.
  pose proof (Math_round_bounds (y * 10)) as [Hlo Hhi].
  unfold Js.Math_round in Hlo, Hhi.
  set (r := inject_Z (Qfloor (y * 10 + (1 # 2)))) in *.
  assert (Hr : v * 10 == r) by (rewrite Hv; field).
  split; lra.
Qed.

Lemma shown_unit (y v : Q) :
  v == inject_Z (Qfloor (y * inject_Z (10 ^ Z.of_nat 0) + (1 # 2)))
       / inject_Z (10 ^ Z.of_nat 0) ->
  y - (1 # 2) <= v /\ v <= y + (1 # 2).
Proof.
  intro Hv. change (inject_Z (10 ^ Z.of_nat 0)) with 1 in Hv.
  pose proof (Math_round_bounds y) as [Hlo Hhi].
  unfold Js.Math_round in Hlo, Hhi.
  assert (He : Qfloor (y * 1 + (1 # 2)) = Qfloor (y + (1 # 2)))
    by (apply Qfloor_comp; ring).
  rewrite He in Hv.
  set (r := inject_Z (Qfloor (y + (1 # 2)))) in *.
  assert (Hr : v == r) by (rewrite Hv; field).
  split; lra.
Qed.

(** X28.  A negative volume does not survive the round trip: its text carries a minus sign, which
    the pattern of [parseVolumeString] does not admit, and is read as 0. *)
Theorem negative_volume_text_reads_zero (usd : Q) :
  usd < 0 ->
  Format.parseVolumeString (Format.formatVolume usd) = Some 0.
Proof.
  intro Hneg. unfold Format.formatVolume.
  assert (Hge : forall b, 0 <= b -> Js.geb usd b = false).
  { intros b Hb. destruct (Js.geb usd b) eqn:E; [|reflexivity].
    apply geb_le in E. lra. }
  rewrite !Hge by lra.
  unfold Format.toFixed.
  assert (Hlt : Js.ltb usd 0 = true) by (now apply ltb_lt_iff).
  rewrite Hlt. reflexivity.
Qed.

Lemma negative_volume_text_reads_zero_witness :
  - (5 # 2) < 0 /\
  Format.parseVolumeString (Format.formatVolume (- (5 # 2))) = Some 0.
Proof. split; [lra | apply (negative_volume_text_reads_zero (- (5 # 2))); lra]. Defined.

(* ================================================================== *)
(** * Further properties: sorting and filtering together *)
(* ================================================================== *)

Lemma StronglySorted_filter {A : Type} (R : A -> A -> Prop) (f : A -> bool)
    (l : list A) :
  StronglySorted R l -> StronglySorted R (filter f l).
Proof.
  induction 1 as [|x l Hs IH Hall]; simpl; [constructor|].
  destruct (f x); [|exact IH].
  constructor; [exact IH|].
  apply Forall_forall. intros y Hy. apply filter_In in Hy.
  rewrite Forall_forall in Hall. now apply Hall.
Qed.

Lemma filter_filter_comm {A : Type} (f g : A -> bool) (l : list A) :
  filter f (filter g l) = filter g (filter f l).
Proof.
  induction l as [|x l IH]; simpl; [reflexivity|].
  destruct (f x) eqn:Ef, (g x) eqn:Eg; simpl; rewrite ?Ef, ?Eg, IH; reflexivity.
Qed.

(** X29.  Filtering by a minimum volume and sorting commute: the
    filter of the sorted list is the sorted filter, whatever the key, so
    the order in which [searchAll] applies the two does not show in its
    result. *)
Theorem filter_sort_commute (l : list UnifiedMarket) (k : SortKey) (v : Q) :
  Utils.filterByMinVolume (Utils.sortMarkets l k) v
  = Utils.sortMarkets (Utils.filterByMinVolume l v) k.
Proof.
  unfold Utils.sortMarkets, Utils.filterByMinVolume.
  apply (stable_sort_unique (Utils.compareMarkets k)
           (compareMarkets_total k) (compareMarkets_trans k)).
  split.
  - apply StronglySorted_Sorted, StronglySorted_filter.
    apply Array_sort_strongly_sorted;
      [apply compareMarkets_total | apply compareMarkets_trans].
  - intro x. rewrite filter_filter_comm.
    destruct (Array_sort_stable (Utils.compareMarkets k)
                (compareMarkets_total k) (compareMarkets_trans k) l) as [_ Hties].
    rewrite Hties. apply filter_filter_comm.
Qed.

Lemma platform_tie (x m : UnifiedMarket) :
  Js.tie (Utils.compareMarkets by_platform) x m = on_platform (platform x) m.
Proof.
  unfold on_platform, Js.tie, Utils.compareMarkets.
  destruct (platform x), (platform m); reflexivity.
Qed.

Lemma on_platform_filter (p q : Platform) (l : list UnifiedMarket) :
  filter (on_platform p) (filter (on_platform q) l)
  = if Aggregator.platform_eqb p q then filter (on_platform q) l else [].
Proof.
  induction l as [|m l IH]; cbn [filter];
    [now destruct (Aggregator.platform_eqb p q)|].
  destruct (on_platform q m) eqn:Eq; [|exact IH].
  cbn [filter]. rewrite IH.
  assert (Hp : on_platform p m = Aggregator.platform_eqb p q)
    by (unfold on_platform in *; destruct p, q, (platform m);
        simpl in *; congruence).
  rewrite Hp. now destruct (Aggregator.platform_eqb p q).
Qed.

Lemma StronglySorted_app {A : Type} (R : A -> A -> Prop) (l1 l2 : list A) :
  StronglySorted R l1 -> StronglySorted R l2 ->
  (forall a b, In a l1 -> In b l2 -> R a b) ->
  StronglySorted R (l1 ++ l2).
Proof.
  intros H1 H2 H. induction H1 as [|x l1 Hs IH Hall]; cbn [app]; [exact H2|].
  constructor.
  - apply IH. intros a b Ha Hb. apply H; [now right | exact Hb].
  - apply Forall_app. split; [exact Hall|].
    apply Forall_forall. intros b Hb. apply H; [now left | exact Hb].
Qed.

Lemma platform_group_sorted (p : Platform) (l : list UnifiedMarket) :
  StronglySorted (Js.before (Utils.compareMarkets by_platform))
                 (filter (on_platform p) l).
Proof.
  induction l as [|m l IH]; cbn [filter]; [constructor|].
  destruct (on_platform p m) eqn:Em; [|exact IH].
  constructor; [exact IH|]. apply Forall_forall. intros y Hy.
  apply filter_In in Hy. destruct Hy as [_ Hy].
  unfold on_platform in Em, Hy. unfold Js.before, Utils.compareMarkets.
  destruct p, (platform m), (platform y); try discriminate;
    vm_compute; discriminate.
Qed.

Lemma platform_groups_sorted (l : list UnifiedMarket) :
  Sorted (Js.before (Utils.compareMarkets by_platform))
         (filter (on_platform betfair) l ++ filter (on_platform polymarket) l).
Proof.
  apply StronglySorted_Sorted, StronglySorted_app;
    try apply platform_group_sorted.
  intros a b Ha Hb. apply filter_In in Ha, Hb.
  destruct Ha as [_ Ha], Hb as [_ Hb].
  unfold on_platform in Ha, Hb. unfold Js.before, Utils.compareMarkets.
  destruct (platform a), (platform b); try discriminate;
    vm_compute; discriminate.
Qed.

(** X30.  Sorting by platform puts the Betfair
    markets first and the Polymarket markets after them, each group in the
    order it had in the input. *)
Theorem sortMarkets_by_platform_groups (l : list UnifiedMarket) :
  Utils.sortMarkets l by_platform
  = filter (on_platform betfair) l ++ filter (on_platform polymarket) l.
Proof.
  unfold Utils.sortMarkets. symmetry.
  apply (stable_sort_unique (Utils.compareMarkets by_platform)
           (compareMarkets_total by_platform) (compareMarkets_trans by_platform)).
  split; [apply platform_groups_sorted|].
  intro x. rewrite filter_app.
  rewrite !(filter_ext _ _ (platform_tie x)).
  rewrite !on_platform_filter.
  destruct (platform x); cbn [Aggregator.platform_eqb];
    [reflexivity | now rewrite app_nil_r].
Qed.

(* ================================================================== *)
(** * The binary64 reading on the examples *)
(* ================================================================== *)

Example binary64_on_examples :
  Qred (literal (1 # 10)) = 3602879701896397 # 36028797018963968 /\
  Binary64.betfairOddsToPercent (literal (455 # 100)) == literal (2198 # 100) /\
  Binary64.betfairOddsToPercent (literal (9523809523809524 # 10000000000000))
  == literal (11 # 100) /\
  Binary64.gbpToUsd (literal (155 # 10)) (literal (127 # 100)) == literal (1968 # 100) /\
  Binary64.polymarketOddsToPercent (literal (4265 # 100000)) == literal (426 # 100) /\
  Binary64.polymarketOddsToPercent (literal (22 # 100)) == 22 /\
  odds (Binary64.normalizeRunner winner_catalogue runner64_20_24) == 22 /\
  option_map Qred (spread (Binary64.normalizeRunner winner_catalogue runner64_20_24))
  = Some 4 /\
  backOdds (Binary64.normalizeRunner winner_catalogue runner64_tie)
  = Some (Binary64.betfairOddsToPercent (literal (105 # 100))) /\
  Binary64.betfairOddsToPercent (literal (105 # 100)) == literal (9524 # 100) /\
  Binary64.betfairOddsToPercent (literal (11 # 10)) == literal (9091 # 100) /\
  odds (Binary64.normalizeRunner winner_catalogue runner64_tie) == literal (9307 # 100) /\
  Binary64.formatVolume 16050 = "$16.1k"%string /\
  Binary64.formatVolume 1450 = "$1.4k"%string /\
  option_map Qred (Binary64.parseVolumeString "$16.1k")
  = Some (8851068603596801 # 549755813888).
Proof. repeat split; vm_compute; reflexivity. Qed.

(* ================================================================== *)
(** * Binary64: how far rounding moves a number *)
(* ================================================================== *)

Lemma nearestEven_close (y : Q) :
  y - (1 # 2) <= inject_Z (Binary64.nearestEven y) /\
  inject_Z (Binary64.nearestEven y) <= y + (1 # 2).
Proof.
  unfold Binary64.nearestEven.
  pose proof (Qfloor_le y) as Hlo. pose proof (Qlt_floor y) as Hhi.
  rewrite inject_Z_plus in Hhi. change (inject_Z 1) with 1 in Hhi.
  destruct (Qcompare (y - inject_Z (Qfloor y)) (1 # 2)) eqn:E.
  - apply Qeq_alt in E.
    destruct (Z.even (Qfloor y)); [|rewrite inject_Z_plus; change (inject_Z 1) with 1];
      split; lra.
  - apply Qlt_alt in E. split; lra.
  - apply Qgt_alt in E. rewrite inject_Z_plus. change (inject_Z 1) with 1.
    split; lra.
Qed.

Lemma two_power_pos (e : Z) : 0 < 2 ^ e.
Proof. apply Qpower_0_lt. reflexivity. Qed.

Lemma exponent_le (a : Q) : 0 < a -> 2 ^ Binary64.exponent a <= a.
Proof.
  intro Ha. unfold Binary64.exponent.
  set (k := (Z.log2 (Qnum a) - Z.log2 (Z.pos (Qden a)))%Z).
  destruct (Qle_bool (2 ^ k) a) eqn:E; [now apply Qle_bool_iff in E|].
  destruct a as [p q]. unfold k. cbn [Qnum Qden].
  assert (Hp : (0 < p)%Z) by (unfold Qlt in Ha; simpl in Ha; lia).
  set (P := Z.log2 p). set (D := Z.log2 (Z.pos q)).
  assert (HP : (2 ^ P <= p)%Z) by (apply Z.log2_spec; lia).
  assert (HD : (Z.pos q < 2 ^ (D + 1))%Z)
    by (replace (D + 1)%Z with (Z.succ D) by lia; apply Z.log2_spec; lia).
  assert (HP0 : (0 <= P)%Z) by apply Z.log2_nonneg.
  assert (HD0 : (0 <= D)%Z) by apply Z.log2_nonneg.
  (* 2^(P-D-1) = 2^P / 2^(D+1) *)
  assert (Hpow : 2 ^ (P - D - 1) == inject_Z (2 ^ P) / inject_Z (2 ^ (D + 1))).
  { replace (P - D - 1)%Z with (P - (D + 1))%Z by lia.
    rewrite Qpower_minus by discriminate.
    rewrite !Zpower_Qpower by lia. reflexivity. }
  rewrite Hpow.
  assert (H1 : 0 < inject_Z (2 ^ (D + 1)))
    by (change 0 with (inject_Z 0); rewrite <- Zlt_Qlt; apply Z.pow_pos_nonneg; lia).
  apply Qle_shift_div_r; [exact H1|].
  unfold Qle, Qmult, inject_Z. cbn [Qnum Qden].
  rewrite Z.mul_1_r. rewrite Pos.mul_1_r.
  assert (0 < 2 ^ P)%Z by (apply Z.pow_pos_nonneg; lia).
  nia.
Qed.

Lemma ulp_pos (x : Q) : 0 < Binary64.ulp x.
Proof. apply two_power_pos. Qed.

(** Rounding moves a number by at most half the spacing. *)
Lemma double_half_ulp (x : Q) :
  Qabs (Binary64.double x - x) <= Binary64.ulp x * (1 # 2).
Proof.
  unfold Binary64.double. destruct (Qeq_bool x 0) eqn:E.
  - apply Qeq_bool_iff in E. pose proof (ulp_pos x).
    apply Qabs_Qle_condition. split; lra.
  - pose proof (ulp_pos x) as Hu.
    destruct (nearestEven_close (x / Binary64.ulp x)) as [Hlo Hhi].
    set (n := inject_Z (Binary64.nearestEven (x / Binary64.ulp x))) in *.
    set (u := Binary64.ulp x) in *.
    assert (Hx : x == x / u * u) by (field; lra).
    set (y := x / u) in *. clearbody y n.
    apply Qabs_Qle_condition. split.
    + assert (y * u - (1 # 2) * u <= n * u)
        by (setoid_replace (y * u - (1 # 2) * u) with ((y - (1 # 2)) * u) by ring;
            apply Qmult_le_compat_r; lra).
      lra.
    + assert (n * u <= y * u + (1 # 2) * u)
        by (setoid_replace (y * u + (1 # 2) * u) with ((y + (1 # 2)) * u) by ring;
            apply Qmult_le_compat_r; lra).
      lra.
Qed.

(** Half the spacing is at most the 2^-53 part of the number, or the least
    half spacing 2^-1075. *)
Lemma half_ulp_bound (x : Q) :
  ~ x == 0 ->
  Binary64.ulp x * (1 # 2) <= Qabs x * 2 ^ (-53) + 2 ^ (-1075).
Proof.
  intro Hx. unfold Binary64.ulp.
  assert (Ha : 0 < Qabs x).
  { destruct (Qlt_le_dec 0 (Qabs x)) as [H|H]; [exact H|].
    exfalso. apply Hx. apply Qabs_Qle_condition in H. lra. }
  pose proof (exponent_le (Qabs x) Ha) as He.
  set (k := Binary64.exponent (Qabs x)) in *.
  pose proof (two_power_pos (-53)) as H53. pose proof (two_power_pos (-1075)) as Ht.
  destruct (Z.max_spec k (-1022)) as [[Hk ->] | [Hk ->]].
  - change (2 ^ (-1022 - 52) * (1 # 2)) with (2 ^ (-1075) * 1).
    assert (0 <= Qabs x * 2 ^ (-53)) by (apply Qmult_le_0_compat; lra).
    lra.
  - assert (E : 2 ^ (k - 52) * (1 # 2) == 2 ^ k * 2 ^ (-53)).
    { replace (k - 52)%Z with (k + (-53) + 1)%Z by lia.
      rewrite !Qpower_plus by discriminate. change (2 ^ 1) with 2. ring. }
    rewrite E.
    assert (2 ^ k * 2 ^ (-53) <= Qabs x * 2 ^ (-53))
      by (apply Qmult_le_compat_r; lra).
    lra.
Qed.

(** Whatever the number, its double is within 10^-15 of it, relative to
    any bound on its size. *)
Lemma double_near (x B : Q) :
  Qabs x <= B ->
  Qabs (Binary64.double x - x) <= (B + 1) * (1 # 1000000000000000).
Proof.
  intro HB. pose proof (Qabs_nonneg x) as H0.
  destruct (Qeq_dec x 0) as [E|E].
  - unfold Binary64.double.
    assert (Qeq_bool x 0 = true) as -> by (now apply Qeq_bool_iff).
    rewrite E. apply Qabs_Qle_condition. split; lra.
  - eapply Qle_trans; [apply double_half_ulp|].
    eapply Qle_trans; [apply (half_ulp_bound x E)|].
    assert (H53 : 2 ^ (-53) <= 1 # 1000000000000000) by (vm_compute; discriminate).
    assert (Ht : 2 ^ (-1075) <= 1 # 1000000000000000) by (vm_compute; discriminate).
    pose proof (two_power_pos (-53)) as P53.
    assert (Qabs x * 2 ^ (-53) <= B * (1 # 1000000000000000)).
    { eapply Qle_trans; [apply Qmult_le_compat_r; [exact HB | lra]|].
      rewrite !(Qmult_comm B). apply Qmult_le_compat_r; lra. }
    lra.
Qed.

Lemma nearestEven_nonneg (y : Q) : 0 <= y -> (0 <= Binary64.nearestEven y)%Z.
Proof.
  intro Hy. pose proof (Qfloor_nonneg y Hy) as Hf. unfold Binary64.nearestEven.
  destruct (Qcompare (y - inject_Z (Qfloor y)) (1 # 2)); [|lia|lia].
  destruct (Z.even (Qfloor y)); lia.
Qed.

(** Rounding keeps the sign. *)
Lemma double_nonneg (x : Q) : 0 <= x -> 0 <= Binary64.double x.
Proof.
  intro Hx. unfold Binary64.double.
  destruct (Qeq_bool x 0); [lra|].
  pose proof (ulp_pos x) as Hu.
  apply Qmult_le_0_compat; [|lra].
  change 0 with (inject_Z 0). rewrite <- Zle_Qle.
  apply nearestEven_nonneg. apply Qle_shift_div_l; lra.
Qed.

Lemma double_between (x B : Q) :
  Qabs x <= B ->
  x - (B + 1) * (1 # 1000000000000000) <= Binary64.double x /\
  Binary64.double x <= x + (B + 1) * (1 # 1000000000000000).
Proof.
  intro HB. pose proof (double_near x B HB) as H.
  apply Qabs_Qle_condition in H. split; lra.
Qed.

Lemma Qabs_le_of (x B : Q) : - B <= x -> x <= B -> Qabs x <= B.
Proof. intros. apply Qabs_Qle_condition. split; assumption. Qed.

Lemma Math_round_Z_bounds (x : Q) (lo hi : Z) :
  inject_Z lo <= x -> x < inject_Z hi + (1 # 2) ->
  (lo <= Qfloor (x + (1 # 2)) <= hi)%Z.
Proof.
  intros Hlo Hhi. destruct (Math_round_bounds x) as [H1 H2].
  unfold Js.Math_round in H1, H2. split.
  - assert (inject_Z lo - 1 < inject_Z (Qfloor (x + (1 # 2)))) by lra.
    assert (inject_Z (lo - 1) < inject_Z (Qfloor (x + (1 # 2))))
      by (unfold Z.sub; rewrite inject_Z_plus; exact H).
    rewrite <- Zlt_Qlt in H0. lia.
  - assert (inject_Z (Qfloor (x + (1 # 2))) < inject_Z hi + 1) by lra.
    assert (inject_Z (Qfloor (x + (1 # 2))) < inject_Z (hi + 1))
      by (rewrite inject_Z_plus; exact H).
    rewrite <- Zlt_Qlt in H0. lia.
Qed.

(** The conversion of a price above 1, step by step: the integer
    [Math.round] returns is between 0 and 10000, and the hundredth it
    denotes is within half a hundredth and 10^-12 of [100 / price]. *)
Lemma betfairOddsToPercent64_steps (d : Q) :
  1 < d ->
  exists n : Z,
    Binary64.betfairOddsToPercent d == Binary64.double (inject_Z n / 100) /\
    (0 <= n <= 10000)%Z /\
    Qabs (inject_Z n / 100 - 100 / d) <= (1 # 200) + tie_margin.
Proof.
  intro Hd. unfold Binary64.betfairOddsToPercent.
  assert (Qle_bool d 1 = false) as ->.
  { destruct (Qle_bool d 1) eqn:E; [|reflexivity]. apply Qle_bool_iff in E. lra. }
  unfold Binary64.div at 1, Binary64.mul, Binary64.div, Js.Math_round.
  assert (Hx0 : 0 < 1 / d) by (apply Qlt_shift_div_l; lra).
  assert (Hx1 : 1 / d <= 1) by (apply Qle_shift_div_r; lra).
  assert (E100 : 100 / d == 100 * (1 / d)) by (field; lra).
  set (x0 := 1 / d) in *. clearbody x0.
  pose proof (double_nonneg x0 ltac:(lra)) as P1.
  destruct (double_between x0 1 ltac:(apply Qabs_le_of; lra)) as [L1 U1].
  set (q1 := Binary64.double x0) in *. clearbody q1.
  pose proof (double_nonneg (q1 * 100) ltac:(lra)) as P2.
  destruct (double_between (q1 * 100) 101 ltac:(apply Qabs_le_of; lra)) as [L2 U2].
  set (q2 := Binary64.double (q1 * 100)) in *. clearbody q2.
  pose proof (double_nonneg (q2 * 100) ltac:(lra)) as P3.
  destruct (double_between (q2 * 100) 10101 ltac:(apply Qabs_le_of; lra)) as [L3 U3].
  set (q3 := Binary64.double (q2 * 100)) in *. clearbody q3.
  exists (Qfloor (q3 + (1 # 2))). split; [reflexivity|].
  split.
  - apply Math_round_Z_bounds; [exact P3 | change (inject_Z 10000) with 10000; lra].
  - destruct (Math_round_bounds q3) as [R1 R2]. unfold Js.Math_round in R1, R2.
    set (r := inject_Z (Qfloor (q3 + (1 # 2)))) in *. clearbody r.
    rewrite E100. unfold tie_margin.
    assert (Hr : r / 100 == r * (1 # 100)) by field. rewrite Hr.
    apply Qabs_Qle_condition. split; lra.
Qed.

(** C7, as stated, fails on the engine's arithmetic: at the price
    952.3809523809524 the quotient [100 / price] is below 0.105 and rounds
    to 0.10, while the code, which rounds [1 / price] and two products on
    the way, returns 0.11. *)
Lemma betfairOddsToPercent_tie_rounds_up :
  rounded2 (100 / literal (9523809523809524 # 10000000000000)) (10 # 100) /\
  Binary64.betfairOddsToPercent (literal (9523809523809524 # 10000000000000))
  == literal (11 # 100) /\
  ~ Binary64.betfairOddsToPercent (literal (9523809523809524 # 10000000000000))
    == literal (10 # 100).
Proof.
  split; [|split].
  - exists 10%Z. repeat split; vm_compute; reflexivity || discriminate.
  - vm_compute. reflexivity.
  - vm_compute. discriminate.
Qed.

(** [exponent] is the floor of the binary logarithm. *)
Lemma exponent_lt (a : Q) : 0 < a -> a < 2 ^ (Binary64.exponent a + 1).
Proof.
  intro Ha. unfold Binary64.exponent.
  set (k := (Z.log2 (Qnum a) - Z.log2 (Z.pos (Qden a)))%Z).
  destruct (Qle_bool (2 ^ k) a) eqn:E.
  - destruct a as [p q]. unfold k. cbn [Qnum Qden].
    assert (Hp : (0 < p)%Z) by (unfold Qlt in Ha; simpl in Ha; lia).
    set (P := Z.log2 p). set (D := Z.log2 (Z.pos q)).
    assert (HP : (p < 2 ^ (P + 1))%Z)
      by (replace (P + 1)%Z with (Z.succ P) by lia; apply Z.log2_spec; lia).
    assert (HD : (2 ^ D <= Z.pos q)%Z) by (apply Z.log2_spec; lia).
    assert (HP0 : (0 <= P)%Z) by apply Z.log2_nonneg.
    assert (HD0 : (0 <= D)%Z) by apply Z.log2_nonneg.
    assert (Hpow : 2 ^ (P - D + 1) == inject_Z (2 ^ (P + 1)) / inject_Z (2 ^ D)).
    { replace (P - D + 1)%Z with (P + 1 - D)%Z by lia.
      rewrite Qpower_minus by discriminate.
      rewrite !Zpower_Qpower by lia. reflexivity. }
    rewrite Hpow.
    assert (H1 : 0 < inject_Z (2 ^ D))
      by (change 0 with (inject_Z 0); rewrite <- Zlt_Qlt; apply Z.pow_pos_nonneg; lia).
    apply Qlt_shift_div_l; [exact H1|].
    unfold Qlt, Qmult, inject_Z. cbn [Qnum Qden].
    rewrite Z.mul_1_r.
    assert (0 < 2 ^ D)%Z by (apply Z.pow_pos_nonneg; lia).
    nia.
  - replace (k - 1 + 1)%Z with k by lia.
    apply Qnot_le_lt. intro H. apply Qle_bool_iff in H. congruence.
Qed.

Lemma exponent_unique (a : Q) (e : Z) :
  2 ^ e <= a -> a < 2 ^ (e + 1) -> e = Binary64.exponent a.
Proof.
  intros Hlo Hhi.
  assert (Ha : 0 < a) by (pose proof (two_power_pos e); lra).
  pose proof (exponent_le a Ha) as Elo. pose proof (exponent_lt a Ha) as Ehi.
  assert (H1 : (e < Binary64.exponent a + 1)%Z)
    by (apply (Qpower_lt_compat_l_inv 2); [lra | reflexivity]).
  assert (H2 : (Binary64.exponent a < e + 1)%Z)
    by (apply (Qpower_lt_compat_l_inv 2); [lra | reflexivity]).
  lia.
Qed.

Lemma exponent_comp (a a' : Q) :
  a == a' -> 0 < a -> Binary64.exponent a = Binary64.exponent a'.
Proof.
  intros E Ha. apply exponent_unique.
  - rewrite <- E. now apply exponent_le.
  - rewrite <- E. now apply exponent_lt.
Qed.

Lemma Qabs_pos_of (x : Q) : ~ x == 0 -> 0 < Qabs x.
Proof.
  intro Hx. destruct (Qlt_le_dec 0 (Qabs x)) as [H|H]; [exact H|].
  exfalso. apply Hx. apply Qabs_Qle_condition in H. lra.
Qed.

Lemma ulp_comp (x x' : Q) : x == x' -> ~ x == 0 -> Binary64.ulp x == Binary64.ulp x'.
Proof.
  intros E Hx. unfold Binary64.ulp.
  rewrite (exponent_comp (Qabs x) (Qabs x')); [reflexivity | now rewrite E |].
  now apply Qabs_pos_of.
Qed.

Lemma nearestEven_comp (y y' : Q) :
  y == y' -> Binary64.nearestEven y = Binary64.nearestEven y'.
Proof.
  intro E. unfold Binary64.nearestEven.
  rewrite (Qfloor_comp _ _ E).
  assert (Qcompare (y - inject_Z (Qfloor y')) (1 # 2)
          = Qcompare (y' - inject_Z (Qfloor y')) (1 # 2)) as ->
    by (apply Qcompare_comp; [now rewrite E | reflexivity]).
  reflexivity.
Qed.

(** The double of a number does not depend on how the number is written. *)
#[global] Instance double_comp : Proper (Qeq ==> Qeq) Binary64.double.
Proof.
  intros x x' E. unfold Binary64.double.
  destruct (Qeq_bool x 0) eqn:Z0.
  - apply Qeq_bool_iff in Z0.
    assert (Qeq_bool x' 0 = true) as -> by (apply Qeq_bool_iff; now rewrite <- E).
    reflexivity.
  - assert (Hx : ~ x == 0) by (now apply Qeq_bool_neq).
    assert (Qeq_bool x' 0 = false) as ->.
    { destruct (Qeq_bool x' 0) eqn:Z1; [|reflexivity].
      apply Qeq_bool_iff in Z1. exfalso. apply Hx. now rewrite E. }
    pose proof (ulp_comp x x' E Hx) as Eu.
    rewrite (nearestEven_comp (x / Binary64.ulp x) (x' / Binary64.ulp x'))
      by (rewrite Eu, E; reflexivity).
    rewrite Eu. reflexivity.
Qed.

#[global] Instance Math_round_comp : Proper (Qeq ==> Qeq) Js.Math_round.
Proof.
  intros x y E. unfold Js.Math_round.
  rewrite (Qfloor_comp (x + (1 # 2)) (y + (1 # 2))); [reflexivity|].
  now rewrite E.
Qed.

(* ================================================================== *)
(** * Binary64: the conversions of the Betfair normaliser *)
(* ================================================================== *)

(** Whatever the price, the implied probability is between 0 and 101. *)
Lemma betfairOddsToPercent64_range (p : Q) :
  0 <= Binary64.betfairOddsToPercent p /\ Binary64.betfairOddsToPercent p <= 101.
Proof.
  destruct (Qlt_le_dec 1 p) as [H|H].
  - destruct (betfairOddsToPercent64_steps p H) as (n & E & (Hn0 & Hn1) & _).
    rewrite E.
    assert (H0 : 0 <= inject_Z n / 100).
    { apply Qle_shift_div_l; [reflexivity|].
      rewrite Qmult_0_l. change 0 with (inject_Z 0). now rewrite <- Zle_Qle. }
    assert (H1 : inject_Z n / 100 <= 100).
    { apply Qle_shift_div_r; [reflexivity|].
      change (100 * 100) with (inject_Z 10000). now rewrite <- Zle_Qle. }
    split; [now apply double_nonneg|].
    destruct (double_between (inject_Z n / 100) 100 ltac:(apply Qabs_le_of; lra))
      as [_ U].
    lra.
  - unfold Binary64.betfairOddsToPercent. apply Qle_bool_iff in H. rewrite H.
    split; discriminate.
Qed.

(** [Math.round(x * 100) / 100] in binary64, for an [x] of size at most
    202 that the engine has computed within 10^-12 of [m]: the result
    is [m] rounded to two decimals up to the margin. *)
Lemma round_hundredths64 (x m : Q) :
  Qabs x <= 202 -> Qabs (x - m) <= 1 # 2500000000000 ->
  rounded2_within tie_margin m
    (Binary64.div (Js.Math_round (Binary64.mul x 100)) 100).
Proof.
  intros Hx Hm. unfold Binary64.div, Binary64.mul, Js.Math_round.
  apply Qabs_Qle_condition in Hx. apply Qabs_Qle_condition in Hm.
  destruct (double_between (x * 100) 20200 ltac:(apply Qabs_le_of; lra)) as [L U].
  set (p := Binary64.double (x * 100)) in *. clearbody p.
  exists (Qfloor (p + (1 # 2))). split; [reflexivity|].
  destruct (Math_round_bounds p) as [R1 R2]. unfold Js.Math_round in R1, R2.
  set (r := inject_Z (Qfloor (p + (1 # 2)))) in *. clearbody r.
  unfold tie_margin.
  assert (Hr : r / 100 == r * (1 # 100)) by field. rewrite Hr.
  apply Qabs_Qle_condition. split; lra.
Qed.

(** The midpoint and the distance of two implied probabilities, as the
    loop computes them. *)
Lemma midpoint64 (b l : Q) :
  0 <= b <= 101 -> 0 <= l <= 101 ->
  rounded2_within tie_margin ((b + l) / 2)
    (Binary64.div (Js.Math_round
       (Binary64.mul (Binary64.div (Binary64.add b l) 2) 100)) 100).
Proof.
  intros [Hb0 Hb1] [Hl0 Hl1].
  unfold Binary64.add, Binary64.div at 2.
  destruct (double_between (b + l) 202 ltac:(apply Qabs_le_of; lra)) as [L1 U1].
  set (s := Binary64.double (b + l)) in *. clearbody s.
  assert (Es : s / 2 == s * (1 # 2)) by field.
  destruct (double_between (s / 2) 102 ltac:(apply Qabs_le_of; lra)) as [L2 U2].
  set (h := Binary64.double (s / 2)) in *. clearbody h.
  assert (Em : (b + l) / 2 == (b + l) * (1 # 2)) by field.
  apply round_hundredths64; apply Qabs_Qle_condition; split; lra.
Qed.

Lemma spread64 (b l : Q) :
  0 <= b <= 101 -> 0 <= l <= 101 ->
  rounded2_within tie_margin (Qabs (b - l))
    (Binary64.div (Js.Math_round
       (Binary64.mul (Js.Math_abs (Binary64.sub b l)) 100)) 100).
Proof.
  intros [Hb0 Hb1] [Hl0 Hl1].
  unfold Binary64.sub, Js.Math_abs.
  destruct (double_between (b - l) 101 ltac:(apply Qabs_le_of; lra)) as [L1 U1].
  set (d := Binary64.double (b - l)) in *. clearbody d.
  pose proof (Qabs_triangle_reverse d (b - l)) as T1.
  pose proof (Qabs_triangle_reverse (b - l) d) as T2.
  assert (T3 : Qabs (d - (b - l)) <= 102 * (1 # 1000000000000000))
    by (apply Qabs_le_of; lra).
  assert (T4 : Qabs (b - l - d) <= 102 * (1 # 1000000000000000))
    by (apply Qabs_le_of; lra).
  assert (Ha : Qabs (b - l) <= 101) by (apply Qabs_le_of; lra).
  pose proof (Qabs_nonneg (b - l)) as Ha0. pose proof (Qabs_nonneg d) as Hd0.
  set (ad := Qabs d) in *. set (am := Qabs (b - l)) in *.
  set (e1 := Qabs (d - (b - l))) in *. set (e2 := Qabs (b - l - d)) in *.
  clearbody ad am e1 e2.
  apply round_hundredths64; apply Qabs_Qle_condition; split; lra.
Qed.

Section Runner64.

Import Betfair.

Variable catalogue : BetfairMarketCatalogue.
Variable runner : BetfairRunnerBook.

Lemma runner64_two_sided (b l : Q) :
  Binary64.impliedOdds (backPrice runner) = Some b ->
  Binary64.impliedOdds (Binary64.layPrice runner) = Some l ->
  backOdds (Binary64.normalizeRunner catalogue runner) = Some b /\
  layOdds (Binary64.normalizeRunner catalogue runner) = Some l /\
  odds (Binary64.normalizeRunner catalogue runner)
    = Binary64.div (Js.Math_round
        (Binary64.mul (Binary64.div (Binary64.add b l) 2) 100)) 100 /\
  spread (Binary64.normalizeRunner catalogue runner)
    = Some (Binary64.div (Js.Math_round
        (Binary64.mul (Js.Math_abs (Binary64.sub b l)) 100)) 100) /\
  backOnly (Binary64.normalizeRunner catalogue runner) = Some false.
Proof.
  intros Hb Hl. unfold Binary64.normalizeRunner. rewrite Hb, Hl. auto.
Qed.

Lemma back_survives_implied64 (e : BetfairPriceSize) :
  back_survives runner e -> ~ price e == 0 ->
  Binary64.impliedOdds (backPrice runner)
  = Some (Binary64.betfairOddsToPercent (price e)).
Proof.
  intros (He & Hs) Hnz. unfold backPrice, sizedPrice. rewrite He.
  apply geb_le in Hs. rewrite Hs. simpl.
  apply truthy_nonzero in Hnz. now rewrite Hnz.
Qed.

Lemma lay_survives_implied64 (e : BetfairPriceSize) :
  lay_survives64 runner e -> ~ price e == 0 ->
  Binary64.impliedOdds (Binary64.layPrice runner)
  = Some (Binary64.betfairOddsToPercent (price e)).
Proof.
  intros (He & Hs & Hp) Hnz.
  unfold Binary64.layPrice, rawLayPrice, sizedPrice. rewrite He.
  apply geb_le in Hs, Hp. apply truthy_nonzero in Hnz.
  rewrite Hs, Hnz, Hp. simpl. now rewrite Hnz.
Qed.

End Runner64.

(** C3, as stated, fails: a back quote of price 0 and a lay quote of price 5,
    both of size 5, survive the size filter and the lay-percentage filter,
    yet the outcome has no [backOdds], no [spread], and [odds] 0, which is
    not within a hundredth of the midpoint 60 of the implied probabilities
    100 and 20. *)
Lemma zero_back_price_not_two_sided :
  back_survives (runner_with (Some (quote 0 5)) (Some (quote 5 5))) (quote 0 5) /\
  lay_survives64 (runner_with (Some (quote 0 5)) (Some (quote 5 5))) (quote 5 5) /\
  backOdds (Binary64.normalizeRunner winner_catalogue
              (runner_with (Some (quote 0 5)) (Some (quote 5 5)))) = None /\
  spread (Binary64.normalizeRunner winner_catalogue
            (runner_with (Some (quote 0 5)) (Some (quote 5 5)))) = None /\
  odds (Binary64.normalizeRunner winner_catalogue
          (runner_with (Some (quote 0 5)) (Some (quote 5 5)))) == 0 /\
  ~ rounded2_within tie_margin
      ((Binary64.betfairOddsToPercent 0 + Binary64.betfairOddsToPercent 5) / 2)
      (odds (Binary64.normalizeRunner winner_catalogue
               (runner_with (Some (quote 0 5)) (Some (quote 5 5))))).
Proof.
  assert (E0 : odds (Binary64.normalizeRunner winner_catalogue
                       (runner_with (Some (quote 0 5)) (Some (quote 5 5)))) == 0)
    by (vm_compute; reflexivity).
  assert (E60 : (Binary64.betfairOddsToPercent 0 + Binary64.betfairOddsToPercent 5) / 2
                == 60) by (vm_compute; reflexivity).
  split; [split; [reflexivity | vm_compute; discriminate]|].
  split; [repeat split; vm_compute; discriminate|].
  split; [reflexivity|]. split; [reflexivity|]. split; [exact E0|].
  intros (n & Hn & Hclose). rewrite E0 in Hn. rewrite E60 in Hclose.
  unfold tie_margin in Hclose. apply Qabs_Qle_condition in Hclose.
  destruct (double_between (inject_Z n / 100) 61 ltac:(apply Qabs_le_of; lra))
    as [L _].
  rewrite <- Hn in L. lra.
Qed.

(** Beside the zero price, the rounding of a midpoint that ends in half a
    hundredth is the engine's: back 1.05 and lay 1.1 give the implied
    probabilities 95.24 and 90.91, and [odds] 93.07 where the midpoint
    93.075 of the two decimals would round to 93.08. *)
Example midpoint_tie_rounds_down :
  backOdds (Binary64.normalizeRunner winner_catalogue runner64_tie)
  = Some (Binary64.betfairOddsToPercent (literal (105 # 100))) /\
  Binary64.betfairOddsToPercent (literal (105 # 100)) == literal (9524 # 100) /\
  Binary64.betfairOddsToPercent (literal (11 # 10)) == literal (9091 # 100) /\
  odds (Binary64.normalizeRunner winner_catalogue runner64_tie) == literal (9307 # 100) /\
  rounded2 (((9524 # 100) + (9091 # 100)) / 2) (9308 # 100).
Proof.
  split; [reflexivity|]. split; [vm_compute; reflexivity|].
  split; [vm_compute; reflexivity|]. split; [vm_compute; reflexivity|].
  exists 9308%Z. repeat split; vm_compute; reflexivity || discriminate.
Qed.

(** C3, amended.  For every runner whose back quote and lay quote both
    survive the size and lay-percentage filters and carry prices other than
    zero, [backOdds] and [layOdds] are the two implied probabilities;
    [odds] is the double nearest to a hundredth that is their midpoint
    rounded to two decimal places up to the engine's arithmetic (within
    half a hundredth and 10^-12 of the midpoint), [spread] likewise for
    their absolute difference, and [backOnly] is false; implied
    probabilities 20 and 24 give [odds] 22 and [spread] 4. *)
Theorem two_sided_midpoint_spread
    (c : Betfair.BetfairMarketCatalogue) (r : Betfair.BetfairRunnerBook)
    (eb el : Betfair.BetfairPriceSize) :
  back_survives r eb -> lay_survives64 r el ->
  ~ Betfair.price eb == 0 -> ~ Betfair.price el == 0 ->
  let b := Binary64.betfairOddsToPercent (Betfair.price eb) in
  let l := Binary64.betfairOddsToPercent (Betfair.price el) in
  let o := Binary64.normalizeRunner c r in
  backOdds o = Some b /\ layOdds o = Some l /\
  rounded2_within tie_margin ((b + l) / 2) (odds o) /\
  (exists s, spread o = Some s /\ rounded2_within tie_margin (Qabs (b - l)) s) /\
  backOnly o = Some false /\
  (b == 20 -> l == 24 ->
   odds o == 22 /\ exists s, spread o = Some s /\ s == 4).
Proof.
  intros Hb Hl Hbz Hlz b l o.
  pose proof (back_survives_implied64 r eb Hb Hbz) as Ib.
  pose proof (lay_survives_implied64 r el Hl Hlz) as Il.
  destruct (runner64_two_sided c r _ _ Ib Il) as (Hbo & Hlo & Ho & Hs & Hflag).
  fold b in Hbo, Hlo, Ho, Hs. fold l in Hbo, Hlo, Ho, Hs.
  fold o in Hbo, Hlo, Ho, Hs, Hflag.
  pose proof (betfairOddsToPercent64_range (Betfair.price eb)) as Rb.
  pose proof (betfairOddsToPercent64_range (Betfair.price el)) as Rl.
  fold b in Rb. fold l in Rl.
  split; [exact Hbo|]. split; [exact Hlo|].
  split; [rewrite Ho; now apply midpoint64|].
  split; [eexists; split; [exact Hs | now apply spread64]|].
  split; [exact Hflag|].
  intros B20 L24. split.
  - rewrite Ho. unfold Binary64.add, Binary64.div, Binary64.mul.
    rewrite B20, L24. vm_compute. reflexivity.
  - eexists. split; [exact Hs|].
    unfold Binary64.sub, Binary64.div, Binary64.mul, Js.Math_abs.
    rewrite B20, L24. vm_compute. reflexivity.
Qed.

Lemma two_sided_midpoint_spread_witness :
  odds (Binary64.normalizeRunner winner_catalogue runner64_20_24) == 22 /\
  exists s, spread (Binary64.normalizeRunner winner_catalogue runner64_20_24) = Some s
            /\ s == 4.
Proof.
  assert (back_survives runner64_20_24 (quote 5 10)) as H1
    by (split; [reflexivity | vm_compute; discriminate]).
  assert (lay_survives64 runner64_20_24
            (quote (literal (4166666666666667 # 1000000000000000)) 10)) as H2
    by (repeat split; vm_compute; discriminate).
  assert (~ 5 == 0) as H3 by discriminate.
  assert (~ literal (4166666666666667 # 1000000000000000) == 0) as H4
    by (vm_compute; discriminate).
  destruct (two_sided_midpoint_spread winner_catalogue runner64_20_24 _ _ H1 H2 H3 H4)
    as (_ & _ & _ & _ & _ & H).
  apply H; vm_compute; reflexivity.
Defined.

(* ================================================================== *)
(** * Binary64: rounding keeps the order *)
(* ================================================================== *)

Lemma nearestEven_monotone (y y' : Q) :
  y <= y' -> (Binary64.nearestEven y <= Binary64.nearestEven y')%Z.
Proof.
  intro H. destruct (Z_le_gt_dec (Binary64.nearestEven y) (Binary64.nearestEven y'))
    as [Hle|Hgt]; [exact Hle|exfalso].
  destruct (nearestEven_close y) as [_ U]. destruct (nearestEven_close y') as [L' _].
  assert (Hz : inject_Z (Binary64.nearestEven y' + 1) <= inject_Z (Binary64.nearestEven y))
    by (rewrite <- Zle_Qle; lia).
  rewrite inject_Z_plus in Hz. change (inject_Z 1) with 1 in Hz.
  assert (E : y == y') by lra.
  rewrite (nearestEven_comp y y' E) in Hgt. lia.
Qed.

Lemma nearestEven_integer (m : Z) : Binary64.nearestEven (inject_Z m) = m.
Proof.
  unfold Binary64.nearestEven. rewrite Qfloor_Z.
  assert (Qcompare (inject_Z m - inject_Z m) (1 # 2) = Lt) as ->
    by (apply (proj1 (Qlt_alt _ _)); lra).
  reflexivity.
Qed.

Lemma double_nonpos (x : Q) : x <= 0 -> Binary64.double x <= 0.
Proof.
  intro Hx. unfold Binary64.double.
  destruct (Qeq_bool x 0); [lra|].
  pose proof (ulp_pos x) as Hu.
  assert (Hy : x / Binary64.ulp x <= inject_Z 0).
  { apply Qle_shift_div_r; [exact Hu|]. change (inject_Z 0) with 0. lra. }
  apply nearestEven_monotone in Hy. rewrite nearestEven_integer in Hy.
  assert (Hn : inject_Z (Binary64.nearestEven (x / Binary64.ulp x)) <= 0)
    by (change 0 with (inject_Z 0); now rewrite <- Zle_Qle).
  set (n := inject_Z (Binary64.nearestEven (x / Binary64.ulp x))) in *.
  set (u := Binary64.ulp x) in *. clearbody n u.
  assert (0 <= (- n) * u) by (apply Qmult_le_0_compat; lra).
  lra.
Qed.

(** The exponent the spacing is taken from. *)
Lemma ulp_scale (x : Q) :
  Binary64.ulp x * inject_Z (2 ^ 53)
  == 2 ^ (Z.max (Binary64.exponent (Qabs x)) (-1022) + 1) /\
  Binary64.ulp x * inject_Z (2 ^ 52)
  == 2 ^ (Z.max (Binary64.exponent (Qabs x)) (-1022)).
Proof.
  unfold Binary64.ulp.
  set (E := Z.max (Binary64.exponent (Qabs x)) (-1022)).
  rewrite !Zpower_Qpower by lia. change (inject_Z 2) with 2. split.
  - rewrite <- Qpower_plus by discriminate. now replace (E - 52 + 53)%Z with (E + 1)%Z by lia.
  - rewrite <- Qpower_plus by discriminate. now replace (E - 52 + 52)%Z with E by lia.
Qed.

(** A number stays below the next power of two when rounded, and above
    the power of two below it when it is not subnormal. *)
Lemma double_magnitude (x : Q) :
  ~ x == 0 ->
  let E := Z.max (Binary64.exponent (Qabs x)) (-1022) in
  (0 < x -> Binary64.double x <= 2 ^ (E + 1)) /\
  (x < 0 -> - 2 ^ (E + 1) <= Binary64.double x) /\
  (0 < x -> (-1022 <= Binary64.exponent (Qabs x))%Z -> 2 ^ E <= Binary64.double x) /\
  (x < 0 -> (-1022 <= Binary64.exponent (Qabs x))%Z -> Binary64.double x <= - 2 ^ E).
Proof.
  intros Hx E.
  pose proof (Qabs_pos_of x Hx) as Ha.
  pose proof (exponent_le (Qabs x) Ha) as Elo.
  pose proof (exponent_lt (Qabs x) Ha) as Ehi.
  destruct (ulp_scale x) as [S53 S52]. fold E in S53, S52.
  pose proof (ulp_pos x) as Hu.
  assert (Hup : Qabs x < 2 ^ (E + 1)).
  { eapply Qlt_le_trans; [exact Ehi|].
    apply Qpower_le_compat_l; [unfold E; lia | discriminate]. }
  unfold Binary64.double.
  assert (Qeq_bool x 0 = false) as ->.
  { destruct (Qeq_bool x 0) eqn:Z0; [|reflexivity].
    apply Qeq_bool_iff in Z0. contradiction. }
  set (u := Binary64.ulp x) in *.
  split; [|split; [|split]].
  - intro Hp. rewrite (Qabs_pos x) in Hup by lra.
    assert (Hy : x / u <= inject_Z (2 ^ 53)).
    { apply Qle_shift_div_r; [exact Hu|]. rewrite Qmult_comm, S53. lra. }
    apply nearestEven_monotone in Hy. rewrite nearestEven_integer in Hy.
    rewrite Zle_Qle in Hy. rewrite <- S53, (Qmult_comm u).
    apply Qmult_le_compat_r; [exact Hy | lra].
  - intro Hn. rewrite (Qabs_neg x) in Hup by lra.
    assert (Hy : inject_Z (- 2 ^ 53) <= x / u).
    { apply Qle_shift_div_l; [exact Hu|].
      rewrite inject_Z_opp.
      setoid_replace (- inject_Z (2 ^ 53) * u) with (- (u * inject_Z (2 ^ 53))) by ring.
      rewrite S53. lra. }
    apply nearestEven_monotone in Hy. rewrite nearestEven_integer in Hy.
    rewrite Zle_Qle in Hy. rewrite inject_Z_opp in Hy.
    setoid_replace (- 2 ^ (E + 1)) with (- inject_Z (2 ^ 53) * u)
      by (rewrite <- S53; ring).
    apply Qmult_le_compat_r; [exact Hy | lra].
  - intros Hp Hnorm. assert (Hax : Qabs x == x) by (apply Qabs_pos; lra).
    assert (EE : E = Binary64.exponent (Qabs x)) by (unfold E; lia).
    assert (Hy : inject_Z (2 ^ 52) <= x / u).
    { apply Qle_shift_div_l; [exact Hu|]. rewrite Qmult_comm, S52, EE. lra. }
    apply nearestEven_monotone in Hy. rewrite nearestEven_integer in Hy.
    rewrite Zle_Qle in Hy. rewrite <- S52, (Qmult_comm u).
    apply Qmult_le_compat_r; [exact Hy | lra].
  - intros Hn Hnorm. assert (Hax : Qabs x == - x) by (apply Qabs_neg; lra).
    assert (EE : E = Binary64.exponent (Qabs x)) by (unfold E; lia).
    assert (Hy : x / u <= inject_Z (- 2 ^ 52)).
    { apply Qle_shift_div_r; [exact Hu|].
      rewrite inject_Z_opp.
      setoid_replace (- inject_Z (2 ^ 52) * u) with (- (u * inject_Z (2 ^ 52))) by ring.
      rewrite S52, EE. lra. }
    apply nearestEven_monotone in Hy. rewrite nearestEven_integer in Hy.
    rewrite Zle_Qle in Hy. rewrite inject_Z_opp in Hy.
    setoid_replace (- 2 ^ E) with (- inject_Z (2 ^ 52) * u)
      by (rewrite <- S52; ring).
    apply Qmult_le_compat_r; [exact Hy | lra].
Qed.

Lemma exponent_monotone (a b : Q) :
  0 < a -> a <= b -> (Binary64.exponent a <= Binary64.exponent b)%Z.
Proof.
  intros Ha Hab.
  pose proof (exponent_le a Ha) as La.
  pose proof (exponent_lt b ltac:(lra)) as Ub.
  assert (Binary64.exponent a < Binary64.exponent b + 1)%Z
    by (apply (Qpower_lt_compat_l_inv 2); [lra | reflexivity]).
  lia.
Qed.

Lemma double_unfold (x : Q) :
  ~ x == 0 ->
  Binary64.double x
  = inject_Z (Binary64.nearestEven (x / Binary64.ulp x)) * Binary64.ulp x.
Proof.
  intro Hx. unfold Binary64.double.
  destruct (Qeq_bool x 0) eqn:Z0; [|reflexivity].
  apply Qeq_bool_iff in Z0. contradiction.
Qed.

(** Rounding keeps the order. *)
Lemma double_monotone (x y : Q) :
  x <= y -> Binary64.double x <= Binary64.double y.
Proof.
  intro Hxy.
  destruct (Qlt_le_dec 0 x) as [Hx|Hx].
  - (* both positive *)
    assert (Nx : ~ x == 0) by lra. assert (Ny : ~ y == 0) by lra.
    assert (Ax : Qabs x == x) by (apply Qabs_pos; lra).
    assert (Ay : Qabs y == y) by (apply Qabs_pos; lra).
    pose proof (exponent_monotone (Qabs x) (Qabs y) ltac:(lra) ltac:(lra)) as Hexp.
    destruct (double_magnitude x Nx) as (Ux & _ & _ & _).
    destruct (double_magnitude y Ny) as (_ & _ & Ly & _).
    set (Ex := Z.max (Binary64.exponent (Qabs x)) (-1022)) in *.
    set (Ey := Z.max (Binary64.exponent (Qabs y)) (-1022)) in *.
    destruct (Z.eq_dec Ex Ey) as [Eq|Ne].
    + rewrite (double_unfold x Nx), (double_unfold y Ny).
      assert (Eu : Binary64.ulp y = Binary64.ulp x)
        by (unfold Binary64.ulp; fold Ex; fold Ey; now rewrite Eq).
      rewrite Eu. pose proof (ulp_pos x) as Hu.
      apply Qmult_le_compat_r; [|lra].
      rewrite <- Zle_Qle. apply nearestEven_monotone.
      apply Qle_shift_div_l; [exact Hu|].
      setoid_replace (x / Binary64.ulp x * Binary64.ulp x) with x by (field; lra).
      exact Hxy.
    + assert (Hlt : (Ex + 1 <= Ey)%Z) by (unfold Ex, Ey in *; lia).
      assert (Hnorm : (-1022 <= Binary64.exponent (Qabs y))%Z)
        by (unfold Ex, Ey in *; lia).
      eapply Qle_trans; [apply Ux; lra|].
      eapply Qle_trans; [|apply Ly; [lra | exact Hnorm]].
      apply Qpower_le_compat_l; [exact Hlt | discriminate].
  - destruct (Qlt_le_dec y 0) as [Hy|Hy].
    + (* both negative *)
      assert (Nx : ~ x == 0) by lra. assert (Ny : ~ y == 0) by lra.
      assert (Ax : Qabs x == - x) by (apply Qabs_neg; lra).
      assert (Ay : Qabs y == - y) by (apply Qabs_neg; lra).
      pose proof (exponent_monotone (Qabs y) (Qabs x) ltac:(lra) ltac:(lra)) as Hexp.
      destruct (double_magnitude x Nx) as (_ & _ & _ & Ux).
      destruct (double_magnitude y Ny) as (_ & Ly & _ & _).
      set (Ex := Z.max (Binary64.exponent (Qabs x)) (-1022)) in *.
      set (Ey := Z.max (Binary64.exponent (Qabs y)) (-1022)) in *.
      destruct (Z.eq_dec Ex Ey) as [Eq|Ne].
      * rewrite (double_unfold x Nx), (double_unfold y Ny).
        assert (Eu : Binary64.ulp y = Binary64.ulp x)
          by (unfold Binary64.ulp; fold Ex; fold Ey; now rewrite Eq).
        rewrite Eu. pose proof (ulp_pos x) as Hu.
        apply Qmult_le_compat_r; [|lra].
        rewrite <- Zle_Qle. apply nearestEven_monotone.
        apply Qle_shift_div_l; [exact Hu|].
        setoid_replace (x / Binary64.ulp x * Binary64.ulp x) with x by (field; lra).
        exact Hxy.
      * assert (Hlt : (Ey + 1 <= Ex)%Z) by (unfold Ex, Ey in *; lia).
        assert (Hnorm : (-1022 <= Binary64.exponent (Qabs x))%Z)
          by (unfold Ex, Ey in *; lia).
        eapply Qle_trans; [apply Ux; [lra | exact Hnorm]|].
        eapply Qle_trans; [|apply Ly; lra].
        apply Qopp_le_compat.
        apply Qpower_le_compat_l; [exact Hlt | discriminate].
    + eapply Qle_trans; [apply double_nonpos; exact Hx | apply double_nonneg; exact Hy].
Qed.

(* ================================================================== *)
(** * Binary64: the decimal-odds conversion *)
(* ================================================================== *)

(** C7, amended.  The decimal-odds conversion returns exactly 100 for every
    price at most 1.  For every other price it returns a number between 0
    and 100 that is the double nearest to a whole number of hundredths, and
    that hundredth is [100 / price] rounded to two decimal places up to the
    engine's arithmetic: within half a hundredth and 10^-12 of
    [100 / price].  At 4.55 it returns 21.98. *)
Theorem betfairOddsToPercent_implied_probability (d : Q) :
  (d <= 1 -> Binary64.betfairOddsToPercent d == 100) /\
  (1 < d ->
   rounded2_within tie_margin (100 / d) (Binary64.betfairOddsToPercent d) /\
   0 <= Binary64.betfairOddsToPercent d /\ Binary64.betfairOddsToPercent d <= 100) /\
  Binary64.betfairOddsToPercent (literal (455 # 100)) == literal (2198 # 100).
Proof.
  split; [|split].
  - intro H. unfold Binary64.betfairOddsToPercent.
    apply Qle_bool_iff in H. rewrite H. reflexivity.
  - intro H. destruct (betfairOddsToPercent64_steps d H) as (n & E & (Hn0 & Hn1) & Hc).
    split; [exists n; split; assumption|].
    rewrite E. split.
    + apply double_nonneg. apply Qle_shift_div_l; [reflexivity|].
      rewrite Qmult_0_l. change 0 with (inject_Z 0). now rewrite <- Zle_Qle.
    + assert (E100 : Binary64.double 100 == 100) by (vm_compute; reflexivity).
      apply Qle_trans with (Binary64.double 100); [|rewrite E100; discriminate].
      apply double_monotone.
      apply Qle_shift_div_r; [reflexivity|].
      change (100 * 100) with (inject_Z 10000). now rewrite <- Zle_Qle.
  - vm_compute. reflexivity.
Qed.

Lemma betfairOddsToPercent_implied_probability_witness :
  Binary64.betfairOddsToPercent (1 # 2) == 100 /\
  rounded2_within tie_margin (100 / 4) (Binary64.betfairOddsToPercent 4).
Proof.
  destruct (betfairOddsToPercent_implied_probability (1 # 2)) as (Hle & _ & _).
  destruct (betfairOddsToPercent_implied_probability 4) as (_ & Hgt & _).
  split; [apply Hle; unfold Qle; simpl; lia | apply Hgt; reflexivity].
Defined.

(* ================================================================== *)
(** * Binary64: the currency conversion *)
(* ================================================================== *)



(* ================================================================== *)
(** * Binary64: volumes as text *)
(* ================================================================== *)

(** [parseVolumeString] on a dollar sign, digits and points, and one of
    the unit letters or none. *)
Lemma parseVolumeString64_shown (body : string) :
  allChars Format.isDigitOrDot body = true -> (1 <= String.length body)%nat ->
  Binary64.parseVolumeString ("$" ++ body) = Binary64.parseFloat body /\
  Binary64.parseVolumeString ("$" ++ body ++ "k")
  = option_map (fun v => Binary64.mul v 1000) (Binary64.parseFloat body) /\
  Binary64.parseVolumeString ("$" ++ body ++ "m")
  = option_map (fun v => Binary64.mul v 1000000) (Binary64.parseFloat body) /\
  Binary64.parseVolumeString ("$" ++ body ++ "b")
  = option_map (fun v => Binary64.mul v 1000000000) (Binary64.parseFloat body).
Proof.
  intros Hb Hl.
  assert (Hnil : forall t : string, (t ++ "")%string = t)
    by (induction t as [|a t IH]; simpl; [reflexivity | now rewrite IH]).
  assert (Hgo : forall sfx,
             Format.toLowerCase (Format.removeAll Format.isDollarOrComma sfx) = sfx ->
             match sfx with
             | EmptyString => true
             | String c _ => negb (Format.isDigitOrDot c)
             end = true ->
             Format.span Format.isDigitOrDot
               (Format.toLowerCase
                  (Format.removeAll Format.isDollarOrComma ("$" ++ body ++ sfx)))
             = (body, sfx)).
  { intros sfx Hclean Hstop. cbn [append Format.removeAll].
    change (Format.isDollarOrComma "$") with true. cbv iota.
    rewrite removeAll_app, toLowerCase_app, (clean_numeric body Hb), Hclean.
    now apply span_app. }
  destruct body as [|c body]; [simpl in Hl; lia|].
  repeat split.
  - unfold Binary64.parseVolumeString.
    pose proof (Hgo EmptyString eq_refl eq_refl) as H. rewrite Hnil in H.
    rewrite H. reflexivity.
  - unfold Binary64.parseVolumeString.
    rewrite (Hgo "k"%string eq_refl eq_refl). reflexivity.
  - unfold Binary64.parseVolumeString.
    rewrite (Hgo "m"%string eq_refl eq_refl). reflexivity.
  - unfold Binary64.parseVolumeString.
    rewrite (Hgo "b"%string eq_refl eq_refl). reflexivity.
Qed.

(** A volume divided by its unit, printed with one decimal, read back and
    multiplied by the unit again. *)
Lemma unit_round_trip (usd unit y w0 : Q) :
  0 <= usd -> 1000 <= unit -> unit <= usd -> usd <= unit * 1000000000000 ->
  y = Binary64.div usd unit ->
  w0 == inject_Z (Qfloor (y * inject_Z (10 ^ Z.of_nat 1) + (1 # 2)))
        / inject_Z (10 ^ Z.of_nat 1) ->
  Qabs (Binary64.mul (Binary64.double w0) unit - usd)
  <= unit * (1 # 20) + (usd + 1) * (1 # 100000000000000).
Proof.
  intros H0 Hu Hlo Hhi -> Hw. unfold Binary64.div, Binary64.mul in *.
  assert (Hq : 0 <= usd / unit) by (apply Qle_shift_div_l; lra).
  assert (Hq1 : usd / unit <= 1000000000000) by (apply Qle_shift_div_r; lra).
  assert (Equ : usd == usd / unit * unit) by (field; lra).
  set (q := usd / unit) in *. clearbody q.
  pose proof (double_nonneg q Hq) as Py.
  destruct (double_between q q ltac:(apply Qabs_le_of; lra)) as [L1 U1].
  set (y := Binary64.double q) in *. clearbody y.
  destruct (shown_tenth y w0 Hw) as [L2 U2].
  destruct (double_between w0 (q + 1) ltac:(apply Qabs_le_of; lra)) as [L3 U3].
  set (w := Binary64.double w0) in *. clearbody w.
  assert (Hwu : Qabs (w * unit) <= usd + 2 * unit).
  { apply Qabs_le_of; nra. }
  destruct (double_between (w * unit) (usd + 2 * unit) Hwu) as [L4 U4].
  set (v := Binary64.double (w * unit)) in *. clearbody v.
  apply Qabs_Qle_condition. split; nra.
Qed.

(** X27.  In the engine's arithmetic, the text [formatVolume] prints for a
    volume from 0 up to 10^21 (where [toFixed] keeps to plain digits) is
    read back by [parseVolumeString] as a number, not as [NaN], and that
    number is within half of the last digit shown of the volume, up to the
    rounding of the division and of the multiplication by the unit: 50
    million from a billion on, 50 thousand from a million on, 50 from a
    thousand on, a half below, and the 10^-14 part of the volume more. *)
Theorem volume_text_round_trip (usd : Q) :
  0 <= usd -> usd < 1000000000000000000000 ->
  exists v,
    Binary64.parseVolumeString (Binary64.formatVolume usd) = Some v /\
    Qabs (v - usd) <= halfStep usd + (usd + 1) * (1 # 100000000000000).
Proof.
  intros Hpos Hbig. unfold Binary64.formatVolume, halfStep.
  destruct (Js.geb usd 1000000000) eqn:Eb;
    [|destruct (Js.geb usd 1000000) eqn:Em; [|destruct (Js.geb usd 1000) eqn:Ek]].
  - apply geb_le in Eb.
    assert (Hy : 0 <= Binary64.div usd 1000000000)
      by (apply double_nonneg, Qle_shift_div_l; lra).
    destruct (toFixed_nonneg _ 1 Hy) as (Hnum & Hlen & v & Hp & Hv).
    destruct (parseVolumeString64_shown _ Hnum Hlen) as (_ & _ & _ & Hparse).
    rewrite Hparse. unfold Binary64.parseFloat. rewrite Hp. eexists.
    split; [reflexivity|].
    pose proof (unit_round_trip usd 1000000000 _ v Hpos ltac:(lra) Eb
                  ltac:(lra) eq_refl Hv) as H.
    lra.
  - assert (Hlt : usd < 1000000000).
    { apply Qnot_le_lt. intro H. apply geb_le in H. congruence. }
    apply geb_le in Em.
    assert (Hy : 0 <= Binary64.div usd 1000000)
      by (apply double_nonneg, Qle_shift_div_l; lra).
    destruct (toFixed_nonneg _ 1 Hy) as (Hnum & Hlen & v & Hp & Hv).
    destruct (parseVolumeString64_shown _ Hnum Hlen) as (_ & _ & Hparse & _).
    rewrite Hparse. unfold Binary64.parseFloat. rewrite Hp. eexists.
    split; [reflexivity|].
    pose proof (unit_round_trip usd 1000000 _ v Hpos ltac:(lra) Em
                  ltac:(lra) eq_refl Hv) as H.
    lra.
  - assert (Hlt : usd < 1000000).
    { apply Qnot_le_lt. intro H. apply geb_le in H. congruence. }
    apply geb_le in Ek.
    assert (Hy : 0 <= Binary64.div usd 1000)
      by (apply double_nonneg, Qle_shift_div_l; lra).
    destruct (toFixed_nonneg _ 1 Hy) as (Hnum & Hlen & v & Hp & Hv).
    destruct (parseVolumeString64_shown _ Hnum Hlen) as (_ & Hparse & _ & _).
    rewrite Hparse. unfold Binary64.parseFloat. rewrite Hp. eexists.
    split; [reflexivity|].
    pose proof (unit_round_trip usd 1000 _ v Hpos ltac:(lra) Ek
                  ltac:(lra) eq_refl Hv) as H.
    lra.
  - assert (Hlt : usd < 1000).
    { apply Qnot_le_lt. intro H. apply geb_le in H. congruence. }
    destruct (toFixed_nonneg _ 0 Hpos) as (Hnum & Hlen & v & Hp & Hv).
    destruct (parseVolumeString64_shown _ Hnum Hlen) as (Hparse & _ & _ & _).
    rewrite Hparse. unfold Binary64.parseFloat. rewrite Hp. eexists.
    split; [reflexivity|].
    destruct (shown_unit _ _ Hv) as [Hlo Hhi].
    destruct (double_between v (usd + 1) ltac:(apply Qabs_le_of; lra)) as [L U].
    apply Qabs_Qle_condition. split; lra.
Qed.

Lemma volume_text_round_trip_witness :
  exists v,
    Binary64.parseVolumeString (Binary64.formatVolume 16050) = Some v /\
    Qabs (v - 16050) <= halfStep 16050 + (16050 + 1) * (1 # 100000000000000).
Proof. apply (volume_text_round_trip 16050); vm_compute; reflexivity || discriminate. Defined.

(* ================================================================== *)
(** * Binary64: the outcomes of a Polymarket market *)
(* ================================================================== *)

(** The conversion of a price between 0 and 1 read from a text, step by
    step. *)
Lemma polymarketOddsToPercent64_steps (p : Q) :
  0 <= p -> p <= 1 ->
  exists n : Z,
    Binary64.polymarketOddsToPercent (Binary64.double p)
    == Binary64.double (inject_Z n / 100) /\
    (0 <= n <= 10000)%Z /\
    Qabs (inject_Z n / 100 - 100 * p) <= (1 # 200) + tie_margin.
Proof.
  intros H0 H1. unfold Binary64.polymarketOddsToPercent.
  unfold Binary64.div, Binary64.mul, Js.Math_round.
  pose proof (double_nonneg p H0) as P1.
  destruct (double_between p 1 ltac:(apply Qabs_le_of; lra)) as [L1 U1].
  set (q1 := Binary64.double p) in *. clearbody q1.
  pose proof (double_nonneg (q1 * 100) ltac:(lra)) as P2.
  destruct (double_between (q1 * 100) 101 ltac:(apply Qabs_le_of; lra)) as [L2 U2].
  set (q2 := Binary64.double (q1 * 100)) in *. clearbody q2.
  pose proof (double_nonneg (q2 * 100) ltac:(lra)) as P3.
  destruct (double_between (q2 * 100) 10101 ltac:(apply Qabs_le_of; lra)) as [L3 U3].
  set (q3 := Binary64.double (q2 * 100)) in *. clearbody q3.
  exists (Qfloor (q3 + (1 # 2))). split; [reflexivity|].
  split.
  - apply Math_round_Z_bounds; [exact P3 | change (inject_Z 10000) with 10000; lra].
  - destruct (Math_round_bounds q3) as [R1 R2]. unfold Js.Math_round in R1, R2.
    set (r := inject_Z (Qfloor (q3 + (1 # 2)))) in *. clearbody r.
    unfold tie_margin.
    assert (Hr : r / 100 == r * (1 # 100)) by field. rewrite Hr.
    apply Qabs_Qle_condition. split; lra.
Qed.

#[global] Instance polymarketOddsToPercent64_comp :
  Proper (Qeq ==> Qeq) Binary64.polymarketOddsToPercent.
Proof.
  intros x y E. unfold Binary64.polymarketOddsToPercent, Binary64.div, Binary64.mul.
  now rewrite E.
Qed.

Section Polymarket64.

Import Polymarket.

Variable JSON_parse : string -> option JsValue.

(** The price the engine reads is the double nearest to the decimal
    written. *)
Lemma priceAt64_double (prices : JsValue) (i : nat) :
  Binary64.priceAt prices i == Binary64.double (priceAt prices i).
Proof.
  assert (D0 : Binary64.double 0 == 0) by reflexivity.
  unfold Binary64.priceAt, priceAt, Binary64.parseFloatString.
  destruct (js_index prices i) as [v|]; [|symmetry; exact D0].
  destruct (parseFloatString v) as [q|]; [|symmetry; exact D0].
  cbn [option_map Js.or_num].
  destruct (Js.truthy q) eqn:Tq, (Js.truthy (Binary64.double q)) eqn:Td;
    try reflexivity.
  - symmetry. destruct (Qeq_dec (Binary64.double q) 0) as [E|E]; [exact E|].
    apply truthy_nonzero in E. congruence.
  - exfalso. apply truthy_nonzero in Td. apply Td.
    assert (Eq : q == 0).
    { destruct (Qeq_dec q 0) as [E|E]; [exact E|].
      apply truthy_nonzero in E. congruence. }
    rewrite Eq. exact D0.
Qed.

Lemma tryOutcomes64_assigned (market : PolymarketSearchMarket) (os : list Outcome) :
  Binary64.tryOutcomes JSON_parse market = Normal (Some os) ->
  exists names prices,
    decode JSON_parse (pm_outcomes market) = Normal (JArr names) /\
    decode JSON_parse (outcomePrices market) = Normal prices /\
    names <> [] /\
    os = mapi (Binary64.mkPolyOutcome prices) 0%nat names.
Proof.
  unfold Binary64.tryOutcomes, bind.
  destruct (decode JSON_parse (pm_outcomes market)) as [names|]; [|discriminate].
  destruct (decode JSON_parse (outcomePrices market)) as [prices|]; [|discriminate].
  destruct (js_length names) as [ln|] eqn:Ln; [|discriminate].
  destruct (positive ln) eqn:Pn; [|discriminate].
  destruct (js_length prices) as [lp|]; [|discriminate].
  destruct (positive lp); [|discriminate].
  destruct names as [| | | |l|]; try discriminate.
  intros H. injection H as <-. exists l, prices. repeat split.
  intros ->. simpl in Ln. injection Ln as <-. discriminate.
Qed.

Lemma polymarket64_outcomes (now : string) (market : PolymarketSearchMarket)
    (event : PolymarketSearchEvent) :
  outcomes (Binary64.normalizeMarketWithEvent JSON_parse now market event) =
  match Binary64.tryOutcomes JSON_parse market with
  | Normal r => r
  | Throw => None
  end.
Proof.
  unfold Binary64.normalizeMarketWithEvent.
  destruct (Binary64.tryOutcomes JSON_parse market) as [[os|]|]; reflexivity.
Qed.

(** X12.  When a Polymarket market carries outcomes there is one per
    decoded name, in the order of the names.  The outcome at index [i] has
    the name at that index and none of the exchange-only fields; its [odds]
    are the conversion of the price at the same index, 0 when the prices
    run out there.  For a price between 0 and 1 these [odds] are between 0
    and 100, the double nearest to a whole number of hundredths, and that
    hundredth is 100 times the price written, rounded to two decimal places
    up to the engine's arithmetic (within half a hundredth and 10^-12). *)
Theorem polymarket_outcomes_by_index (now : string)
    (market : PolymarketSearchMarket) (event : PolymarketSearchEvent)
    (os : list Outcome) :
  outcomes (Binary64.normalizeMarketWithEvent JSON_parse now market event) = Some os ->
  exists names prices,
    decode JSON_parse (pm_outcomes market) = Normal (JArr names) /\
    decode JSON_parse (outcomePrices market) = Normal prices /\
    List.length os = List.length names /\
    forall i o, nth_error os i = Some o ->
      nth_error names i = Some (name o) /\
      odds o = Binary64.polymarketOddsToPercent (Binary64.priceAt prices i) /\
      (0 <= priceAt prices i -> priceAt prices i <= 1 ->
       rounded2_within tie_margin (100 * priceAt prices i) (odds o) /\
       0 <= odds o /\ odds o <= 100) /\
      (js_index prices i = None -> odds o == 0) /\
      backOdds o = None /\ layOdds o = None /\ spread o = None /\
      thinLiquidity o = None /\ backOnly o = None.
Proof.
  rewrite polymarket64_outcomes.
  destruct (Binary64.tryOutcomes JSON_parse market) as [res|] eqn:T; [|discriminate].
  intros ->.
  destruct (tryOutcomes64_assigned market os T)
    as (names & prices & Dn & Dp & _ & ->).
  exists names, prices. split; [exact Dn|]. split; [exact Dp|].
  split; [apply mapi_length|].
  intros i o Ho. apply mapi_nth in Ho as (x & Hx & ->). cbn [Nat.add].
  cbn [Binary64.mkPolyOutcome name odds backOdds layOdds spread thinLiquidity backOnly].
  split; [exact Hx|]. split; [reflexivity|]. split; [|split; [|repeat split]].
  - intros H0 H1.
    destruct (polymarketOddsToPercent64_steps _ H0 H1) as (n & E & (Hn0 & Hn1) & Hc).
    assert (Eo : Binary64.polymarketOddsToPercent (Binary64.priceAt prices i)
                 == Binary64.double (inject_Z n / 100))
      by (rewrite (priceAt64_double prices i); exact E).
    split; [exists n; split; [exact Eo | exact Hc]|].
    rewrite Eo. split.
    + apply double_nonneg. apply Qle_shift_div_l; [reflexivity|].
      rewrite Qmult_0_l. change 0 with (inject_Z 0). now rewrite <- Zle_Qle.
    + assert (E100 : Binary64.double 100 == 100) by (vm_compute; reflexivity).
      apply Qle_trans with (Binary64.double 100); [|rewrite E100; discriminate].
      apply double_monotone.
      apply Qle_shift_div_r; [reflexivity|].
      change (100 * 100) with (inject_Z 10000). now rewrite <- Zle_Qle.
  - intros Hnone. unfold Binary64.priceAt. rewrite Hnone. reflexivity.
Qed.

End Polymarket64.

Lemma polymarket_outcomes_by_index_witness :
  exists names prices os,
    outcomes (Binary64.normalizeMarketWithEvent parse_empty_array "now"
                (yes_no_market "0.22" "0.78") greenland_event) = Some os /\
    Polymarket.decode parse_empty_array
      (Polymarket.pm_outcomes (yes_no_market "0.22" "0.78"))
    = Polymarket.Normal (JArr names) /\
    Polymarket.decode parse_empty_array
      (Polymarket.outcomePrices (yes_no_market "0.22" "0.78"))
    = Polymarket.Normal prices /\
    forall o, nth_error os 1 = Some o ->
      nth_error names 1 = Some (name o) /\
      rounded2_within tie_margin (100 * Polymarket.priceAt prices 1) (odds o).
Proof.
  destruct (polymarket_outcomes_by_index parse_empty_array "now"
              (yes_no_market "0.22" "0.78") greenland_event _ eq_refl)
    as (names & prices & Dn & Dp & _ & H).
  exists names, prices. eexists. split; [reflexivity|].
  split; [exact Dn|]. split; [exact Dp|].
  intros o Ho. destruct (H 1%nat o Ho) as (Hname & _ & Hodds & _).
  split; [exact Hname|].
  injection Dp as <-. apply Hodds; vm_compute; discriminate.
Defined.

(* ================================================================== *)
(** * The table as text *)
(* ================================================================== *)

Lemma maxOf_attained (ns : list nat) (n : nat) :
  Format.maxOf n ns = n \/ In (Format.maxOf n ns) ns.
Proof.
  unfold Format.maxOf. revert n.
  induction ns as [|k ns IH]; intro n; simpl; [now left|].
  destruct (IH (Nat.max n k)) as [H|H]; [|right; now right].
  rewrite H. destruct (Nat.max_spec n k) as [[_ ->]|[_ ->]]; [right; now left | now left].
Qed.

(** Every column is exactly as wide as its header or as one of its
    cells. *)
Lemma columnWidths_attained (rows : list (list string)) (i : nat) :
  (i < 4)%nat ->
  nth i (Table.columnWidths rows) 0%nat = String.length (Table.cell Table.headers i) \/
  exists r, In r rows /\
    nth i (Table.columnWidths rows) 0%nat = String.length (Table.cell r i).
Proof.
  intro Hi. unfold Table.columnWidths, Table.headers. cbn [Polymarket.mapi].
  destruct i as [|[|[|[|i]]]]; try lia; cbn [nth Table.cell];
    (match goal with
     | |- Format.maxOf ?n ?ns = _ \/ _ =>
         destruct (maxOf_attained ns n) as [H|H]; [left; exact H|right]
     end;
     apply in_map_iff in H; destruct H as (r & Hr & Hin);
     exists r; split; [exact Hin | now rewrite <- Hr]).
Qed.

Lemma noNewline_app (a b : string) :
  noNewline (a ++ b) = noNewline a && noNewline b.
Proof. apply allChars_app. Qed.

Lemma repeatChar_noNewline (c : ascii) (n : nat) :
  Ascii.eqb c (ascii_of_nat 10) = false ->
  noNewline (Format.repeatChar c n) = true.
Proof.
  intro Hc. induction n as [|n IH]; [reflexivity|].
  unfold noNewline in *. cbn [Format.repeatChar allChars]. now rewrite Hc, IH.
Qed.

Lemma padEnd_noNewline (s : string) (w : nat) :
  noNewline s = true -> noNewline (Format.padEnd s w) = true.
Proof.
  intro H. unfold Format.padEnd.
  rewrite noNewline_app, H. now apply repeatChar_noNewline.
Qed.

Lemma tableRow_noNewline (c0 c1 c2 c3 : string) (widths : list nat) :
  noNewline c0 = true -> noNewline c1 = true ->
  noNewline c2 = true -> noNewline c3 = true ->
  noNewline (Table.tableRow [c0; c1; c2; c3] widths) = true.
Proof.
  intros H0 H1 H2 H3. unfold Table.tableRow, Table.padCells.
  cbn [Polymarket.mapi String.concat].
  repeat rewrite noNewline_app.
  rewrite !padEnd_noNewline by assumption. reflexivity.
Qed.

Lemma separatorRow_noNewline (rows : list (list string)) :
  noNewline (Table.separatorRow (Table.columnWidths rows)) = true.
Proof.
  unfold Table.separatorRow, Table.columnWidths, Table.headers.
  cbn [Polymarket.mapi map String.concat].
  repeat rewrite noNewline_app.
  rewrite !repeatChar_noNewline by reflexivity. reflexivity.
Qed.

(** Splitting at the line feeds undoes joining with them, for lines that
    hold none. *)
Lemma splitLines_line (l : string) :
  noNewline l = true -> splitLines l = [l].
Proof.
  induction l as [|c l IH]; [reflexivity|].
  unfold noNewline. cbn [allChars splitLines]. intro H.
  apply andb_true_iff in H. destruct H as [Hc Hl].
  apply negb_true_iff in Hc. rewrite Hc. now rewrite (IH Hl).
Qed.

Lemma splitLines_cons (l rest : string) :
  noNewline l = true ->
  splitLines (l ++ Table.newline ++ rest) = l :: splitLines rest.
Proof.
  induction l as [|c l IH]; [reflexivity|].
  unfold noNewline. cbn [allChars splitLines append]. intro H.
  apply andb_true_iff in H. destruct H as [Hc Hl].
  apply negb_true_iff in Hc. rewrite Hc. now rewrite (IH Hl).
Qed.

Lemma splitLines_join (lines : list string) :
  lines <> [] -> Forall (fun l => noNewline l = true) lines ->
  splitLines (String.concat Table.newline lines) = lines.
Proof.
  intros Hne Hall. induction Hall as [|l ls Hl Hls IH]; [contradiction|].
  destruct ls as [|l2 ls].
  - cbn [String.concat]. now apply splitLines_line.
  - change (String.concat Table.newline (l :: l2 :: ls))
      with (l ++ Table.newline ++ String.concat Table.newline (l2 :: ls))%string.
    rewrite (splitLines_cons _ _ Hl). f_equal. apply IH. discriminate.
Qed.

(** The texts of the formatters hold no line feed. *)
Lemma digits_noNewline (s : string) :
  allChars isDigit s = true -> noNewline s = true.
Proof.
  apply allChars_weaken. intros c Hc.
  destruct c as [[] [] [] [] [] [] [] []]; try discriminate Hc; reflexivity.
Qed.

Lemma toFixed_noNewline (x : Q) (f : nat) : noNewline (Format.toFixed x f) = true.
Proof.
  unfold Format.toFixed.
  set (n := Qfloor (Qabs x * inject_Z (10 ^ Z.of_nat f) + (1 # 2))).
  destruct (digitsOfN_value (Z.to_N n)) as (Hd & _ & Hl).
  set (m := Format.digitsOfN (Z.to_N n)) in *.
  rewrite noNewline_app.
  assert (noNewline (if Js.ltb x 0 then "-" else "") = true) as ->
    by (destruct (Js.ltb x 0); reflexivity).
  destruct f as [|f]; [now apply digits_noNewline|].
  set (padded := (Format.repeatChar "0" (S f + 1 - String.length m) ++ m)%string).
  destruct (zeros_digits (S f + 1 - String.length m)) as (Hz & _).
  assert (Hpl : String.length padded = (S f + 1 - String.length m + String.length m)%nat)
    by (unfold padded; now rewrite string_length_append, repeatChar_length).
  assert (Hpd : allChars isDigit padded = true)
    by (unfold padded; rewrite allChars_app, Hz, Hd; reflexivity).
  destruct (substring_split padded (String.length padded - S f) (S f) ltac:(lia))
    as (Hsplit & _ & _).
  set (pre := String.substring 0 (String.length padded - S f) padded) in *.
  set (suf := String.substring (String.length padded - S f) (S f) padded) in *.
  rewrite <- Hsplit, allChars_app in Hpd. apply andb_true_iff in Hpd.
  destruct Hpd as [Hpre Hsuf].
  cbn [andb]. rewrite !noNewline_app.
  rewrite (digits_noNewline pre Hpre), (digits_noNewline suf Hsuf). reflexivity.
Qed.

Lemma formatVolume64_noNewline (usd : Q) :
  noNewline (Binary64.formatVolume usd) = true.
Proof.
  unfold Binary64.formatVolume.
  destruct (Js.geb usd 1000000000); [|destruct (Js.geb usd 1000000);
    [|destruct (Js.geb usd 1000)]];
    cbn [append]; unfold noNewline; cbn [allChars];
    fold (noNewline (Format.toFixed (Binary64.div usd 1000000000) 1 ++ "b"));
    fold (noNewline (Format.toFixed (Binary64.div usd 1000000) 1 ++ "m"));
    fold (noNewline (Format.toFixed (Binary64.div usd 1000) 1 ++ "k"));
    fold (noNewline (Format.toFixed usd 0));
    rewrite ?noNewline_app, toFixed_noNewline; reflexivity.
Qed.

Lemma formatOdds_noNewline (percent : Q) :
  noNewline (Format.formatOdds percent) = true.
Proof.
  unfold Format.formatOdds, Format.stringOfInteger.
  rewrite noNewline_app. rewrite andb_true_r.
  assert (Hu : forall d, noNewline (NilZero.string_of_uint d) = true).
  { intro d. destruct (uint_digits d) as [Hd _].
    destruct d; cbn [NilZero.string_of_uint]; now apply digits_noNewline. }
  destruct (Z.to_int (Qfloor (percent + (1 # 2)))) as [d|d];
    cbn [NilZero.string_of_int]; [apply Hu|].
  unfold noNewline. cbn [allChars]. apply (Hu d).
Qed.

Lemma row_noNewline (m : UnifiedMarket) :
  noNewline (question m) = true ->
  Forall (fun c => noNewline c = true) (Table.row m).
Proof.
  intro Hq. unfold Table.row. repeat constructor.
  - destruct (platform m); reflexivity.
  - exact Hq.
  - rewrite !noNewline_app, formatOdds_noNewline. reflexivity.
  - apply formatVolume64_noNewline.
Qed.

(** X26.  Without markets the table is the sentence "No markets found.".
    With markets, in which no question holds a line feed, the lines of the
    text are a header line, a separator line and one line a market in the
    order of the markets.  All the lines have the same length: the four
    column widths and thirteen characters of frame; and every column is
    exactly as wide as the longest of its header and its cells: no header
    or cell is longer, and the header or one of the cells is as long. *)
Theorem formatMarkdownTable_aligned (markets : list UnifiedMarket) :
  let rows := map Table.row markets in
  let widths := Table.columnWidths rows in
  Table.formatMarkdownTable [] = "No markets found."%string /\
  (markets <> [] -> Forall (fun m => noNewline (question m) = true) markets ->
   splitLines (Table.formatMarkdownTable markets) = Table.tableLines rows) /\
  Table.tableLines rows
  = Table.tableRow Table.headers widths :: Table.separatorRow widths
    :: map (fun m => Table.tableRow (Table.row m) widths) markets /\
  (forall line, In line (Table.tableLines rows) ->
     String.length line = (13 + list_sum widths)%nat) /\
  (forall i, (i < 4)%nat ->
     (String.length (Table.cell Table.headers i) <= nth i widths 0)%nat /\
     (forall m, In m markets ->
        (String.length (Table.cell (Table.row m) i) <= nth i widths 0)%nat) /\
     (nth i widths 0%nat = String.length (Table.cell Table.headers i) \/
      exists m, In m markets /\
        nth i widths 0%nat = String.length (Table.cell (Table.row m) i))).
Proof.
  intros rows widths.
  pose proof (columnWidths_fit rows) as Hfit. fold widths in Hfit.
  assert (Hw : exists w0 w1 w2 w3, widths = [w0; w1; w2; w3])
    by (unfold widths, Table.columnWidths, Table.headers; cbn [Polymarket.mapi]; eauto).
  assert (Hlines : Table.tableLines rows
                   = Table.tableRow Table.headers widths :: Table.separatorRow widths
                     :: map (fun m => Table.tableRow (Table.row m) widths) markets)
    by (unfold Table.tableLines; cbv zeta; fold widths; do 2 f_equal;
        unfold rows; apply map_map).
  split; [reflexivity|]. split; [|split; [exact Hlines|split]].
  - intros Hne Hq.
    destruct markets as [|m0 ms]; [contradiction|].
    cbn [Table.formatMarkdownTable]. fold rows.
    apply splitLines_join; [rewrite Hlines; discriminate|].
    rewrite Hlines. constructor; [|constructor].
    + unfold Table.headers. apply tableRow_noNewline; reflexivity.
    + apply separatorRow_noNewline.
    + apply Forall_forall. intros line Hline.
      apply in_map_iff in Hline. destruct Hline as (m & <- & Hm).
      rewrite Forall_forall in Hq.
      pose proof (row_noNewline m (Hq m Hm)) as Hr. unfold Table.row in *.
      inversion Hr as [|? ? H0 Hr1]; subst. inversion Hr1 as [|? ? H1 Hr2]; subst.
      inversion Hr2 as [|? ? H2 Hr3]; subst. inversion Hr3 as [|? ? H3 _]; subst.
      now apply tableRow_noNewline.
  - destruct Hw as (w0 & w1 & w2 & w3 & Hw).
    intros line Hline. rewrite Hlines in Hline.
    rewrite Hw in *. cbn [list_sum fold_right].
    replace (w0 + (w1 + (w2 + (w3 + 0))))%nat with (w0 + w1 + w2 + w3)%nat by lia.
    destruct Hline as [<- | [<- | Hline]].
    + unfold Table.headers.
      apply tableRow_length;
        [ apply (Hfit 0%nat) | apply (Hfit 1%nat) | apply (Hfit 2%nat) | apply (Hfit 3%nat) ]; lia.
    + apply separatorRow_length.
    + apply in_map_iff in Hline. destruct Hline as (m & <- & Hm).
      assert (Hr : In (Table.row m) rows) by (unfold rows; now apply in_map).
      unfold Table.row at 1.
      apply tableRow_length.
      * apply (proj2 (Hfit 0%nat ltac:(lia)) (Table.row m) Hr).
      * apply (proj2 (Hfit 1%nat ltac:(lia)) (Table.row m) Hr).
      * apply (proj2 (Hfit 2%nat ltac:(lia)) (Table.row m) Hr).
      * apply (proj2 (Hfit 3%nat ltac:(lia)) (Table.row m) Hr).
  - intros i Hi. split; [apply (proj1 (Hfit i Hi))|]. split.
    + intros m Hm. apply (proj2 (Hfit i Hi)). unfold rows. now apply in_map.
    + destruct (columnWidths_attained rows i Hi) as [H|(r & Hr & H)];
        [left; exact H|right].
      unfold rows in Hr. apply in_map_iff in Hr. destruct Hr as (m & <- & Hm).
      exists m. split; assumption.
Qed.

Lemma formatMarkdownTable_aligned_witness :
  splitLines (Table.formatMarkdownTable two_markets)
  = Table.tableLines (map Table.row two_markets).
Proof.
  destruct (formatMarkdownTable_aligned two_markets) as (_ & H & _).
  apply H; [discriminate | repeat constructor].
Defined.
